(** * Conversation & Knowledge Core of the customer-support chatbot

    A shallow embedding of [conversation_manager.py], [entity_extractor.py]
    and [faq_handler.py], followed by the properties of the specification
    that were settled against it.

    Conventions of the embedding:
    - Python [str] is [string]; the text-processing helpers ([lower],
      [split], [strip], the character classes of [re]) are written for ASCII
      text and leave every other byte alone.
    - A naive [datetime] is the number of microseconds since
      1970-01-01T00:00:00, a [timedelta] a number of microseconds.
    - [uuid.uuid4()] and [datetime.now()] are inputs of the operation that
      calls them, one argument per call, in the order of the calls.
    - A Python [dict] whose order is never observed is a [gmap]; message
      dicts live in a heap of objects because the store, the list returned by
      [get_messages] and the record returned by [export_conversation] all
      refer to the same objects.  The order of the keys of
      [self.conversations], which [get_active_conversations] and
      [search_conversations] follow, is kept beside the store.
    - The scores of the FAQ matcher are doubles: the rationals they stand
      for, with the rounding of IEEE 754 after each operation. *)

From Stdlib Require Import ZArith QArith String Ascii List Lia.
From stdpp Require Import gmap strings list fin_maps.

Local Open Scope string_scope.
Local Open Scope Z_scope.

(** ** Python values, exceptions and built-ins *)

Module Py.

(** The exception classes the embedded code can meet.  The last one stands
    for the [BaseException] subclasses that are not [Exception]s
    ([KeyboardInterrupt], [SystemExit]): [except Exception] lets them
    through. *)
Inductive exn :=
| AttributeError (msg : string)
| TypeError (msg : string)
| KeyError (key : string)
| OtherException (msg : string)
| KeyboardInterrupt.

Definition is_Exception (e : exn) : bool :=
  match e with
  | KeyboardInterrupt => false
  | _ => true
  end.

Inductive result (A : Type) :=
| Ok (a : A)
| Raise (e : exn).
Arguments Ok {A} a.
Arguments Raise {A} e.

Definition bind {A B} (r : result A) (k : A -> result B) : result B :=
  match r with
  | Ok a => k a
  | Raise e => Raise e
  end.

(** The values stored under the keys of [context], [user_info] and
    [metadata]. *)
Inductive Value :=
| VNone
| VBool (b : bool)
| VInt (z : Z)
| VStr (s : string).

(** [bool(v)] *)
Definition truthy (v : Value) : bool :=
  match v with
  | VNone => false
  | VBool b => b
  | VInt z => negb (z =? 0)%Z
  | VStr s => negb (String.eqb s "")
  end.

(** [v == w]; a [bool] compares as the integer it is. *)
Definition value_eqb (v w : Value) : bool :=
  match v, w with
  | VNone, VNone => true
  | VStr s, VStr t => String.eqb s t
  | VBool b, VBool c => Bool.eqb b c
  | VInt z, VInt y => (z =? y)%Z
  | VBool b, VInt z | VInt z, VBool b => ((if b then 1 else 0) =? z)%Z
  | _, _ => false
  end.

(** [v in l] *)
Definition contains (l : list Value) (v : Value) : bool :=
  existsb (value_eqb v) l.

(** [l[i:]] for a signed index. *)
Definition slice_from {A} (i : Z) (l : list A) : list A :=
  let n := Z.of_nat (length l) in
  let start := if i <? 0 then Z.max 0 (n + i) else Z.min i n in
  drop (Z.to_nat start) l.

Definition is_upper (c : ascii) : bool :=
  let n := nat_of_ascii c in ((65 <=? n) && (n <=? 90))%nat.

Definition is_lower (c : ascii) : bool :=
  let n := nat_of_ascii c in ((97 <=? n) && (n <=? 122))%nat.

Definition is_digit (c : ascii) : bool :=
  let n := nat_of_ascii c in ((48 <=? n) && (n <=? 57))%nat.

(** [c.isspace()]: tab, line feed, vertical tab, form feed, carriage
    return, the four separators 0x1c-0x1f, and the space. *)
Definition is_space (c : ascii) : bool :=
  let n := nat_of_ascii c in
  (((9 <=? n) && (n <=? 13)) || ((28 <=? n) && (n <=? 32)))%nat.

Definition lower_char (c : ascii) : ascii :=
  if is_upper c then ascii_of_nat (nat_of_ascii c + 32) else c.

Definition upper_char (c : ascii) : ascii :=
  if is_lower c then ascii_of_nat (nat_of_ascii c - 32) else c.

(** [s.lower()] *)
Fixpoint lower (s : string) : string :=
  match s with
  | EmptyString => EmptyString
  | String c s' => String (lower_char c) (lower s')
  end.

Fixpoint lstrip (s : list ascii) : list ascii :=
  match s with
  | c :: s' => if is_space c then lstrip s' else s
  | [] => []
  end.

(** [s.strip()] *)
Definition strip (s : list ascii) : list ascii :=
  rev (lstrip (rev (lstrip s))).

(** [s.split()]: the maximal runs of non-space characters.  [cur] is the
    word being read, reversed. *)
Fixpoint split_aux (s : list ascii) (cur : list ascii) : list string :=
  match s with
  | [] =>
      match cur with
      | [] => []
      | _ => [string_of_list_ascii (rev cur)]
      end
  | c :: s' =>
      if is_space c then
        match cur with
        | [] => split_aux s' []
        | _ => string_of_list_ascii (rev cur) :: split_aux s' []
        end
      else split_aux s' (c :: cur)
  end.

Definition split (s : string) : list string :=
  split_aux (list_ascii_of_string s) [].

End Py.

(** ** [datetime] *)

Module Datetime.

Definition datetime := Z.
Definition timedelta := Z.

Definition microseconds_per_second : Z := 1000000.

(** [timedelta(hours=h)] *)
Definition hours (h : Z) : timedelta := h * 3600 * microseconds_per_second.

(** [timedelta(seconds=s)] *)
Definition seconds (s : Z) : timedelta := s * microseconds_per_second.

(** [d.total_seconds()] *)
Definition total_seconds (d : timedelta) : Q := d # 1000000.

Definition digit_char (d : Z) : ascii := ascii_of_nat (48 + Z.to_nat d).

(** The last [w] decimal digits of [n], in front of [acc]. *)
Fixpoint zero_padded (w : nat) (n : Z) (acc : string) : string :=
  match w with
  | O => acc
  | S w' => zero_padded w' (n / 10) (String (digit_char (n mod 10)) acc)
  end.

(** The proleptic Gregorian date [(year, month, day)] of a day count from
    1970-01-01, by eras of 400 years that start on 1 March. *)
Definition civil_from_days (days : Z) : Z * Z * Z :=
  let z := days + 719468 in
  let era := z / 146097 in
  let doe := z - era * 146097 in
  let yoe := (doe - doe / 1460 + doe / 36524 - doe / 146096) / 365 in
  let doy := doe - (365 * yoe + yoe / 4 - yoe / 100) in
  let mp := (5 * doy + 2) / 153 in
  let d := doy - (153 * mp + 2) / 5 + 1 in
  let m := if mp <? 10 then mp + 3 else mp - 9 in
  let y := yoe + era * 400 + (if m <=? 2 then 1 else 0) in
  (y, m, d).

(** [t.isoformat()]: [YYYY-MM-DDTHH:MM:SS], followed by [.ffffff] when the
    microsecond field is not zero. *)
Definition isoformat (t : datetime) : string :=
  let secs := t / microseconds_per_second in
  let us := t mod microseconds_per_second in
  let '(y, m, d) := civil_from_days (secs / 86400) in
  let sod := secs mod 86400 in
  zero_padded 4 y ("-" ++ zero_padded 2 m ("-" ++ zero_padded 2 d ("T" ++
  zero_padded 2 (sod / 3600) (":" ++ zero_padded 2 (sod / 60 mod 60) (":" ++
  zero_padded 2 (sod mod 60)
    (if (us =? 0)%Z then "" else "." ++ zero_padded 6 us "")))))).

End Datetime.

(** ** [conversation_manager.py] *)

Module ConversationManager.
Import Py Datetime.

(** The [timestamp] key of a message dict holds the [datetime] written by
    [add_message] until [export_conversation] stores a [str] there. *)
Inductive Timestamp :=
| AsDatetime (t : datetime)
| AsStr (s : string).

Record Message := {
  message_id : string;
  role : string;
  content : string;
  timestamp : Timestamp;
  metadata : gmap string Value
}.

(** [m["timestamp"] = ts] *)
Definition set_timestamp (m : Message) (ts : Timestamp) : Message :=
  {| message_id := message_id m; role := role m; content := content m;
     timestamp := ts; metadata := metadata m |}.

(** A conversation dict of the store.  [messages] lists references to
    message objects.  The keys [escalation_reason], [escalation_time] and
    [resolved_at] are absent ([None] here) until the conversation is
    escalated or resolved; an escalation without reason stores
    [Some None]. *)
Record Conversation := {
  conversation_id : string;
  created_at : datetime;
  last_activity : datetime;
  messages : list nat;
  context : gmap string Value;
  user_info : gmap string Value;
  satisfaction_score : option Z;
  escalated : bool;
  resolved : bool;
  escalation_reason : option (option string);
  escalation_time : option datetime;
  resolved_at : option datetime
}.

(** The conversation with its message list and [last_activity] replaced;
    the setters below replace the keys their names tell. *)
Definition touch (c : Conversation) (msgs : list nat) (t : datetime)
  : Conversation :=
  {| conversation_id := conversation_id c; created_at := created_at c;
     last_activity := t; messages := msgs; context := context c;
     user_info := user_info c; satisfaction_score := satisfaction_score c;
     escalated := escalated c; resolved := resolved c;
     escalation_reason := escalation_reason c;
     escalation_time := escalation_time c; resolved_at := resolved_at c |}.

Definition set_context (c : Conversation) (ctx : gmap string Value)
  : Conversation :=
  {| conversation_id := conversation_id c; created_at := created_at c;
     last_activity := last_activity c; messages := messages c;
     context := ctx; user_info := user_info c;
     satisfaction_score := satisfaction_score c; escalated := escalated c;
     resolved := resolved c; escalation_reason := escalation_reason c;
     escalation_time := escalation_time c; resolved_at := resolved_at c |}.

Definition set_user_info_field (c : Conversation) (ui : gmap string Value)
  : Conversation :=
  {| conversation_id := conversation_id c; created_at := created_at c;
     last_activity := last_activity c; messages := messages c;
     context := context c; user_info := ui;
     satisfaction_score := satisfaction_score c; escalated := escalated c;
     resolved := resolved c; escalation_reason := escalation_reason c;
     escalation_time := escalation_time c; resolved_at := resolved_at c |}.

Definition set_escalation (c : Conversation) (reason : option string)
    (t : datetime) : Conversation :=
  {| conversation_id := conversation_id c; created_at := created_at c;
     last_activity := last_activity c; messages := messages c;
     context := context c; user_info := user_info c;
     satisfaction_score := satisfaction_score c; escalated := true;
     resolved := resolved c; escalation_reason := Some reason;
     escalation_time := Some t; resolved_at := resolved_at c |}.

Definition set_resolution (c : Conversation) (t : datetime)
    (score : option Z) : Conversation :=
  {| conversation_id := conversation_id c; created_at := created_at c;
     last_activity := last_activity c; messages := messages c;
     context := context c; user_info := user_info c;
     satisfaction_score := score; escalated := escalated c;
     resolved := true; escalation_reason := escalation_reason c;
     escalation_time := escalation_time c; resolved_at := Some t |}.

(** The manager object: [self.conversations], [self.max_conversation_age],
    and the message objects allocated so far. *)
Record Store := {
  conversations : gmap string Conversation;
  max_conversation_age : timedelta;
  objects : gmap nat Message;
  next_object : nat
}.

Definition with_conversations (st : Store)
    (cs : gmap string Conversation) : Store :=
  {| conversations := cs; max_conversation_age := max_conversation_age st;
     objects := objects st; next_object := next_object st |}.

Definition with_objects (st : Store) (h : gmap nat Message) : Store :=
  {| conversations := conversations st;
     max_conversation_age := max_conversation_age st;
     objects := h; next_object := next_object st |}.

(** [__init__] *)
Definition init : Store :=
  {| conversations := ∅; max_conversation_age := hours 24;
     objects := ∅; next_object := 0%nat |}.

Definition create_conversation (st : Store) (new_id : string)
    (t_created t_activity : datetime) : string * Store :=
  (new_id,
   with_conversations st
     (<[new_id :=
          {| conversation_id := new_id; created_at := t_created;
             last_activity := t_activity; messages := [];
             context := ∅; user_info := ∅; satisfaction_score := None;
             escalated := false; resolved := false;
             escalation_reason := None; escalation_time := None;
             resolved_at := None |}]> (conversations st))).

Definition add_message (st : Store) (cid role content : string)
    (metadata : option (gmap string Value)) (new_id : string)
    (t_message t_activity : datetime) : bool * Store :=
  match conversations st !! cid with
  | None => (false, st)
  | Some conv =>
      let message :=
        {| message_id := new_id; role := role; content := content;
           timestamp := AsDatetime t_message;
           metadata := default ∅ metadata |} in
      let ref := next_object st in
      (true,
       {| conversations :=
            <[cid := touch conv (messages conv ++ [ref]) t_activity]>
              (conversations st);
          max_conversation_age := max_conversation_age st;
          objects := <[ref := message]> (objects st);
          next_object := S ref |})
  end.

Definition get_conversation (st : Store) (cid : string)
  : option Conversation :=
  conversations st !! cid.

(** The result lists the message objects; [limit] is [None] when the
    argument is omitted. *)
Definition get_messages (st : Store) (cid : string) (limit : option Z)
  : list nat :=
  match conversations st !! cid with
  | None => []
  | Some conv =>
      match limit with
      | Some l => if l =? 0 then messages conv
                  else slice_from (- l) (messages conv)
      | None => messages conv
      end
  end.

Definition update_context (st : Store) (cid : string)
    (context_updates : gmap string Value) (t_activity : datetime)
  : bool * Store :=
  match conversations st !! cid with
  | None => (false, st)
  | Some conv =>
      let conv1 := set_context conv (context_updates ∪ context conv) in
      (true,
       with_conversations st
         (<[cid := touch conv1 (messages conv1) t_activity]>
            (conversations st)))
  end.

Definition set_user_info (st : Store) (cid : string)
    (info : gmap string Value) : bool * Store :=
  match conversations st !! cid with
  | None => (false, st)
  | Some conv =>
      (true,
       with_conversations st
         (<[cid := set_user_info_field conv (info ∪ user_info conv)]>
            (conversations st)))
  end.

(** [reason or 'User request'] *)
Definition reason_text (reason : option string) : string :=
  match reason with
  | Some r => if String.eqb r "" then "User request" else r
  | None => "User request"
  end.

Definition reason_value (reason : option string) : Value :=
  match reason with
  | Some r => VStr r
  | None => VNone
  end.

Definition escalate_conversation (st : Store) (cid : string)
    (reason : option string) (t_escalation : datetime) (new_id : string)
    (t_message t_activity : datetime) : bool * Store :=
  match conversations st !! cid with
  | None => (false, st)
  | Some conv =>
      let st1 :=
        with_conversations st
          (<[cid := set_escalation conv reason t_escalation]>
             (conversations st)) in
      let '(_, st2) :=
        add_message st1 cid "system"
          ("Conversation escalated to human agent. Reason: "
             ++ reason_text reason)%string
          (Some (<["type" := VStr "escalation"]>
                   (<["reason" := reason_value reason]> ∅)))
          new_id t_message t_activity in
      (true, st2)
  end.

Definition resolve_conversation (st : Store) (cid : string)
    (score : option Z) (t_resolved : datetime) : bool * Store :=
  match conversations st !! cid with
  | None => (false, st)
  | Some conv =>
      let score' :=
        match score with
        | Some s => Some s
        | None => satisfaction_score conv
        end in
      (true,
       with_conversations st
         (<[cid := set_resolution conv t_resolved score']>
            (conversations st)))
  end.

Record Summary := {
  s_conversation_id : string;
  s_created_at : datetime;
  s_last_activity : datetime;
  s_duration_seconds : option Q;
  s_message_count : nat;
  s_message_counts : gmap string nat;
  s_intents_discussed : list Value;
  s_escalated : bool;
  s_resolved : bool;
  s_satisfaction_score : option Z;
  s_user_info : gmap string Value
}.

(** The message dicts a list of references points to. *)
Definition fetch (h : gmap nat Message) (refs : list nat) : list Message :=
  omap (fun r => h !! r) refs.

Definition count_role (counts : gmap string nat) (m : Message)
  : gmap string nat :=
  <[role m := S (default 0%nat (counts !! role m))]> counts.

Definition collect_intent (intents : list Value) (m : Message)
  : list Value :=
  if String.eqb (role m) "assistant" then
    match metadata m !! "intent" with
    | Some intent =>
        if truthy intent && negb (contains intents intent)
        then intents ++ [intent] else intents
    | None => intents
    end
  else intents.

(** [end_time - start_time], then [.total_seconds()] *)
Definition elapsed (start_time end_time : Timestamp) : result Q :=
  match end_time, start_time with
  | AsDatetime e, AsDatetime s => Ok (total_seconds (e - s))
  | AsDatetime _, AsStr _ =>
      Raise (TypeError "unsupported operand type(s) for -: 'datetime.datetime' and 'str'")
  | AsStr _, AsDatetime _ =>
      Raise (TypeError "unsupported operand type(s) for -: 'str' and 'datetime.datetime'")
  | AsStr _, AsStr _ =>
      Raise (TypeError "unsupported operand type(s) for -: 'str' and 'str'")
  end.

Definition get_conversation_summary (st : Store) (cid : string)
  : result (option Summary) :=
  match conversations st !! cid with
  | None => Ok None
  | Some conversation =>
      let msgs := fetch (objects st) (messages conversation) in
      let message_counts := foldl count_role ∅ msgs in
      let intents := foldl collect_intent [] msgs in
      bind
        (match msgs with
         | [] => Ok None
         | first :: _ =>
             bind (elapsed (timestamp first) (timestamp (List.last msgs first)))
                  (fun d => Ok (Some d))
         end)
        (fun duration =>
           Ok (Some
             {| s_conversation_id := cid;
                s_created_at := created_at conversation;
                s_last_activity := last_activity conversation;
                s_duration_seconds := duration;
                s_message_count := length msgs;
                s_message_counts := message_counts;
                s_intents_discussed := intents;
                s_escalated := escalated conversation;
                s_resolved := resolved conversation;
                s_satisfaction_score := satisfaction_score conversation;
                s_user_info := user_info conversation |}))
  end.

(** The first loop collects the ids to remove, the second deletes them. *)
Definition cleanup_old_conversations (st : Store) (current_time : datetime)
  : nat * Store :=
  let to_remove :=
    map fst
      (List.filter
         (fun kv => current_time - last_activity (snd kv)
                    >? max_conversation_age st)
         (map_to_list (conversations st))) in
  (length to_remove,
   with_conversations st
     (foldl (fun cs conv_id => delete conv_id cs) (conversations st)
            to_remove)).

(** The dict [export_conversation] returns: a copy of the conversation
    dict whose time fields were replaced by strings.  [x_messages] is the
    very list of the stored conversation. *)
Record Exported := {
  x_conversation_id : string;
  x_created_at : string;
  x_last_activity : string;
  x_messages : list nat;
  x_context : gmap string Value;
  x_user_info : gmap string Value;
  x_satisfaction_score : option Z;
  x_escalated : bool;
  x_resolved : bool;
  x_escalation_reason : option (option string);
  x_escalation_time : option string;
  x_resolved_at : option string
}.

(** [for message in conversation["messages"]:
       message["timestamp"] = message["timestamp"].isoformat()]
    on the message objects themselves. *)
Fixpoint isoformat_messages (h : gmap nat Message) (refs : list nat)
  : result unit * gmap nat Message :=
  match refs with
  | [] => (Ok tt, h)
  | r :: refs' =>
      match h !! r with
      | None => isoformat_messages h refs'
      | Some m =>
          match timestamp m with
          | AsDatetime t =>
              isoformat_messages
                (<[r := set_timestamp m (AsStr (isoformat t))]> h) refs'
          | AsStr _ =>
              (Raise (AttributeError "'str' object has no attribute 'isoformat'"), h)
          end
      end
  end.

Definition export_conversation (st : Store) (cid : string)
  : result (option Exported) * Store :=
  match conversations st !! cid with
  | None => (Ok None, st)
  | Some stored =>
      let conversation :=
        {| x_conversation_id := conversation_id stored;
           x_created_at := isoformat (created_at stored);
           x_last_activity := isoformat (last_activity stored);
           x_messages := messages stored;
           x_context := context stored;
           x_user_info := user_info stored;
           x_satisfaction_score := satisfaction_score stored;
           x_escalated := escalated stored;
           x_resolved := resolved stored;
           x_escalation_reason := escalation_reason stored;
           x_escalation_time := isoformat <$> escalation_time stored;
           x_resolved_at := isoformat <$> resolved_at stored |} in
      let '(r, h) := isoformat_messages (objects st) (messages stored) in
      (bind r (fun _ => Ok (Some conversation)), with_objects st h)
  end.

End ConversationManager.

(** ** [re]: backtracking matching of the patterns of [entity_extractor.py] *)

Module Regex.
Import Py.

Inductive class_item :=
| Single (c : ascii)
| Range (lo hi : ascii)
| SpaceItem.

(** The constructs the six patterns are written with.  A quantifier is
    greedy; [Repeat r lo None] has no upper bound. *)
Inductive regex :=
| Eps
| Chr (c : ascii)
| Class (items : list class_item)
| Digit
| WordBoundary
| Seq (r1 r2 : regex)
| Alt (r1 r2 : regex)
| Repeat (r : regex) (lo : nat) (hi : option nat)
| Group (n : nat) (r : regex).

Fixpoint literal (s : string) : regex :=
  match s with
  | EmptyString => Eps
  | String c s' => Seq (Chr c) (literal s')
  end.

Definition Opt (r : regex) : regex := Repeat r 0 (Some 1%nat).
Definition Star (r : regex) : regex := Repeat r 0 None.
Definition Plus (r : regex) : regex := Repeat r 1 None.

(** Whether every way through [r] closes group [n]. *)
Fixpoint always_closes (n : nat) (r : regex) : bool :=
  match r with
  | Group i _ => (i =? n)%nat
  | Seq a b => always_closes n a || always_closes n b
  | Alt a b => always_closes n a && always_closes n b
  | _ => false
  end.

Fixpoint has_groups (r : regex) : bool :=
  match r with
  | Group _ _ => true
  | Seq a b | Alt a b => has_groups a || has_groups b
  | Repeat a _ _ => has_groups a
  | _ => false
  end.

(** A position in the subject: the characters still to read, the one just
    read, the offset, and the spans of the groups closed so far. *)
Record mstate := {
  pos : nat;
  prev : option ascii;
  rest : list ascii;
  captures : gmap nat (nat * nat)
}.

Definition start_state (text : list ascii) : mstate :=
  {| pos := 0; prev := None; rest := text; captures := ∅ |}.

Definition advance (st : mstate) (c : ascii) (tl : list ascii) : mstate :=
  {| pos := S (pos st); prev := Some c; rest := tl;
     captures := captures st |}.

Definition close_group (n from : nat) (st : mstate) : mstate :=
  {| pos := pos st; prev := prev st; rest := rest st;
     captures := <[n := (from, pos st)]> (captures st) |}.

Definition clear_captures (st : mstate) : mstate :=
  {| pos := pos st; prev := prev st; rest := rest st; captures := ∅ |}.

Definition in_range (lo hi c : ascii) : bool :=
  ((nat_of_ascii lo <=? nat_of_ascii c)
   && (nat_of_ascii c <=? nat_of_ascii hi))%nat.

Definition item_has (it : class_item) (c : ascii) : bool :=
  match it with
  | Single x => Ascii.eqb x c
  | Range lo hi => in_range lo hi c
  | SpaceItem => is_space c
  end.

(** Under [re.IGNORECASE] a character matches when it or its other case
    does. *)
Definition chr_matches (ignorecase : bool) (x c : ascii) : bool :=
  if ignorecase then Ascii.eqb (lower_char x) (lower_char c)
  else Ascii.eqb x c.

Definition class_matches (ignorecase : bool) (items : list class_item)
    (c : ascii) : bool :=
  existsb
    (fun it =>
       item_has it c
       || (ignorecase && (item_has it (lower_char c)
                          || item_has it (upper_char c))))
    items.

(** [\w] *)
Definition is_word (c : ascii) : bool :=
  is_upper c || is_lower c || is_digit c || Ascii.eqb c "_".

Definition is_word_opt (c : option ascii) : bool :=
  match c with
  | Some c => is_word c
  | None => false
  end.

Definition at_boundary (st : mstate) : bool :=
  negb (Bool.eqb (is_word_opt (prev st)) (is_word_opt (head (rest st)))).

Definition under (hi : option nat) (count : nat) : bool :=
  match hi with
  | Some h => (count <? h)%nat
  | None => true
  end.

(** The greedy loop of a quantifier [{lo,hi}] around [body]: one more
    iteration is tried first, and the rest of the pattern [k] only when
    that fails.  An iteration has to consume a character, so the length of
    the unread text bounds their number ([fuel]). *)
Fixpoint repeat_loop {R : Type}
    (body : mstate -> (mstate -> option R) -> option R)
    (lo : nat) (hi : option nat) (k : mstate -> option R)
    (fuel count : nat) (cur : mstate) {struct fuel} : option R :=
  let stop := if (lo <=? count)%nat then k cur else None in
  match fuel with
  | O => stop
  | S fuel' =>
      if under hi count then
        match body cur
                (fun nxt => if (pos cur <? pos nxt)%nat
                            then repeat_loop body lo hi k fuel' (S count) nxt
                            else None) with
        | Some res => Some res
        | None => stop
        end
      else stop
  end.

(** [run ignorecase r st k]: match [r] at [st] and hand the position
    reached to [k], the rest of the pattern; when [k] fails, the next
    alternative or the next shorter repetition is tried. *)
Fixpoint run {R : Type} (ignorecase : bool) (r : regex) (st : mstate)
    (k : mstate -> option R) {struct r} : option R :=
  match r with
  | Eps => k st
  | Chr x =>
      match rest st with
      | c :: tl => if chr_matches ignorecase x c then k (advance st c tl)
                   else None
      | [] => None
      end
  | Class items =>
      match rest st with
      | c :: tl => if class_matches ignorecase items c
                   then k (advance st c tl) else None
      | [] => None
      end
  | Digit =>
      match rest st with
      | c :: tl => if is_digit c then k (advance st c tl) else None
      | [] => None
      end
  | WordBoundary => if at_boundary st then k st else None
  | Seq r1 r2 => run ignorecase r1 st (fun st1 => run ignorecase r2 st1 k)
  | Alt r1 r2 =>
      match run ignorecase r1 st k with
      | Some res => Some res
      | None => run ignorecase r2 st k
      end
  | Repeat body lo hi =>
      repeat_loop (run ignorecase body) lo hi k
                  (S (length (rest st))) 0%nat st
  | Group n body =>
      run ignorecase body st (fun st1 => k (close_group n (pos st) st1))
  end.

(** [pattern.match(text, pos)]: the position where the match ends. *)
Definition match_at (ignorecase : bool) (r : regex) (st : mstate)
  : option mstate :=
  run ignorecase r (clear_captures st) Some.

Record Match := {
  m_start : nat;
  m_end : nat;
  m_groups : gmap nat (nat * nat)
}.

Definition step_over (st : mstate) : option mstate :=
  match rest st with
  | c :: tl => Some (advance st c tl)
  | [] => None
  end.

(** [re.finditer]: the leftmost match from the current position, then the
    search goes on where that match ended (one character further when the
    match was empty). *)
Fixpoint finditer_from (fuel : nat) (ignorecase : bool) (r : regex)
    (st : mstate) : list Match :=
  match fuel with
  | O => []
  | S fuel' =>
      match match_at ignorecase r st with
      | Some fin =>
          {| m_start := pos st; m_end := pos fin;
             m_groups := captures fin |}
          :: (if (pos st <? pos fin)%nat
              then finditer_from fuel' ignorecase r fin
              else match step_over st with
                   | Some nxt => finditer_from fuel' ignorecase r nxt
                   | None => []
                   end)
      | None =>
          match step_over st with
          | Some nxt => finditer_from fuel' ignorecase r nxt
          | None => []
          end
      end
  end.

Definition finditer (ignorecase : bool) (r : regex) (text : list ascii)
  : list Match :=
  finditer_from (S (length text)) ignorecase r (start_state text).

(** [text[from:to]] *)
Definition span (text : list ascii) (from to : nat) : list ascii :=
  take (to - from) (drop from text).

(** [match.group(0)] *)
Definition group0 (text : list ascii) (m : Match) : list ascii :=
  span text (m_start m) (m_end m).

(** [match.group(n)], [None] when the group took no part in the match. *)
Definition group (text : list ascii) (m : Match) (n : nat)
  : option (list ascii) :=
  match m_groups m !! n with
  | Some (from, to) => Some (span text from to)
  | None => None
  end.

End Regex.

(** ** [entity_extractor.py] *)

Module EntityExtractor.
Import Py Regex.

(** An entity dict.  [start] and [end_] are present on the entities of the
    pattern stage only.  A confidence is a float that is compared and never
    computed with: it is the rational number the float stands for. *)
Record Entity := {
  type : string;
  value : string;
  start : option nat;
  end_ : option nat;
  confidence : Q;
  source : string
}.

Definition upper_or_digit : regex := Class [Range "A" "Z"; Range "0" "9"].
Definition separator : regex := Class [Single "-"; Single "."; SpaceItem].
Definition colon_or_space : regex := Class [Single ":"; SpaceItem].
Definition digit09 : regex := Class [Range "0" "9"].

(** [\b(?:order|order\s*#|order\s*number)[:\s]*([A-Z0-9]{6,})\b] *)
Definition order_number_pattern : regex :=
  Seq WordBoundary
    (Seq (Alt (literal "order")
            (Alt (Seq (literal "order")
                    (Seq (Star (Class [SpaceItem])) (Chr "#")))
                 (Seq (literal "order")
                    (Seq (Star (Class [SpaceItem])) (literal "number")))))
       (Seq (Star colon_or_space)
          (Seq (Group 1 (Repeat upper_or_digit 6 None)) WordBoundary))).

(** [\b[A-Za-z0-9._%+-]+@[A-Za-z0-9.-]+\.[A-Z|a-z]{2,}\b] *)
Definition email_pattern : regex :=
  Seq WordBoundary
    (Seq (Plus (Class [Range "A" "Z"; Range "a" "z"; Range "0" "9";
                       Single "."; Single "_"; Single "%"; Single "+";
                       Single "-"]))
       (Seq (Chr "@")
          (Seq (Plus (Class [Range "A" "Z"; Range "a" "z"; Range "0" "9";
                             Single "."; Single "-"]))
             (Seq (Chr ".")
                (Seq (Repeat (Class [Range "A" "Z"; Single "|";
                                     Range "a" "z"]) 2 None)
                     WordBoundary))))).

(** [\b(?:\+?1[-.\s]?)?\(?[0-9]{3}\)?[-.\s]?[0-9]{3}[-.\s]?[0-9]{4}\b] *)
Definition phone_pattern : regex :=
  Seq WordBoundary
    (Seq (Opt (Seq (Opt (Chr "+")) (Seq (Chr "1") (Opt separator))))
       (Seq (Opt (Chr "("))
          (Seq (Repeat digit09 3 (Some 3%nat))
             (Seq (Opt (Chr ")"))
                (Seq (Opt separator)
                   (Seq (Repeat digit09 3 (Some 3%nat))
                      (Seq (Opt separator)
                         (Seq (Repeat digit09 4 (Some 4%nat))
                              WordBoundary)))))))).

(** [\b(?:product|item|sku)[:\s]*([A-Z0-9]{3,})\b] *)
Definition product_id_pattern : regex :=
  Seq WordBoundary
    (Seq (Alt (literal "product")
            (Alt (literal "item") (literal "sku")))
       (Seq (Star colon_or_space)
          (Seq (Group 1 (Repeat upper_or_digit 3 None)) WordBoundary))).

(** [\$?\d+(?:\.\d{2})?] *)
Definition amount_pattern : regex :=
  Seq (Opt (Chr "$"))
    (Seq (Plus Digit)
         (Opt (Seq (Chr ".") (Repeat Digit 2 (Some 2%nat))))).

(** [\b(?:today|tomorrow|yesterday|\d{1,2}[/-]\d{1,2}[/-]\d{2,4})\b] *)
Definition date_pattern : regex :=
  let slash_or_dash := Class [Single "/"; Single "-"] in
  Seq WordBoundary
    (Seq (Alt (literal "today")
            (Alt (literal "tomorrow")
               (Alt (literal "yesterday")
                  (Seq (Repeat Digit 1 (Some 2%nat))
                     (Seq slash_or_dash
                        (Seq (Repeat Digit 1 (Some 2%nat))
                           (Seq slash_or_dash
                              (Repeat Digit 2 (Some 4%nat)))))))))
         WordBoundary).

(** [self.patterns], in the order of the dict. *)
Definition patterns : list (string * regex) :=
  [("order_number", order_number_pattern);
   ("email", email_pattern);
   ("phone", phone_pattern);
   ("product_id", product_id_pattern);
   ("amount", amount_pattern);
   ("date", date_pattern)].

Definition uses_group (entity_type : string) : bool :=
  String.eqb entity_type "order_number"
  || String.eqb entity_type "product_id".

(** [match.group(1) if match.groups() else match.group(0)] for the two
    prefixed types, [match.group(0)] for the others; [None] is a group
    that took no part in the match. *)
Definition matched_value (entity_type : string) (pattern : regex)
    (text : list ascii) (m : Match) : option (list ascii) :=
  if uses_group entity_type then
    if has_groups pattern then group text m 1 else Some (group0 text m)
  else Some (group0 text m).

Definition entity_of_match (entity_type : string) (pattern : regex)
    (text : list ascii) (m : Match) : result Entity :=
  match matched_value entity_type pattern text m with
  | None =>
      Raise (AttributeError "'NoneType' object has no attribute 'strip'")
  | Some v =>
      Ok {| type := entity_type;
            value := string_of_list_ascii (strip v);
            start := Some (m_start m);
            end_ := Some (m_end m);
            confidence := 9 # 10;
            source := "regex" |}
  end.

(** The body of a [for] loop that appends to [entities] and may raise. *)
Fixpoint collect {A B} (f : A -> result B) (l : list A) (acc : list B)
  : result (list B) :=
  match l with
  | [] => Ok acc
  | a :: l' => bind (f a) (fun b => collect f l' (acc ++ [b]))
  end.

Fixpoint extract_patterns (ps : list (string * regex)) (text : list ascii)
    (entities : list Entity) : result (list Entity) :=
  match ps with
  | [] => Ok entities
  | (entity_type, pattern) :: ps' =>
      bind (collect (entity_of_match entity_type pattern text)
                    (finditer true pattern text) entities)
           (extract_patterns ps' text)
  end.

Definition _extract_with_regex (text : string) : result (list Entity) :=
  extract_patterns patterns (list_ascii_of_string text) [].

(** [a > b] on confidences *)
Definition Qgtb (a b : Q) : bool := negb (Qle_bool a b).

(** [min(1.0, max(0.0, c))] *)
Definition clamp (c : Q) : Q :=
  let m := if Qgtb c 0%Q then c else 0%Q in
  if Qgtb 1%Q m then m else 1%Q.

(** An element of the [entities] array of the model's JSON answer; a key
    the answer leaves out is [None]. *)
Record RawEntity := {
  raw_type : option string;
  raw_value : option string;
  raw_confidence : option Q
}.

Definition ai_entity (entity : RawEntity) : result Entity :=
  match raw_type entity with
  | None => Raise (KeyError "type")
  | Some t =>
      match raw_value entity with
      | None => Raise (KeyError "value")
      | Some v =>
          Ok {| type := t; value := v; start := None; end_ := None;
                confidence := clamp (default (8 # 10) (raw_confidence entity));
                source := "ai" |}
      end
  end.

(** [f"{entity['type']}_{entity['value'].lower()}"] *)
Definition dedup_key (e : Entity) : string :=
  (type e ++ "_" ++ lower (value e))%string.

(** [unique_entities] is a dict in insertion order. *)
Fixpoint dict_get (key : string) (d : list (string * Entity))
  : option Entity :=
  match d with
  | [] => None
  | (k, v) :: d' => if String.eqb k key then Some v else dict_get key d'
  end.

(** [d[key] = e]: a known key keeps its place, a new one goes last. *)
Fixpoint dict_set (key : string) (e : Entity) (d : list (string * Entity))
  : list (string * Entity) :=
  match d with
  | [] => [(key, e)]
  | (k, v) :: d' =>
      if String.eqb k key then (k, e) :: d'
      else (k, v) :: dict_set key e d'
  end.

Definition dedup_step (unique_entities : list (string * Entity))
    (entity : Entity) : list (string * Entity) :=
  let key := dedup_key entity in
  match dict_get key unique_entities with
  | None => dict_set key entity unique_entities
  | Some kept =>
      if Qgtb (confidence entity) (confidence kept)
      then dict_set key entity unique_entities
      else unique_entities
  end.

Definition _deduplicate_entities (entities : list Entity) : list Entity :=
  map snd (foldl dedup_step [] entities).

Section WithModel.

(** The chat completion request of [_extract_with_ai] followed by
    [json.loads] and [result.get("entities", [])]: the list of raw
    entities, or the exception raised on the way. *)
Variable completion : string -> result (list RawEntity).

Definition _extract_with_ai (text : string) : result (list Entity) :=
  bind (completion text) (fun raw => collect ai_entity raw []).

(** The handler of [try ... except Exception] prints and goes on. *)
Definition extract_entities (text : string) : result (list Entity) :=
  bind (_extract_with_regex text)
    (fun regex_entities =>
       match _extract_with_ai text with
       | Ok ai_entities =>
           Ok (_deduplicate_entities (regex_entities ++ ai_entities))
       | Raise e =>
           if is_Exception e
           then Ok (_deduplicate_entities regex_entities)
           else Raise e
       end).

End WithModel.

End EntityExtractor.

(** ** Python floats *)

(** A float that is a number is the rational it stands for, and an
    operation on floats is the exact operation followed by the rounding of
    IEEE 754 binary64: to the nearest double, a tie going to the double
    whose last bit is 0.  Infinities and not-a-number are left out: a result
    beyond the largest double is rounded as if the exponent had no upper
    bound.  The scores of the FAQ matcher lie between 0 and 1. *)
Module Float64.

(** [n / d] rounded to the nearest integer, a tie going to the even one;
    [d] is positive. *)
Definition nearest_even (n d : Z) : Z :=
  let m := n / d in
  match (2 * (n mod d)) ?= d with
  | Lt => m
  | Gt => m + 1
  | Eq => if Z.even m then m else m + 1
  end.

(** The [e] with [2^e <= n/d < 2^(e+1)], for positive [n] and [d]. *)
Definition exponent (n d : Z) : Z :=
  let e := Z.log2 n - Z.log2 d in
  if (if 0 <=? e then d * 2 ^ e <=? n else d <=? n * 2 ^ (- e))
  then e else e - 1.

(** The double nearest to [n/d], for positive [n] and [d].  A double has
    53 significant bits, and its last bit weighs [2^-1074] or more. *)
Definition nearest_double (n d : Z) : Q :=
  let unit := Z.max (exponent n d - 52) (-1074) in
  if 0 <=? unit
  then inject_Z (nearest_even n (d * 2 ^ unit) * 2 ^ unit)
  else Qred (Qmake (nearest_even (n * 2 ^ (- unit)) d)
                   (Z.to_pos (2 ^ (- unit)))).

Definition round (q : Q) : Q :=
  match Qnum (Qred q) with
  | 0 => 0%Q
  | Zpos n => nearest_double (Zpos n) (Zpos (Qden (Qred q)))
  | Zneg n => Qopp (nearest_double (Zpos n) (Zpos (Qden (Qred q))))
  end.

End Float64.

(** ** [faq_handler.py] *)

Module FAQHandler.
Import Py.

(** The arithmetic [get_faq_response] relies on.  [float] stands for the
    floats that are numbers: the scores are products, sums and quotients
    of numbers between 0 and 1, so no not-a-number arises, and [>] orders
    them like the numbers they stand for.  [of_int] is an [int] where a
    float is expected, [int_div] the [/] of two [int]s.  The selection
    uses the order only; [PythonFloats.doubles] below gives the
    operations and the three literals their values. *)
Class FloatOps := {
  float : Type;
  of_int : Z -> float;
  int_div : Z -> Z -> float;
  fmul : float -> float -> float;
  fadd : float -> float -> float;
  f0_7 : float;
  f0_3 : float;
  f0_6 : float;
  gtb : float -> float -> bool;
  geb : float -> float -> bool;
  gtb_irrefl : forall a, gtb a a = false;
  gtb_trans : forall a b c,
    gtb a b = true -> gtb b c = true -> gtb a c = true;
  gtb_cotrans : forall a b c,
    gtb a c = true -> gtb a b = true \/ gtb b c = true;
  geb_gtb : forall a b, geb a b = negb (gtb b a);
  f0_6_positive : gtb f0_6 (of_int 0) = true
}.

(** An entry of the catalog dict. *)
Record FAQEntry := {
  questions : list string;
  answer : string;
  category : string
}.

Definition stop_words : gset string :=
  list_to_set
    ["the"; "a"; "an"; "and"; "or"; "but"; "in"; "on"; "at"; "to"; "for";
     "of"; "with"; "by"; "is"; "are"; "was"; "were"; "be"; "been"; "have";
     "has"; "had"; "do"; "does"; "did"; "will"; "would"; "could";
     "should"; "may"; "might"; "can"; "i"; "you"; "he"; "she"; "it"; "we";
     "they"; "my"; "your"; "his"; "her"; "its"; "our"; "their"].

(** [set(s.split()) - stop_words] *)
Definition keywords (s : string) : gset string :=
  list_to_set (split s) ∖ stop_words.

Definition no_space (l : list ascii) : Prop :=
  Forall (fun c => is_space c = false) l.

(** [w] stands in [l] as a word: a run of characters without a space,
    with a space or an end of [l] on each side. *)
Definition stands_in (w l : list ascii) : Prop :=
  exists pre post : list ascii,
    l = (pre ++ w ++ post)%list
    /\ w <> []
    /\ no_space w
    /\ (forall c, last pre = Some c -> is_space c = true)
    /\ (forall c, head post = Some c -> is_space c = true).

Definition word_of (w s : string) : Prop :=
  stands_in (list_ascii_of_string w) (list_ascii_of_string s).

Section Handler.
Context `{FloatOps}.

(** [SequenceMatcher(None, a, b).ratio()] of [difflib]. *)
Variable ratio : string -> string -> float.

(** [self.faqs], in the order of the dict. *)
Variable faqs : list (string * FAQEntry).

Definition similarity_threshold : float := f0_6.

Definition _calculate_keyword_score (user_message faq_question : string)
  : float :=
  let user_words := keywords user_message in
  let faq_words := keywords faq_question in
  if decide (faq_words = ∅) then of_int 0
  else
    let intersection := user_words ∩ faq_words in
    int_div (Z.of_nat (size intersection)) (Z.of_nat (size faq_words)).

(** The body of the inner loop up to [combined_score]. *)
Definition combined_score (user_message_lower question : string)
  : float :=
  let similarity := ratio user_message_lower (lower question) in
  let keyword_score :=
    _calculate_keyword_score user_message_lower (lower question) in
  fadd (fmul similarity f0_7) (fmul keyword_score f0_3).

(** The [if] of the inner loop on [(best_match, best_score)]. *)
Definition keep_best (best : option FAQEntry * float)
    (faq_data : FAQEntry) (combined : float)
  : option FAQEntry * float :=
  if gtb combined (snd best) && geb combined similarity_threshold
  then (Some faq_data, combined)
  else best.

(** One turn of the inner loop. *)
Definition consider (user_message_lower : string) (faq_data : FAQEntry)
    (best : option FAQEntry * float) (question : string)
  : option FAQEntry * float :=
  keep_best best faq_data (combined_score user_message_lower question).

Definition get_faq_response (user_message : string) : option string :=
  let user_message_lower := lower user_message in
  let best :=
    foldl
      (fun best item =>
         foldl (consider user_message_lower (snd item)) best
               (questions (snd item)))
      (None, of_int 0) faqs in
  match fst best with
  | Some best_match => Some (answer best_match)
  | None => None
  end.

(** Every paraphrase of every entry with its combined score, in the
    order the two loops visit them. *)
Definition scored (user_message : string) : list (FAQEntry * float) :=
  flat_map
    (fun item =>
       map (fun question =>
              (snd item, combined_score (lower user_message) question))
           (questions (snd item)))
    faqs.

(** What the two loops hold after the candidates [l]: nothing while
    every score was below the threshold, else the first candidate that
    no other exceeds. *)
Definition selected (l : list (FAQEntry * float))
    (best : option FAQEntry * float) : Prop :=
  match fst best with
  | None =>
      snd best = of_int 0
      /\ forall j e s, l !! j = Some (e, s) -> geb s f0_6 = false
  | Some entry =>
      exists i,
        l !! i = Some (entry, snd best)
        /\ geb (snd best) f0_6 = true
        /\ (forall j e s, l !! j = Some (e, s) -> gtb s (snd best) = false)
        /\ (forall j e s, (j < i)%nat -> l !! j = Some (e, s) ->
                          gtb (snd best) s = true)
  end.

End Handler.

End FAQHandler.

(** ** The floats of Python, and a catalog to run the matcher on *)

Module PythonFloats.
Import Py FAQHandler Float64.

(** The doubles.  An [int] becomes the nearest double, which is the
    [int] itself below [2^53]; [/] on two [int]s is their quotient
    rounded once (it is not called with a divisor 0, where Python
    raises); a literal is the double nearest to the decimal written. *)
Definition doubles : FloatOps.
Proof.
  refine {| float := Q;
            of_int := fun z => round (inject_Z z);
            int_div := fun a b => round (inject_Z a / inject_Z b);
            fmul := fun a b => round (a * b);
            fadd := fun a b => round (a + b);
            f0_7 := round (7 # 10);
            f0_3 := round (3 # 10);
            f0_6 := round (6 # 10);
            gtb := fun a b => negb (Qle_bool a b);
            geb := fun a b => Qle_bool b a |}.
  - intros a. apply negb_false_iff, Qle_bool_iff, Qle_refl.
  - intros a b c Hab Hbc. apply negb_true_iff in Hab, Hbc.
    apply negb_true_iff. destruct (Qle_bool a c) eqn:Hac; [|reflexivity].
    apply Qle_bool_iff in Hac.
    assert (Hcb : Qle_bool b c = true); [|congruence].
    apply Qle_bool_iff. destruct (Qlt_le_dec c b) as [Hlt|Hle]; [|exact Hle].
    assert (Hba : Qle_bool a b = true); [|congruence].
    apply Qle_bool_iff. apply Qle_trans with c; [exact Hac|].
    apply Qlt_le_weak, Hlt.
  - intros a b c Hac. apply negb_true_iff in Hac.
    destruct (Qle_bool a b) eqn:Hab; [|left; reflexivity].
    right. apply negb_true_iff.
    destruct (Qle_bool b c) eqn:Hbc; [|reflexivity].
    apply Qle_bool_iff in Hab, Hbc.
    assert (Hle : Qle_bool a c = true); [|congruence].
    apply Qle_bool_iff. apply Qle_trans with b; assumption.
  - intros a b. symmetry. apply negb_involutive.
  - vm_compute. reflexivity.
Defined.

End PythonFloats.

Module FAQSample.
Import Py FAQHandler Float64 PythonFloats.

(** Two entries of the default catalog; the answer of the second is cut
    after its first line. *)
Definition sample_faqs : list (string * FAQEntry) :=
  [("business_hours",
    {| questions := ["what are your business hours"; "when are you open";
                     "what time do you open"; "what time do you close";
                     "hours of operation"];
       answer := "Our customer support is available Monday through Friday from 9:00 AM to 6:00 PM EST, and Saturday from 10:00 AM to 4:00 PM EST. We're closed on Sundays and major holidays. For urgent issues outside these hours, please email support@company.com.";
       category := "general" |});
   ("contact_info",
    {| questions := ["how can i contact you"; "contact information";
                     "phone number"; "email address";
                     "how to reach support"];
       answer := "You can reach our support team in several ways:";
       category := "general" |})].

(** A catalog of one entry, as [data/faqs.json] or [add_faq] can give. *)
Definition reset_faqs : list (string * FAQEntry) :=
  [("reset_link",
    {| questions := ["reset password email link"];
       answer := "Use the reset link we sent to your email address.";
       category := "account" |})].

(** Twice the number of matched characters that [difflib] finds between
    a message and a paraphrase; the ratio is that number over the sum of
    the two lengths, as a float. *)
Definition sample_matches : list (string * list (string * Z)) :=
  [("what time do you open today",
    [("what are your business hours", 24); ("when are you open", 26);
     ("what time do you open", 42); ("what time do you close", 38);
     ("hours of operation", 16); ("how can i contact you", 16);
     ("contact information", 10); ("phone number", 10);
     ("email address", 6); ("how to reach support", 10)]);
   ("phone",
    [("what are your business hours", 4); ("when are you open", 4);
     ("what time do you open", 4); ("what time do you close", 6);
     ("hours of operation", 6); ("how can i contact you", 6);
     ("contact information", 4); ("phone number", 10);
     ("email address", 2); ("how to reach support", 6)]);
   ("reset pass mail", [("reset password email link", 30)])].

Fixpoint table_get {A} (key : string) (table : list (string * A))
  : option A :=
  match table with
  | [] => None
  | (k, v) :: table' =>
      if String.eqb k key then Some v else table_get key table'
  end.

Definition sample_ratio (a b : string) : Q :=
  match table_get a sample_matches ≫= table_get b with
  | Some twice_matched =>
      round (Qmake twice_matched
               (Pos.of_nat (String.length a + String.length b)))
  | None => 0%Q
  end.

End FAQSample.

(** ** The life of a manager *)

Module Session.
Import Py Datetime ConversationManager.

(** A call of a method that writes to the manager, with the ids and the
    clock readings it draws. *)
Inductive call :=
| CreateConversation (new_id : string) (t_created t_activity : datetime)
| AddMessage (cid role content : string)
    (metadata : option (gmap string Value)) (new_id : string)
    (t_message t_activity : datetime)
| UpdateContext (cid : string) (context_updates : gmap string Value)
    (t_activity : datetime)
| SetUserInfo (cid : string) (info : gmap string Value)
| EscalateConversation (cid : string) (reason : option string)
    (t_escalation : datetime) (new_id : string)
    (t_message t_activity : datetime)
| ResolveConversation (cid : string) (score : option Z)
    (t_resolved : datetime)
| CleanupOldConversations (current_time : datetime)
| ExportConversation (cid : string).

Definition perform (st : Store) (c : call) : Store :=
  match c with
  | CreateConversation new_id t1 t2 =>
      snd (create_conversation st new_id t1 t2)
  | AddMessage cid role content metadata new_id t1 t2 =>
      snd (add_message st cid role content metadata new_id t1 t2)
  | UpdateContext cid updates t => snd (update_context st cid updates t)
  | SetUserInfo cid info => snd (set_user_info st cid info)
  | EscalateConversation cid reason t0 new_id t1 t2 =>
      snd (escalate_conversation st cid reason t0 new_id t1 t2)
  | ResolveConversation cid score t =>
      snd (resolve_conversation st cid score t)
  | CleanupOldConversations t => snd (cleanup_old_conversations st t)
  | ExportConversation cid => snd (export_conversation st cid)
  end.

(** The manager after [__init__] and the calls, in order. *)
Definition run (calls : list call) : Store := foldl perform init calls.

(** The [n] most recent elements of a chronological sequence, in its
    order. *)
Definition most_recent {A} (n : nat) (l : list A) : list A :=
  drop (length l - n) l.

(** The ids [create_conversation] returned during the calls: each such
    call returns the id it drew. *)
Definition created (calls : list call) : list string :=
  flat_map
    (fun c =>
       match c with
       | CreateConversation new_id _ _ => [new_id]
       | _ => []
       end)
    calls.

End Session.

(** ** The shape of a manager, and its two listing methods *)

Module StoreShape.
Import Py Datetime ConversationManager Session.

(** What holds of every manager: a conversation is stored under its own
    id, and its messages are distinct allocated objects that no other
    conversation lists. *)
Definition well_formed (st : Store) : Prop :=
  (forall cid conv,
      conversations st !! cid = Some conv ->
      conversation_id conv = cid
      /\ NoDup (messages conv)
      /\ forall r, r ∈ messages conv ->
                   (r < next_object st)%nat /\ is_Some (objects st !! r))
  /\ (forall cid1 cid2 conv1 conv2 r,
        conversations st !! cid1 = Some conv1 ->
        conversations st !! cid2 = Some conv2 ->
        r ∈ messages conv1 -> r ∈ messages conv2 -> cid1 = cid2).

(** Whether [export_conversation] is not among the calls. *)
Definition never_exported (calls : list call) : bool :=
  forallb
    (fun c => match c with ExportConversation _ => false | _ => true end)
    calls.

(** Every message object still holds the [datetime] it was created with. *)
Definition datetimes_only (st : Store) : Prop :=
  forall r m, objects st !! r = Some m ->
              exists t, timestamp m = AsDatetime t.

(** What a later state of a conversation keeps of an earlier one. *)
Definition grown_from (before after : Conversation) : Prop :=
  conversation_id after = conversation_id before
  /\ created_at after = created_at before
  /\ messages before `prefix_of` messages after
  /\ (escalated before = true -> escalated after = true)
  /\ (resolved before = true -> resolved after = true).

(** What a message object keeps: all but its timestamp. *)
Definition same_message (before after : Message) : Prop :=
  message_id after = message_id before
  /\ role after = role before
  /\ content after = content before
  /\ metadata after = metadata before.

(** The sum of the values of a dict of counts. *)
Definition total (counts : gmap string nat) : nat :=
  map_fold (fun _ n acc => (n + acc)%nat) 0%nat counts.

End StoreShape.

Module ConversationQueries.
Import Py Datetime ConversationManager EntityExtractor Session.

(** [s.startswith(p)] *)
Fixpoint starts_with (p s : list ascii) : bool :=
  match p, s with
  | [], _ => true
  | a :: p', b :: s' => Ascii.eqb a b && starts_with p' s'
  | _ :: _, [] => false
  end.

(** [needle in hay] on strings *)
Fixpoint occurs_in (needle hay : list ascii) : bool :=
  starts_with needle hay
  || match hay with
     | [] => false
     | _ :: hay' => occurs_in needle hay'
     end.

(** The test of the inner loop of [search_conversations]. *)
Definition mentions (query_lower : string) (m : Message) : bool :=
  occurs_in (list_ascii_of_string query_lower)
            (list_ascii_of_string (lower (content m))).

(** The condition of [get_active_conversations]. *)
Definition is_active (st : Store) (current_time : datetime)
    (conversation : Conversation) : bool :=
  negb (resolved conversation)
  && (current_time - last_activity conversation <? max_conversation_age st).

(** A manager together with the order of the keys of
    [self.conversations], which the [gmap] of the store does not record
    and the two listing methods follow. *)
Record Manager := {
  store : Store;
  key_order : list string
}.

(** The keys after a call.  A dict lists its keys in the order in which
    they were first inserted: [create_conversation] puts its id last, or
    leaves it in its place when it is a key already;
    [cleanup_old_conversations] deletes keys and leaves the others in
    place; no other method inserts or deletes a key. *)
Definition keys_after (st : Store) (keys : list string) (c : call)
  : list string :=
  match c with
  | CreateConversation new_id _ _ =>
      if existsb (String.eqb new_id) keys then keys
      else (keys ++ [new_id])%list
  | CleanupOldConversations current_time =>
      List.filter
        (fun k =>
           match conversations
                   (snd (cleanup_old_conversations st current_time)) !! k
           with
           | Some _ => true
           | None => false
           end)
        keys
  | _ => keys
  end.

Definition step (m : Manager) (c : call) : Manager :=
  {| store := perform (store m) c;
     key_order := keys_after (store m) (key_order m) c |}.

(** The manager after [__init__] and the calls, in order. *)
Definition manager_after (calls : list call) : Manager :=
  foldl step {| store := init; key_order := [] |} calls.

(** [self.conversations.values()] *)
Definition dict_values (m : Manager) : list Conversation :=
  omap (fun k => conversations (store m) !! k) (key_order m).

(** The loop of [get_active_conversations]; an element of [active] is
    what [get_conversation_summary] returned. *)
Fixpoint active_loop (st : Store) (current_time : datetime)
    (values : list Conversation) (active : list (option Summary))
  : result (list (option Summary)) :=
  match values with
  | [] => Ok active
  | conversation :: values' =>
      if is_active st current_time conversation
      then
        bind (get_conversation_summary st (conversation_id conversation))
          (fun summary =>
             active_loop st current_time values' (active ++ [summary])%list)
      else active_loop st current_time values' active
  end.

Definition get_active_conversations (m : Manager) (current_time : datetime)
  : result (list (option Summary)) :=
  active_loop (store m) current_time (dict_values m) [].

(** The outer loop of [search_conversations] with its [break]. *)
Fixpoint search_loop (st : Store) (query_lower : string) (limit : Z)
    (values : list Conversation) (results : list (option Summary))
  : result (list (option Summary)) :=
  match values with
  | [] => Ok results
  | conversation :: values' =>
      if existsb (mentions query_lower)
           (fetch (objects st) (messages conversation))
      then
        bind (get_conversation_summary st (conversation_id conversation))
          (fun summary =>
             let results' := (results ++ [summary])%list in
             if Z.of_nat (length results') >=? limit then Ok results'
             else search_loop st query_lower limit values' results')
      else search_loop st query_lower limit values' results
  end.

(** [limit] is 10 when the argument is omitted. *)
Definition search_conversations (m : Manager) (query : string)
    (limit : option Z) : result (list (option Summary)) :=
  search_loop (store m) (lower query) (default 10 limit) (dict_values m) [].

End ConversationQueries.
(** ** What the matcher accepts, and the validators of [entity_extractor.py] *)

Module RegexLanguage.
Import Py Regex.

Definition within (hi : option nat) (n : nat) : Prop :=
  match hi with
  | Some h => (n <= h)%nat
  | None => True
  end.

(** The strings a pattern can consume, word boundaries aside: a
    repetition consumes some number, within its bounds, of non-empty
    strings of its body. *)
Fixpoint lang (ignorecase : bool) (r : regex) (s : list ascii) : Prop :=
  match r with
  | Eps => s = []
  | WordBoundary => s = []
  | Chr x => exists c, s = [c] /\ chr_matches ignorecase x c = true
  | Class items =>
      exists c, s = [c] /\ class_matches ignorecase items c = true
  | Digit => exists c, s = [c] /\ is_digit c = true
  | Seq r1 r2 =>
      exists s1 s2,
        s = (s1 ++ s2)%list /\ lang ignorecase r1 s1 /\ lang ignorecase r2 s2
  | Alt r1 r2 => lang ignorecase r1 s \/ lang ignorecase r2 s
  | Repeat body lo hi =>
      exists pieces,
        s = concat pieces
        /\ Forall (fun p => p <> [] /\ lang ignorecase body p) pieces
        /\ (lo <= length pieces)%nat
        /\ within hi (length pieces)
  | Group _ body => lang ignorecase body s
  end.

(** Patterns without word boundary and without group. *)
Fixpoint plain (r : regex) : bool :=
  match r with
  | WordBoundary | Group _ _ => false
  | Seq a b | Alt a b => plain a && plain b
  | Repeat a _ _ => plain a
  | _ => true
  end.

(** The least number of characters a match of [r] reads. *)
Fixpoint min_length (r : regex) : nat :=
  match r with
  | Eps | WordBoundary => 0
  | Chr _ | Class _ | Digit => 1
  | Seq a b => min_length a + min_length b
  | Alt a b => Nat.min (min_length a) (min_length b)
  | Repeat a lo _ => lo * min_length a
  | Group _ a => min_length a
  end.

(** One character read. *)
Definition step (st : mstate) : mstate :=
  match rest st with
  | c :: tl => advance st c tl
  | [] => st
  end.

(** [n] characters read. *)
Definition read (n : nat) (st : mstate) : mstate := Nat.iter n step st.

(** A position of the subject [text]. *)
Definition positioned (text : list ascii) (st : mstate) : Prop :=
  exists taken, text = (taken ++ rest st)%list /\ pos st = length taken.

(** From [before] to [after] the matcher went forward, and the groups it
    closed on the way lie between the two positions. *)
Definition fresh_within (before after : mstate) : Prop :=
  (pos before <= pos after)%nat
  /\ forall n a b,
       captures after !! n = Some (a, b) ->
       captures before !! n = Some (a, b)
       \/ (pos before <= a /\ a <= b /\ b <= pos after)%nat.

(** The end of a pattern that [re.match] runs to the end of the string. *)
Definition at_end (st : mstate) : option mstate :=
  match rest st with
  | [] => Some st
  | _ :: _ => None
  end.

(** A final [$]: the end of the string, or the line feed that ends it. *)
Definition at_dollar (st : mstate) : option mstate :=
  match rest st with
  | [] => Some st
  | [c] => if Ascii.eqb c "010" then Some st else None
  | _ => None
  end.

(** A test that holds of each of the 256 characters. *)
Definition every_char (test : ascii -> bool) : bool :=
  forallb (fun n => test (ascii_of_nat n)) (seq 0 256).

End RegexLanguage.

Module EntityValidation.
Import Py Regex RegexLanguage EntityExtractor.

(** [^[A-Za-z0-9._%+-]+@[A-Za-z0-9.-]+\.[A-Z|a-z]{2,}$] between its
    anchors *)
Definition local_items : list class_item :=
  [Range "A" "Z"; Range "a" "z"; Range "0" "9";
   Single "."; Single "_"; Single "%"; Single "+"; Single "-"].
Definition domain_items : list class_item :=
  [Range "A" "Z"; Range "a" "z"; Range "0" "9"; Single "."; Single "-"].
Definition label_items : list class_item :=
  [Range "A" "Z"; Single "|"; Range "a" "z"].

Definition email_body : regex :=
  Seq (Plus (Class local_items))
    (Seq (Chr "@")
       (Seq (Plus (Class domain_items))
          (Seq (Chr ".") (Repeat (Class label_items) 2 None)))).

(** [bool(re.match(pattern, email))], without flags *)
Definition _validate_email (email : string) : bool :=
  match run false email_body (start_state (list_ascii_of_string email))
          at_dollar with
  | Some _ => true
  | None => false
  end.

(** [re.sub(r'\D', '', phone)] *)
Definition digits_of (s : list ascii) : list ascii :=
  List.filter is_digit s.

Definition _validate_phone (phone : string) : bool :=
  let digits := digits_of (list_ascii_of_string phone) in
  (length digits =? 10)%nat || (length digits =? 11)%nat.

(** [s.isalnum()]: not empty, letters and digits only *)
Definition isalnum (s : list ascii) : bool :=
  match s with
  | [] => false
  | _ => forallb (fun c => is_upper c || is_lower c || is_digit c) s
  end.

Definition _validate_order_number (order_number : string) : bool :=
  (6 <=? String.length order_number)%nat
  && isalnum (list_ascii_of_string order_number).

(** [s.replace('$', '')] *)
Definition without_dollar (s : list ascii) : list ascii :=
  List.filter (fun c => negb (Ascii.eqb c "$")) s.

(** The strings [float] parses, once stripped: an optional sign, then
    [infinity], [inf], [nan] in any case, or a decimal number, whose digits
    may be separated by single underscores, with an optional exponent. *)
Definition digitpart : regex :=
  Seq Digit (Star (Seq (Opt (Chr "_")) Digit)).

Definition float_pattern : regex :=
  Seq (Opt (Class [Single "+"; Single "-"]))
    (Alt (literal "infinity")
       (Alt (literal "inf")
          (Alt (literal "nan")
             (Seq (Alt (Seq (Opt digitpart) (Seq (Chr ".") digitpart))
                       (Seq digitpart (Opt (Chr "."))))
                  (Opt (Seq (Chr "e")
                          (Seq (Opt (Class [Single "+"; Single "-"]))
                               digitpart))))))).

(** The blanks [float] skips at both ends of an ASCII string: tab, line
    feed, vertical tab, form feed, carriage return and the space, not the
    separators 0x1c-0x1f that [str.strip] removes as well. *)
Definition is_blank (c : ascii) : bool :=
  let n := nat_of_ascii c in
  (((9 <=? n) && (n <=? 13)) || (n =? 32))%nat.

Fixpoint skip_blanks (s : list ascii) : list ascii :=
  match s with
  | c :: s' => if is_blank c then skip_blanks s' else s
  | [] => []
  end.

Definition trimmed (s : list ascii) : list ascii :=
  rev (skip_blanks (rev (skip_blanks s))).

(** Whether [float(s)] returns; it raises [ValueError] otherwise. *)
Definition float_parses (s : list ascii) : bool :=
  match run true float_pattern (start_state (trimmed s)) at_end with
  | Some _ => true
  | None => false
  end.

(** The [try] around [float(amount.replace('$', ''))] *)
Definition _validate_amount (amount : string) : bool :=
  float_parses (without_dollar (list_ascii_of_string amount)).

(** The addresses the pattern of [_validate_email] describes: a local
    part, [@], a domain, a point and a last label of two characters or
    more; the class [[A-Z|a-z]] of the last label holds the bar. *)
Definition alnum (c : ascii) : bool := is_upper c || is_lower c || is_digit c.

Definition one_of (chars : string) (c : ascii) : bool :=
  existsb (Ascii.eqb c) (list_ascii_of_string chars).

Definition local_char (c : ascii) : bool := alnum c || one_of "._%+-" c.
Definition domain_char (c : ascii) : bool := alnum c || one_of ".-" c.
Definition label_char (c : ascii) : bool :=
  is_upper c || is_lower c || one_of "|" c.

Definition address (s : list ascii) : Prop :=
  exists local domain label : list ascii,
    s = (local ++ "@"%char :: domain ++ "."%char :: label)%list
    /\ local <> [] /\ Forall (fun c => local_char c = true) local
    /\ domain <> [] /\ Forall (fun c => domain_char c = true) domain
    /\ (2 <= length label)%nat
    /\ Forall (fun c => label_char c = true) label.

(** The dispatch on [validators.get(entity_type)]; a type without
    validator is valid. *)
Definition validate_entity (entity_type value : string) : bool :=
  if String.eqb entity_type "email" then _validate_email value
  else if String.eqb entity_type "phone" then _validate_phone value
  else if String.eqb entity_type "order_number"
       then _validate_order_number value
  else if String.eqb entity_type "amount" then _validate_amount value
  else true.

End EntityValidation.

(** ** What [_deduplicate_entities] keeps *)

Module ExtractorShape.
Import Py EntityExtractor.

(** The keys of a list in the order in which they first appear: the order
    of a dict filled from it. *)
Definition first_seen (keys : list string) : list string :=
  foldl (fun acc k => if existsb (String.eqb k) acc then acc
                      else (acc ++ [k])%list)
        [] keys.

(** [o] stands in [entities] where every earlier entity of its key has a
    lower confidence and no later one a higher. *)
Definition first_best (entities : list Entity) (o : Entity) : Prop :=
  exists pre post,
    entities = (pre ++ o :: post)%list
    /\ (forall e, e ∈ pre -> dedup_key e = dedup_key o ->
                  Qgtb (confidence o) (confidence e) = true)
    /\ (forall e, e ∈ post -> dedup_key e = dedup_key o ->
                  Qgtb (confidence e) (confidence o) = false).

(** The dict after the entities [seen]: its keys in the order of their
    first appearance, and under each key the first best of [seen]. *)
Definition filled (seen : list Entity) (d : list (string * Entity)) : Prop :=
  map fst d = first_seen (map dedup_key seen)
  /\ NoDup (map fst d)
  /\ (forall key o, dict_get key d = Some o ->
                    dedup_key o = key /\ first_best seen o)
  /\ (forall e, e ∈ seen -> is_Some (dict_get (dedup_key e) d)).

End ExtractorShape.

(** ** The intent classifier ([intent_classifier.py]) *)

(** What [json.loads] returns.  A number is the rational it stands for;
    an object is a dict in insertion order. *)
Module Json.
Import Py.

#[warnings="-register-all"]
Inductive json :=
| JNull
| JBool (b : bool)
| JNum (q : Q)
| JStr (s : string)
| JArr (items : list json)
| JObj (fields : list (string * json)).

Fixpoint obj_get (key : string) (fields : list (string * json))
  : option json :=
  match fields with
  | [] => None
  | (k, v) :: fields' =>
      if String.eqb k key then Some v else obj_get key fields'
  end.

(** [d[key] = v]: a known key keeps its place, a new one goes last. *)
Fixpoint obj_set (key : string) (v : json) (fields : list (string * json))
  : list (string * json) :=
  match fields with
  | [] => [(key, v)]
  | (k, w) :: fields' =>
      if String.eqb k key then (k, v) :: fields'
      else (k, w) :: obj_set key v fields'
  end.

(** [v[key]] for a string [key] *)
Definition subscript (v : json) (key : string) : result json :=
  match v with
  | JObj fields =>
      match obj_get key fields with
      | Some x => Ok x
      | None => Raise (KeyError key)
      end
  | JArr _ =>
      Raise (TypeError "list indices must be integers or slices, not str")
  | JStr _ => Raise (TypeError "string indices must be integers")
  | _ => Raise (TypeError "object is not subscriptable")
  end.

(** [v[key] = x] *)
Definition set_item (v : json) (key : string) (x : json) : result json :=
  match v with
  | JObj fields => Ok (JObj (obj_set key x fields))
  | JArr _ =>
      Raise (TypeError "list indices must be integers or slices, not str")
  | _ => Raise (TypeError "object does not support item assignment")
  end.

(** [v.get(key, default)] *)
Definition get (v : json) (key : string) (default : json) : result json :=
  match v with
  | JObj fields =>
      Ok (match obj_get key fields with
          | Some x => x
          | None => default
          end)
  | _ => Raise (AttributeError "object has no attribute 'get'")
  end.

(** [v in d] for a dict [d] with the string keys [keys]: a list or a dict
    cannot be hashed. *)
Definition in_keys (v : json) (keys : list string) : result bool :=
  match v with
  | JStr s => Ok (existsb (String.eqb s) keys)
  | JArr _ => Raise (TypeError "unhashable type: 'list'")
  | JObj _ => Raise (TypeError "unhashable type: 'dict'")
  | _ => Ok false
  end.

(** [max(0.0, min(1.0, c))] on rationals *)
Definition clamp01 (c : Q) : Q :=
  let m := if Qle_bool 1 c then 1%Q else c in
  if Qle_bool m 0 then 0%Q else m.

(** The same on a value: a [bool] counts as the integer it is, and
    anything else than a number cannot be compared with a float. *)
Definition clamp_value (v : json) : result json :=
  match v with
  | JNum q => Ok (JNum (clamp01 q))
  | JBool b => Ok (JNum (clamp01 (if b then 1 else 0)))
  | _ => Raise (TypeError "'<' not supported between these instances")
  end.

End Json.

Module IntentClassifier.
Import Py Json.

(** An entry of [self.intents]; a hand-written [data/intents.json] may
    lack the description. *)
Record IntentData := {
  description : option string;
  examples : list string
}.

(** The fallback of [_load_intents]. *)
Definition default_intents : list (string * IntentData) :=
  [("billing",
    {| description :=
         Some "Questions about billing, payments, charges, refunds";
       examples := ["billing issue"; "payment problem"; "refund request";
                    "charge inquiry"] |});
   ("technical_support",
    {| description :=
         Some "Technical problems, troubleshooting, setup issues";
       examples := ["not working"; "error message"; "setup help";
                    "technical problem"] |});
   ("product_info",
    {| description :=
         Some "Questions about products, features, specifications";
       examples := ["product details"; "features"; "specifications";
                    "compatibility"] |});
   ("order_tracking",
    {| description := Some "Order status, shipping, delivery questions";
       examples := ["track order"; "shipping status"; "delivery time";
                    "order status"] |});
   ("account_management",
    {| description := Some "Account settings, password, profile changes";
       examples := ["change password"; "account settings";
                    "profile update"; "login issues"] |});
   ("general_inquiry",
    {| description :=
         Some "General questions, business hours, contact information";
       examples := ["business hours"; "contact info"; "general question";
                    "help"] |});
   ("complaint",
    {| description := Some "Customer complaints, dissatisfaction, issues";
       examples := ["complaint"; "unhappy"; "disappointed";
                    "problem with service"] |})].

(** [{intent: data["description"] for intent, data in ...}] *)
Fixpoint intent_descriptions (intents : list (string * IntentData))
  : result (list (string * string)) :=
  match intents with
  | [] => Ok []
  | (intent, data) :: intents' =>
      match description data with
      | None => Raise (KeyError "description")
      | Some d =>
          bind (intent_descriptions intents')
               (fun ds => Ok ((intent, d) :: ds))
      end
  end.

Definition fallback : json :=
  JObj [("intent", JStr "general_inquiry");
        ("confidence", JNum (1 # 2));
        ("reasoning", JStr "Fallback due to classification error")].

Section WithModel.

(** [self.intents], in the order of the dict. *)
Variable intents : list (string * IntentData).

(** The chat completion request made of the descriptions and the message,
    followed by [json.loads] of its content: the parsed answer, or the
    exception raised on the way. *)
Variable completion : list (string * string) -> string -> result json.

(** The body of the [try]. *)
Definition classify (user_message : string) : result json :=
  bind (intent_descriptions intents) (fun descriptions =>
  bind (completion descriptions user_message) (fun result =>
  bind (subscript result "intent") (fun intent =>
  bind (in_keys intent (map fst intents)) (fun known =>
  bind (if known then Ok result
        else bind (set_item result "intent" (JStr "general_inquiry"))
               (fun result =>
                  set_item result "confidence" (JNum (1 # 2))))
       (fun result =>
  bind (subscript result "confidence") (fun confidence =>
  bind (clamp_value confidence) (fun clamped =>
  set_item result "confidence" clamped))))))).

(** The handler of [except Exception] prints and returns the fallback. *)
Definition classify_intent (user_message : string) : result json :=
  match classify user_message with
  | Ok result => Ok result
  | Raise e => if is_Exception e then Ok fallback else Raise e
  end.

End WithModel.

End IntentClassifier.

(** ** The chatbot ([chatbot.py]) *)

Module Chatbot.
Import Py Json FAQHandler.

(** A message of the conversation history; [None] is a missing key. *)
Record HistoryMessage := {
  h_role : option string;
  h_content : option string
}.

(** A message of the request. *)
Record ChatMessage := {
  role : string;
  content : string
}.

(** The dict [get_response] returns; [entity] is what the extractor
    returns a list of. *)
Record Response (entity : Type) := {
  response : string;
  intent : json;
  confidence : json;
  entities : list entity;
  source : string
}.
Arguments response {entity} _.
Arguments intent {entity} _.
Arguments confidence {entity} _.
Arguments entities {entity} _.
Arguments source {entity} _.

Definition context_message (msg : HistoryMessage) : result ChatMessage :=
  match h_role msg with
  | None => Raise (KeyError "role")
  | Some r =>
      match h_content msg with
      | None => Raise (KeyError "content")
      | Some c => Ok {| role := r; content := c |}
      end
  end.

Definition error_response {entity : Type} : Response entity :=
  {| response := "I apologize, but I'm experiencing technical difficulties. Please try again in a moment, or feel free to contact our human support team for immediate assistance.";
     intent := JStr "error";
     confidence := JNum 0;
     entities := [];
     source := "Error" |}.

Section WithServices.
Context `{FloatOps} {entity : Type}.

(** [self.system_prompt] *)
Variable system_prompt : string.

(** The f-string [enhanced_message] of the message, the intent and the
    entities. *)
Variable enhanced_message : string -> json -> list entity -> string.

(** The chat completion request of [_generate_gpt_response] and the
    content of its first choice, or the exception raised. *)
Variable generate : list ChatMessage -> result string.

(** [self.entity_extractor.extract_entities]: the entities it returns, or
    the exception it raises.  [EntityExtractor.extract_entities] describes
    it on the answers of the model whose types and values are strings; on
    an answer with a value that is no string, a number or [null],
    [_deduplicate_entities] raises [AttributeError] on [.lower()], outside
    the [try] of [extract_entities]. *)
Variable extract_entities : string -> result (list entity).

(** The classifier's request. *)
Variable classification : list (string * string) -> string -> result json.

Variable intents : list (string * IntentClassifier.IntentData).
Variable ratio : string -> string -> float.
Variable faqs : list (string * FAQEntry).

(** The messages of the request: the system prompt, the last six
    messages of the history, the enhanced message. *)
Definition context_messages (user_message : string) (intent : json)
    (entities : list entity)
    (conversation_history : option (list HistoryMessage))
  : result (list ChatMessage) :=
  bind (match conversation_history with
        | None | Some [] => Ok []
        | Some history =>
            EntityExtractor.collect context_message
              (slice_from (-6) history) []
        end)
       (fun recent =>
          Ok ({| role := "system"; content := system_prompt |}
              :: recent
              ++ [{| role := "user";
                     content := enhanced_message user_message intent
                                  entities |}])%list).

Definition _generate_gpt_response (user_message : string) (intent : json)
    (entities : list entity)
    (conversation_history : option (list HistoryMessage))
  : result string :=
  bind (context_messages user_message intent entities conversation_history)
       generate.

(** The body of the [try]. *)
Definition respond (user_message conversation_id : string)
    (conversation_history : option (list HistoryMessage))
  : result (Response entity) :=
  bind (extract_entities user_message) (fun entities =>
  bind (IntentClassifier.classify_intent intents classification
          user_message) (fun intent_result =>
  bind (get intent_result "intent" (JStr "general_inquiry")) (fun intent =>
  bind (get intent_result "confidence" (JNum 0)) (fun confidence =>
  let faq_response := get_faq_response ratio faqs user_message in
  match faq_response with
  | Some faq_answer =>
      if negb (String.eqb faq_answer "") then
        Ok {| response := faq_answer; intent := intent;
              confidence := confidence; entities := entities;
              source := "FAQ" |}
      else
        bind (_generate_gpt_response user_message intent entities
                conversation_history)
             (fun answer =>
                Ok {| response := answer; intent := intent;
                      confidence := confidence; entities := entities;
                      source := "AI" |})
  | None =>
      bind (_generate_gpt_response user_message intent entities
              conversation_history)
           (fun answer =>
              Ok {| response := answer; intent := intent;
                    confidence := confidence; entities := entities;
                    source := "AI" |})
  end)))).

Definition get_response (user_message conversation_id : string)
    (conversation_history : option (list HistoryMessage))
  : result (Response entity) :=
  match respond user_message conversation_id conversation_history with
  | Ok r => Ok r
  | Raise e => if is_Exception e then Ok error_response else Raise e
  end.

End WithServices.

End Chatbot.

(** ** The catalog functions of [faq_handler.py] *)

Module FAQCatalog.
Import Py FAQHandler ConversationQueries.

(** An element of the list [search_faqs] returns. *)
Record SearchResult := {
  found_id : string;
  found_question : string;
  found_answer : string;
  found_category : string
}.

(** [query.lower() in question.lower()] *)
Definition matches (query question : string) : bool :=
  occurs_in (list_ascii_of_string (lower query))
            (list_ascii_of_string (lower question)).

(** The inner loop with its [break]: the first paraphrase that holds the
    query. *)
Fixpoint first_matching (query : string) (questions : list string)
  : option string :=
  match questions with
  | [] => None
  | question :: questions' =>
      if matches query question then Some question
      else first_matching query questions'
  end.

(** [category and faq_data.get("category") != category]; an omitted
    category is [None]. *)
Definition skipped (category : option string) (faq_data : FAQEntry)
  : bool :=
  match category with
  | None => false
  | Some c =>
      negb (String.eqb c "")
      && negb (String.eqb (FAQHandler.category faq_data) c)
  end.

Fixpoint search_entries (faqs : list (string * FAQEntry)) (query : string)
    (category : option string) (results : list SearchResult)
  : list SearchResult :=
  match faqs with
  | [] => results
  | (faq_id, faq_data) :: faqs' =>
      if skipped category faq_data
      then search_entries faqs' query category results
      else
        match first_matching query (questions faq_data) with
        | Some question =>
            search_entries faqs' query category
              (results ++ [{| found_id := faq_id;
                              found_question := question;
                              found_answer := answer faq_data;
                              found_category :=
                                FAQHandler.category faq_data |}])%list
        | None => search_entries faqs' query category results
        end
  end.

Definition search_faqs (faqs : list (string * FAQEntry)) (query : string)
    (category : option string) : list SearchResult :=
  search_entries faqs query category [].

(** [self.faqs[faq_id] = entry]: a known id keeps its place in the dict,
    a new one goes last. *)
Fixpoint faq_set (faq_id : string) (entry : FAQEntry)
    (faqs : list (string * FAQEntry)) : list (string * FAQEntry) :=
  match faqs with
  | [] => [(faq_id, entry)]
  | (k, v) :: faqs' =>
      if String.eqb k faq_id then (k, entry) :: faqs'
      else (k, v) :: faq_set faq_id entry faqs'
  end.

(** What [add_faq] leaves in [self.faqs]; the category is [general] when
    omitted.  Writing the file changes nothing there, and an error while
    writing is printed. *)
Definition add_faq (faqs : list (string * FAQEntry)) (faq_id : string)
    (questions : list string) (answer : string) (category : option string)
  : list (string * FAQEntry) :=
  faq_set faq_id
    {| questions := questions; answer := answer;
       category := default "general" category |}
    faqs.

End FAQCatalog.

(** ** Services to run the chatbot on *)

Module ChatSample.
Import Py Json EntityExtractor FAQHandler FAQSample IntentClassifier Chatbot.

(** The similarity of a string with itself is 1, as [difflib] has it;
    here any other pair counts as unlike. *)
Definition exact_ratio (a b : string) : Q :=
  if String.eqb a b then 1%Q else 0%Q.

Definition sample_enhanced (user_message : string) (intent : json)
    (entities : list Entity) : string :=
  user_message.

(** A generative model that repeats the last message it is given. *)
Definition echo (messages : list ChatMessage) : result string :=
  match last messages with
  | Some m => Ok (content m)
  | None => Raise (OtherException "no message")
  end.

(** A generative model that is out of reach. *)
Definition unreachable (messages : list ChatMessage) : result string :=
  Raise (OtherException "connection error").

(** The extractor with a model that finds no entity. *)
Definition pattern_entities (text : string) : result (list Entity) :=
  extract_entities (fun _ => Ok []) text.

(** The extractor on an answer of the model that holds a number as the
    value of an entity: [.lower()] raises in [_deduplicate_entities]. *)
Definition numeric_value (text : string) : result (list Entity) :=
  Raise (AttributeError "'float' object has no attribute 'lower'").

Definition sample_classification (descriptions : list (string * string))
    (user_message : string) : result json :=
  Ok (JObj [("intent", JStr "general_inquiry"); ("confidence", JNum (9 # 10))]).

Definition turn (r c : string) : HistoryMessage :=
  {| h_role := Some r; h_content := Some c |}.

Definition six_turns : list HistoryMessage :=
  [turn "user" "hello"; turn "assistant" "hi";
   turn "user" "my order is late"; turn "assistant" "sorry";
   turn "user" "order AB12345"; turn "assistant" "thanks"].

(** A message without its keys. *)
Definition broken_turn : HistoryMessage :=
  {| h_role := None; h_content := None |}.

End ChatSample.

(** * Properties *)

Local Open Scope list_scope.

(** ** The conversation store *)

Module StoreFacts.
Import Py Datetime ConversationManager Session.

Lemma create_conversation_returns st new_id t_created t_activity :
  fst (create_conversation st new_id t_created t_activity) = new_id.
Proof. reflexivity. Qed.

Lemma lookup_foldl_delete {A} (l : list string) (m : gmap string A) k :
  foldl (fun cs i => delete i cs) m l !! k
  = if decide (k ∈ l) then None else m !! k.
Proof.
  revert m. induction l as [|i l IH]; intros m.
  - simpl. destruct (decide (k ∈ [])) as [Hin|_]; [|done].
    by apply elem_of_nil in Hin.
  - change (foldl (fun cs i0 => delete i0 cs) m (i :: l))
      with (foldl (fun cs i0 => delete i0 cs) (delete i m) l).
    rewrite IH. destruct (decide (k = i)) as [->|Hne].
    + rewrite lookup_delete_eq.
      destruct (decide (i ∈ l)) as [H1|H1],
        (decide (i ∈ i :: l)) as [H2|H2]; try done;
        exfalso; rewrite elem_of_cons in H2; tauto.
    + rewrite lookup_delete_ne by done.
      destruct (decide (k ∈ l)) as [H1|H1],
        (decide (k ∈ i :: l)) as [H2|H2]; try done;
        exfalso; rewrite elem_of_cons in H2; tauto.
Qed.

(** A call makes no id known except the one [create_conversation]
    returns. *)
Lemma perform_known st c cid :
  is_Some (conversations (perform st c) !! cid) ->
  is_Some (conversations st !! cid) \/ cid ∈ created [c].
Proof.
  destruct c; simpl; unfold create_conversation, add_message,
    update_context, set_user_info, escalate_conversation,
    resolve_conversation, cleanup_old_conversations, export_conversation,
    add_message; simpl.
  - destruct (decide (new_id = cid)) as [->|Hne].
    + intros _. right. apply list_elem_of_singleton. done.
    + rewrite lookup_insert_ne by done. auto.
  - destruct (conversations st !! cid0) eqn:E; simpl; auto.
    destruct (decide (cid0 = cid)) as [->|Hne].
    + rewrite E. eauto.
    + rewrite lookup_insert_ne by done. auto.
  - destruct (conversations st !! cid0) eqn:E; simpl; auto.
    destruct (decide (cid0 = cid)) as [->|Hne].
    + rewrite E. eauto.
    + rewrite lookup_insert_ne by done. auto.
  - destruct (conversations st !! cid0) eqn:E; simpl; auto.
    destruct (decide (cid0 = cid)) as [->|Hne].
    + rewrite E. eauto.
    + rewrite lookup_insert_ne by done. auto.
  - destruct (conversations st !! cid0) eqn:E; simpl; auto.
    rewrite lookup_insert_eq. simpl.
    destruct (decide (cid0 = cid)) as [->|Hne].
    + rewrite E. eauto.
    + rewrite !lookup_insert_ne by done. auto.
  - destruct (conversations st !! cid0) eqn:E; simpl; auto.
    destruct (decide (cid0 = cid)) as [->|Hne].
    + rewrite E. eauto.
    + rewrite lookup_insert_ne by done. auto.
  - rewrite lookup_foldl_delete. case_decide; auto.
    intros [? ?]; done.
  - destruct (conversations st !! cid0) eqn:E; simpl; auto.
    destruct (isoformat_messages _ _); simpl. auto.
Qed.

Lemma run_snoc calls c : run (calls ++ [c]) = perform (run calls) c.
Proof. unfold run. by rewrite foldl_app. Qed.

Lemma created_snoc calls c :
  created (calls ++ [c]) = created calls ++ created [c].
Proof. unfold created. by rewrite flat_map_app. Qed.

(** Every id the manager knows was returned by [create_conversation]. *)
Lemma known_created calls cid :
  is_Some (conversations (run calls) !! cid) -> cid ∈ created calls.
Proof.
  induction calls as [|c calls IH] using rev_ind.
  - unfold run; simpl. rewrite lookup_empty. intros [? ?]; done.
  - rewrite run_snoc, created_snoc. intros Hk.
    apply elem_of_app. apply perform_known in Hk as [Hk|Hk]; auto.
Qed.

Lemma unknown_not_created calls cid :
  cid ∉ created calls -> conversations (run calls) !! cid = None.
Proof.
  intros Hn. destruct (conversations (run calls) !! cid) eqn:E; [|done].
  exfalso. apply Hn, known_created. rewrite E. eauto.
Qed.

Lemma in_map_fst_filter {A} (f : string * A -> bool) l k :
  k ∈ map fst (List.filter f l) <->
  exists v, (k, v) ∈ l /\ f (k, v) = true.
Proof.
  rewrite list_elem_of_In, in_map_iff. split.
  - intros [[k' v] [Hk Hin]]. simpl in Hk. subst k'.
    apply filter_In in Hin as [Hin Hf].
    exists v. by rewrite list_elem_of_In.
  - intros [v [Hin Hf]]. exists (k, v). split; [done|].
    apply filter_In. by rewrite <- list_elem_of_In.
Qed.

Lemma NoDup_map_fst_filter {A} (f : string * A -> bool) l :
  NoDup (map fst l) -> NoDup (map fst (List.filter f l)).
Proof.
  induction l as [|[k v] l IH]; simpl; [done|].
  rewrite NoDup_cons. intros [Hk Hl].
  destruct (f (k, v)); simpl; [|by apply IH].
  apply NoDup_cons. split; [|by apply IH].
  intros Hin. apply Hk.
  apply in_map_fst_filter in Hin as [w [Hin _]].
  apply list_elem_of_In, in_map_iff. exists (k, w).
  split; [done|]. by apply list_elem_of_In.
Qed.

Lemma size_foldl_delete {A} (l : list string) (m : gmap string A) :
  NoDup l -> (forall k, k ∈ l -> is_Some (m !! k)) ->
  size m = (size (foldl (fun cs i => delete i cs) m l) + length l)%nat.
Proof.
  revert m. induction l as [|i l IH]; intros m Hnd Hin; simpl; [lia|].
  apply NoDup_cons in Hnd as [Hi Hnd].
  assert (Hsome : is_Some (m !! i)) by (apply Hin, elem_of_cons; auto).
  assert (Hpos : size m <> 0%nat).
  { apply map_size_ne_0_lookup. by exists i. }
  pose proof (map_size_delete_Some i m Hsome) as Hdel.
  assert (Hrest : forall k, k ∈ l -> is_Some (delete i m !! k)).
  { intros k Hk. rewrite lookup_delete_ne by (intros ->; done).
    apply Hin, elem_of_cons; auto. }
  pose proof (IH (delete i m) Hnd Hrest) as Hsize. lia.
Qed.

(** What [cleanup_old_conversations] leaves under each id. *)
Lemma cleanup_lookup st current_time cid :
  conversations (snd (cleanup_old_conversations st current_time)) !! cid
  = match conversations st !! cid with
    | Some conv =>
        if current_time - last_activity conv >? max_conversation_age st
        then None else Some conv
    | None => None
    end.
Proof.
  unfold cleanup_old_conversations; simpl.
  rewrite lookup_foldl_delete.
  destruct (decide _) as [Hin|Hin].
  - apply in_map_fst_filter in Hin as [conv [Hin Hf]].
    apply elem_of_map_to_list in Hin. rewrite Hin.
    simpl in Hf. by rewrite Hf.
  - destruct (conversations st !! cid) as [conv|] eqn:E; [|done].
    destruct (_ >? _) eqn:Hf; [|done].
    exfalso. apply Hin, in_map_fst_filter. exists conv.
    split; [by apply elem_of_map_to_list | done].
Qed.

Lemma cleanup_count st current_time :
  size (conversations st)
  = (size (conversations (snd (cleanup_old_conversations st current_time)))
     + fst (cleanup_old_conversations st current_time))%nat.
Proof.
  unfold cleanup_old_conversations; simpl.
  rewrite length_map. rewrite <- (length_map fst).
  apply size_foldl_delete.
  - apply NoDup_map_fst_filter, NoDup_fst_map_to_list.
  - intros k Hk. apply in_map_fst_filter in Hk as [v [Hk _]].
    apply elem_of_map_to_list in Hk. rewrite Hk. eauto.
Qed.

Lemma perform_max_age st c :
  max_conversation_age (perform st c) = max_conversation_age st.
Proof.
  destruct c; simpl; unfold add_message, update_context, set_user_info,
    escalate_conversation, resolve_conversation, export_conversation,
    add_message; simpl; try done;
    destruct (conversations st !! cid); simpl; try done.
  - rewrite lookup_insert_eq. done.
  - destruct (isoformat_messages _ _); done.
Qed.

(** No method writes [max_conversation_age]. *)
Lemma run_max_age calls : max_conversation_age (run calls) = hours 24.
Proof.
  induction calls as [|c calls IH] using rev_ind; [done|].
  by rewrite run_snoc, perform_max_age.
Qed.

End StoreFacts.

Module StoreClaims.
Import Py Datetime ConversationManager Session StoreFacts.

(** C2: for an id that no [create_conversation] call returned, the writing
    operations [add_message], [update_context], [set_user_info],
    [escalate_conversation] and [resolve_conversation] return [False],
    [get_messages] returns the empty list, [get_conversation_summary] and
    [export_conversation] return [None]; none raises and the manager is
    left as it was. *)
Theorem unknown_id_is_answered_falsy (calls : list call) (cid : string) :
  cid ∉ created calls ->
  let st := run calls in
  (forall role content metadata new_id t_message t_activity,
      add_message st cid role content metadata new_id t_message t_activity
      = (false, st))
  /\ (forall context_updates t_activity,
        update_context st cid context_updates t_activity = (false, st))
  /\ (forall info, set_user_info st cid info = (false, st))
  /\ (forall reason t_escalation new_id t_message t_activity,
        escalate_conversation st cid reason t_escalation new_id
          t_message t_activity = (false, st))
  /\ (forall score t_resolved,
        resolve_conversation st cid score t_resolved = (false, st))
  /\ (forall limit, get_messages st cid limit = [])
  /\ get_conversation_summary st cid = Ok None
  /\ export_conversation st cid = (Ok None, st).
Proof.
  intros Hn st. pose proof (unknown_not_created calls cid Hn) as Hu.
  fold st in Hu.
  unfold add_message, update_context, set_user_info, escalate_conversation,
    resolve_conversation, get_messages, get_conversation_summary,
    export_conversation.
  rewrite Hu. repeat split.
Qed.

Lemma unknown_id_is_answered_falsy_witness :
  let calls :=
    [CreateConversation "4f1c" 10 11;
     AddMessage "4f1c" "user" "hello" None "9a2e" 20 21] in
  ("77b0" ∉ created calls)
  /\ get_messages (run calls) "77b0" (Some 3) = []
  /\ add_message (run calls) "77b0" "user" "hi" None "0c3d" 30 31
     = (false, run calls)
  /\ export_conversation (run calls) "77b0" = (Ok None, run calls).
Proof.
  assert (Hn : "77b0" ∉ created
                 [CreateConversation "4f1c" 10 11;
                  AddMessage "4f1c" "user" "hello" None "9a2e" 20 21]).
  { intros Hin. apply list_elem_of_singleton in Hin. discriminate Hin. }
  split; [exact Hn|].
  destruct (unknown_id_is_answered_falsy _ _ Hn)
    as (Hadd & _ & _ & _ & _ & Hget & _ & Hexp).
  split; [apply Hget|]. split; [apply Hadd | apply Hexp].
Defined.

(** C3: [cleanup_old_conversations] removes a conversation exactly when
    [current_time - last_activity] is strictly greater than
    [max_conversation_age], which is 24 hours; the conversations it keeps
    are unchanged, it adds none, and it returns the number it removed.  A
    conversation that [add_message] touched one second before the sweep
    is kept. *)
Theorem cleanup_evicts_exactly_the_expired
    (calls : list call) (current_time : datetime) :
  let st := run calls in
  let count := fst (cleanup_old_conversations st current_time) in
  let st' := snd (cleanup_old_conversations st current_time) in
  max_conversation_age st = hours 24
  /\ (forall cid conv,
        conversations st !! cid = Some conv ->
        (conversations st' !! cid = None
         <-> current_time - last_activity conv > hours 24)
        /\ (conversations st' !! cid = None
            \/ conversations st' !! cid = Some conv))
  /\ (forall cid,
        conversations st !! cid = None -> conversations st' !! cid = None)
  /\ size (conversations st) = (size (conversations st') + count)%nat
  /\ (forall cid role content metadata new_id t_message t_activity,
        is_Some (conversations st !! cid) ->
        let touched :=
          snd (add_message st cid role content metadata new_id
                 t_message t_activity) in
        is_Some
          (conversations
             (snd (cleanup_old_conversations touched
                     (t_activity + seconds 1))) !! cid)).
Proof.
  intros st count st'. pose proof (run_max_age calls) as Hage.
  fold st in Hage. split; [exact Hage|].
  split; [|split; [|split]].
  - intros cid conv Hc. unfold st'. rewrite cleanup_lookup, Hc, Hage.
    destruct (_ >? _) eqn:Hgt.
    + split; [|by left]. split; [intros _|done].
      apply Z.gtb_lt in Hgt. lia.
    + split; [|by right]. split; [done|].
      intros Hlt. apply Z.gt_lt, Z.gtb_lt in Hlt. congruence.
  - intros cid Hc. unfold st'. by rewrite cleanup_lookup, Hc.
  - apply cleanup_count.
  - intros cid role content metadata new_id t_message t_activity [conv Hc].
    intros touched. rewrite cleanup_lookup.
    assert (Hage' : max_conversation_age touched = hours 24).
    { unfold touched, add_message. rewrite Hc. exact Hage. }
    assert (Ht : conversations touched !! cid
                 = Some (touch conv (messages conv ++ [next_object st])
                               t_activity)).
    { unfold touched, add_message. rewrite Hc. simpl.
      apply lookup_insert_eq. }
    rewrite Ht, Hage'. simpl.
    replace (t_activity + seconds 1 - t_activity >? hours 24) with false;
      [eauto|].
    symmetry. rewrite Z.gtb_ltb. apply Z.ltb_ge.
    unfold seconds, hours, microseconds_per_second. lia.
Qed.

Lemma cleanup_evicts_exactly_the_expired_witness :
  let calls :=
    [CreateConversation "4f1c" 0 0;
     CreateConversation "a07d" (hours 30) (hours 30)] in
  fst (cleanup_old_conversations (run calls) (hours 31)) = 1%nat
  /\ conversations (snd (cleanup_old_conversations (run calls) (hours 31)))
       !! "4f1c" = None
  /\ is_Some
       (conversations
          (snd (cleanup_old_conversations
                  (snd (add_message (run calls) "4f1c" "user" "hi" None
                          "9a2e" (hours 31) (hours 31)))
                  (hours 31 + seconds 1))) !! "4f1c").
Proof.
  pose proof (cleanup_evicts_exactly_the_expired
                [CreateConversation "4f1c" 0 0;
                 CreateConversation "a07d" (hours 30) (hours 30)]
                (hours 31)) as (_ & Hiff & _ & _ & Htouch).
  split; [reflexivity|]. split.
  - eapply Hiff; [reflexivity|]. simpl. reflexivity.
  - apply Htouch. eexists. reflexivity.
Defined.

(** C4: a conversation is created at time 0.  [set_user_info] succeeds and
    stores the information, [resolve_conversation] succeeds one hour later
    and records that time in [resolved_at]: after either, [last_activity]
    is still 0, and a sweep 24 hours and one second after the creation
    removes the conversation resolved a second before.  [add_message],
    [update_context] and [escalate_conversation] at the same time do set
    [last_activity]. *)
Theorem set_user_info_and_resolve_leave_last_activity :
  let st := snd (create_conversation init "4f1c" 0 0) in
  let named := set_user_info st "4f1c" {["name" := VStr "Ann"]} in
  let resolved := resolve_conversation st "4f1c" (Some 5) (hours 1) in
  let late := resolve_conversation st "4f1c" None (hours 24) in
  fst named = true
  /\ user_info <$> conversations (snd named) !! "4f1c"
     = Some {["name" := VStr "Ann"]}
  /\ last_activity <$> conversations (snd named) !! "4f1c" = Some 0
  /\ fst resolved = true
  /\ conversations (snd resolved) !! "4f1c" ≫= resolved_at
     = Some (hours 1)
  /\ last_activity <$> conversations (snd resolved) !! "4f1c" = Some 0
  /\ conversations
       (snd (cleanup_old_conversations (snd late) (hours 24 + seconds 1)))
       !! "4f1c" = None
  /\ last_activity <$>
       conversations
         (snd (add_message st "4f1c" "user" "hi" None "9a2e"
                 (hours 1) (hours 1))) !! "4f1c" = Some (hours 1)
  /\ last_activity <$>
       conversations
         (snd (update_context st "4f1c" {["plan" := VStr "pro"]}
                 (hours 1))) !! "4f1c" = Some (hours 1)
  /\ last_activity <$>
       conversations
         (snd (escalate_conversation st "4f1c" None (hours 1) "9a2e"
                 (hours 1) (hours 1))) !! "4f1c" = Some (hours 1).
Proof. vm_compute. repeat split; reflexivity. Qed.

(** Behind C4, for every manager and every known id: [set_user_info] and
    [resolve_conversation] succeed and leave [last_activity] as it was. *)
Lemma set_user_info_keeps_last_activity st cid info conv :
  conversations st !! cid = Some conv ->
  fst (set_user_info st cid info) = true
  /\ last_activity <$> conversations (snd (set_user_info st cid info)) !! cid
     = Some (last_activity conv).
Proof.
  intros Hc. unfold set_user_info. rewrite Hc. simpl.
  by rewrite lookup_insert_eq.
Qed.

Lemma resolve_keeps_last_activity st cid score t conv :
  conversations st !! cid = Some conv ->
  fst (resolve_conversation st cid score t) = true
  /\ last_activity <$>
       conversations (snd (resolve_conversation st cid score t)) !! cid
     = Some (last_activity conv).
Proof.
  intros Hc. unfold resolve_conversation. rewrite Hc. simpl.
  by rewrite lookup_insert_eq.
Qed.

(** The three other writing operations store the clock reading they take
    last. *)
Lemma writers_set_last_activity st cid conv t :
  conversations st !! cid = Some conv ->
  (forall role content metadata new_id t_message,
      last_activity <$>
        conversations
          (snd (add_message st cid role content metadata new_id
                  t_message t)) !! cid = Some t)
  /\ (forall context_updates,
        last_activity <$>
          conversations (snd (update_context st cid context_updates t))
            !! cid = Some t)
  /\ (forall reason t_escalation new_id t_message,
        last_activity <$>
          conversations
            (snd (escalate_conversation st cid reason t_escalation new_id
                    t_message t)) !! cid = Some t).
Proof.
  intros Hc. split; [|split]; intros.
  - unfold add_message. rewrite Hc. simpl. by rewrite lookup_insert_eq.
  - unfold update_context. rewrite Hc. simpl. by rewrite lookup_insert_eq.
  - unfold escalate_conversation, add_message. rewrite Hc. simpl.
    rewrite lookup_insert_eq. simpl. by rewrite lookup_insert_eq.
Qed.

(** C1: a conversation with one message, appended at second 5, is
    exported.  The call returns the record with ISO-8601 strings, and the
    message object of the store now holds the string in place of the
    [datetime]: [get_messages] lists the same object, the summary that was
    computed before the export now raises [TypeError], and a second export
    raises [AttributeError]. *)
Theorem export_conversation_rewrites_stored_timestamps :
  let st0 := snd (create_conversation init "4f1c" 0 0) in
  let st := snd (add_message st0 "4f1c" "user" "hi" None "9a2e"
                   (seconds 5) (seconds 5)) in
  let exported := export_conversation st "4f1c" in
  timestamp <$> objects st !! 0%nat = Some (AsDatetime (seconds 5))
  /\ fst exported
     = Ok (Some
         {| x_conversation_id := "4f1c";
            x_created_at := "1970-01-01T00:00:00";
            x_last_activity := "1970-01-01T00:00:05";
            x_messages := [0%nat];
            x_context := ∅; x_user_info := ∅;
            x_satisfaction_score := None;
            x_escalated := false; x_resolved := false;
            x_escalation_reason := None; x_escalation_time := None;
            x_resolved_at := None |})
  /\ conversations (snd exported) = conversations st
  /\ get_messages (snd exported) "4f1c" None = get_messages st "4f1c" None
  /\ timestamp <$> objects (snd exported) !! 0%nat
     = Some (AsStr "1970-01-01T00:00:05")
  /\ s_duration_seconds <$>
       match get_conversation_summary st "4f1c" with
       | Ok summary => summary
       | Raise _ => None
       end = Some (Some (0 # 1000000))
  /\ get_conversation_summary (snd exported) "4f1c"
     = Raise (TypeError "unsupported operand type(s) for -: 'str' and 'str'")
  /\ fst (export_conversation (snd exported) "4f1c")
     = Raise (AttributeError "'str' object has no attribute 'isoformat'").
Proof. vm_compute. repeat split; reflexivity. Qed.

(** Behind C1, for every manager: the export of a known conversation whose
    first message still holds its [datetime] returns normally only after
    it stored a string in that message. *)
Lemma export_overwrites_first_timestamp st cid conv r rest m t :
  conversations st !! cid = Some conv ->
  messages conv = r :: rest ->
  objects st !! r = Some m ->
  timestamp m = AsDatetime t ->
  r ∉ rest ->
  timestamp <$> objects (snd (export_conversation st cid)) !! r
  = Some (AsStr (isoformat t)).
Proof.
  intros Hc Hm Hr Ht Hnot. unfold export_conversation.
  rewrite Hc, Hm. simpl. rewrite Hr, Ht.
  assert (Hkeep : forall refs h,
             r ∉ refs ->
             snd (isoformat_messages h refs) !! r = h !! r).
  { induction refs as [|x refs IH]; intros h Hx; [done|]. simpl.
    apply not_elem_of_cons in Hx as [Hne Hx].
    destruct (h !! x) as [mx|] eqn:Ex; [|by apply IH].
    destruct (timestamp mx); [|done].
    rewrite IH by done. by rewrite lookup_insert_ne. }
  pose proof (Hkeep rest
                (<[r:=set_timestamp m (AsStr (isoformat t))]> (objects st))
                Hnot) as Hk.
  destruct (isoformat_messages _ rest) as [res h] eqn:E. simpl in *.
  rewrite Hk, lookup_insert_eq. done.
Qed.

(** C7, as stated, fails: with one message stored, a limit of 0 returns
    that message, where the most recent 0 messages are none. *)
Lemma get_messages_limit_zero_returns_all :
  let st0 := snd (create_conversation init "4f1c" 0 0) in
  let st := snd (add_message st0 "4f1c" "user" "hi" None "9a2e" 5 5) in
  get_messages st "4f1c" (Some 0) = [0%nat]
  /\ most_recent 0 [0%nat] = [].
Proof. vm_compute. split; reflexivity. Qed.

(** C7, amended: for a known id, [get_messages] returns all the messages
    when the limit is omitted or 0, and for a positive limit the
    [min limit count] most recent ones, in the order of the conversation;
    for an unknown id it returns the empty list. *)
Theorem get_messages_returns_most_recent (st : Store) (cid : string) :
  match conversations st !! cid with
  | None => forall limit, get_messages st cid limit = []
  | Some conv =>
      get_messages st cid None = messages conv
      /\ get_messages st cid (Some 0) = messages conv
      /\ forall limit,
           0 < limit ->
           get_messages st cid (Some limit)
           = most_recent (Z.to_nat limit) (messages conv)
           /\ length (get_messages st cid (Some limit))
              = Nat.min (Z.to_nat limit) (length (messages conv))
           /\ get_messages st cid (Some limit) `suffix_of` messages conv
           /\ (Z.of_nat (length (messages conv)) <= limit ->
               get_messages st cid (Some limit) = messages conv)
  end.
Proof.
  unfold get_messages. destruct (conversations st !! cid) as [conv|];
    [|done].
  split; [done|]. split; [done|]. intros limit Hpos.
  destruct (limit =? 0) eqn:Hz; [apply Z.eqb_eq in Hz; lia|].
  assert (Heq : slice_from (- limit) (messages conv)
                = most_recent (Z.to_nat limit) (messages conv)).
  { unfold slice_from, most_recent.
    destruct (- limit <? 0) eqn:Hneg; [|apply Z.ltb_ge in Hneg; lia].
    f_equal. lia. }
  rewrite Heq. unfold most_recent. split; [done|].
  split; [rewrite length_drop; lia|].
  split; [apply suffix_drop|].
  intros Hall. replace (length (messages conv) - Z.to_nat limit)%nat
    with 0%nat by lia. done.
Qed.

Lemma get_messages_returns_most_recent_witness :
  let st0 := snd (create_conversation init "4f1c" 0 0) in
  let st1 := snd (add_message st0 "4f1c" "user" "hi" None "9a2e" 5 5) in
  let st := snd (add_message st1 "4f1c" "assistant" "hello" None "0c3d"
                   6 6) in
  0 < 1
  /\ get_messages st "4f1c" (Some 1) = most_recent 1 [0%nat; 1%nat]
  /\ get_messages st "4f1c" (Some 1) = [1%nat].
Proof.
  pose proof (get_messages_returns_most_recent
    (snd (add_message
            (snd (add_message (snd (create_conversation init "4f1c" 0 0))
                    "4f1c" "user" "hi" None "9a2e" 5 5))
            "4f1c" "assistant" "hello" None "0c3d" 6 6)) "4f1c") as H.
  vm_compute in H. destruct H as (_ & _ & H).
  assert (Hpos : 0 < 1) by lia.
  split; [exact Hpos|]. destruct (H 1 Hpos) as (Hrecent & _).
  split; [exact Hrecent | reflexivity].
Defined.

(** A negative limit drops that many of the oldest messages. *)
Lemma get_messages_negative_limit st cid conv limit :
  conversations st !! cid = Some conv ->
  limit < 0 ->
  get_messages st cid (Some limit) = drop (Z.to_nat (- limit)) (messages conv).
Proof.
  intros Hc Hneg. unfold get_messages. rewrite Hc.
  destruct (limit =? 0) eqn:Hz; [apply Z.eqb_eq in Hz; lia|].
  unfold slice_from.
  destruct (- limit <? 0) eqn:Hlt; [apply Z.ltb_lt in Hlt; lia|].
  destruct (Z.min_spec (- limit) (Z.of_nat (length (messages conv))))
    as [[_ ->]|[Hge ->]]; [done|].
  rewrite Nat2Z.id, !drop_ge; [done| lia | lia].
Qed.

End StoreClaims.

(** ** The matcher *)

Module RegexFacts.
Import Py Regex.

Section Through.
Context {R : Type} (n : nat).

(** A loop that succeeds handed a position to the rest of the pattern,
    and a group closed before the loop is closed there. *)
Lemma repeat_loop_through
    (body : mstate -> (mstate -> option R) -> option R) lo hi k :
  (forall st k' res,
      body st k' = Some res ->
      exists st', (is_Some (captures st !! n) ->
                   is_Some (captures st' !! n))
                  /\ k' st' = Some res) ->
  forall fuel count cur res,
    repeat_loop body lo hi k fuel count cur = Some res ->
    exists st', (is_Some (captures cur !! n) ->
                 is_Some (captures st' !! n))
                /\ k st' = Some res.
Proof.
  intros Hbody. induction fuel as [|fuel IH]; intros count cur res; simpl.
  - destruct (lo <=? count)%nat; [|done]. eauto.
  - assert (Hstop : (if (lo <=? count)%nat then k cur else None)
                    = Some res ->
                    exists st', (is_Some (captures cur !! n) ->
                                 is_Some (captures st' !! n))
                                /\ k st' = Some res).
    { destruct (lo <=? count)%nat; [|done]. eauto. }
    destruct (under hi count); [|exact Hstop].
    destruct (body cur _) as [res0|] eqn:E; [|exact Hstop].
    intros [= ->]. apply Hbody in E as (st1 & Hkeep1 & E).
    destruct (pos cur <? pos st1)%nat; [|done].
    apply IH in E as (st2 & Hkeep2 & E). eauto.
Qed.

(** The same for a pattern; after a pattern that always closes group
    [n], the group is closed. *)
Lemma run_through ic r :
  forall st (k : mstate -> option R) res,
    run ic r st k = Some res ->
    exists st', (is_Some (captures st !! n) \/ always_closes n r = true ->
                 is_Some (captures st' !! n))
                /\ k st' = Some res.
Proof.
  induction r as [|x|items| | |r1 IH1 r2 IH2|r1 IH1 r2 IH2
                  |body IH lo hi|i body IH]; intros st k res; simpl.
  - intros Hk. exists st. split; [intros [?|?]; done | done].
  - destruct (rest st) as [|c tl]; [done|].
    destruct (chr_matches ic x c); [|done].
    intros Hk. eexists. split; [|exact Hk]. intros [?|?]; done.
  - destruct (rest st) as [|c tl]; [done|].
    destruct (class_matches ic items c); [|done].
    intros Hk. eexists. split; [|exact Hk]. intros [?|?]; done.
  - destruct (rest st) as [|c tl]; [done|].
    destruct (is_digit c); [|done].
    intros Hk. eexists. split; [|exact Hk]. intros [?|?]; done.
  - destruct (at_boundary st); [|done].
    intros Hk. exists st. split; [intros [?|?]; done | done].
  - intros Hr. apply IH1 in Hr as (st1 & H1 & Hr).
    apply IH2 in Hr as (st2 & H2 & Hr).
    exists st2. split; [|done].
    intros [Hs|Hc]; [by auto|].
    apply orb_true_iff in Hc as [Hc|Hc]; auto.
  - destruct (run ic r1 st k) as [res1|] eqn:E.
    + intros [= ->]. apply IH1 in E as (st1 & H1 & E).
      exists st1. split; [|done]. intros [Hs|Hc]; [by auto|].
      apply andb_true_iff in Hc as [Hc _]. auto.
    + intros Hr. apply IH2 in Hr as (st2 & H2 & Hr).
      exists st2. split; [|done]. intros [Hs|Hc]; [by auto|].
      apply andb_true_iff in Hc as [_ Hc]. auto.
  - intros Hr.
    change (repeat_loop (run ic body) lo hi k (S (length (rest st)))
              0 st = Some res) in Hr.
    eapply repeat_loop_through in Hr as (st1 & H1 & Hr).
    + exists st1. split; [|exact Hr]. intros [?|?]; [auto|done].
    + intros st0 k' res' Hb. apply IH in Hb as (st1 & H1 & Hb).
      exists st1. split; [|done]. auto.
  - intros Hr. apply IH in Hr as (st1 & H1 & Hr).
    eexists. split; [|exact Hr]. simpl.
    destruct (decide (i = n)) as [->|Hne].
    + intros _. rewrite lookup_insert_eq. eauto.
    + rewrite lookup_insert_ne by done. intros [Hs|Hc]; [by auto|].
      apply Nat.eqb_eq in Hc. done.
Qed.

End Through.

Lemma match_at_closes n ic r st fin :
  always_closes n r = true ->
  match_at ic r st = Some fin -> is_Some (captures fin !! n).
Proof.
  intros Hc Hm. unfold match_at in Hm.
  apply (run_through n) in Hm as (st' & Hs & [= ->]). auto.
Qed.

(** Every match of a pattern that always closes group [n] has that
    group. *)
Lemma finditer_from_groups n ic r :
  always_closes n r = true ->
  forall fuel st m,
    m ∈ finditer_from fuel ic r st -> is_Some (m_groups m !! n).
Proof.
  intros Hc. induction fuel as [|fuel IH]; intros st m; simpl.
  - intros Hin. by apply elem_of_nil in Hin.
  - destruct (match_at ic r st) as [fin|] eqn:E.
    + intros Hin. apply elem_of_cons in Hin as [->|Hin].
      * simpl. by eapply match_at_closes.
      * destruct (pos st <? pos fin)%nat; [by eapply IH|].
        destruct (step_over st); [by eapply IH|].
        by apply elem_of_nil in Hin.
    + destruct (step_over st); [by apply IH|].
      intros Hin. by apply elem_of_nil in Hin.
Qed.

Lemma repeat_loop_is_Some {R}
    (body : mstate -> (mstate -> option R) -> option R) lo hi k
    fuel count cur :
  (forall s, is_Some (k s)) -> (lo <= count)%nat ->
  is_Some (repeat_loop body lo hi k fuel count cur).
Proof.
  intros Hk Hlo.
  assert (Hstop : is_Some (if (lo <=? count)%nat then k cur else None)).
  { destruct (Nat.leb_spec lo count); [apply Hk | lia]. }
  destruct fuel; simpl; [done|].
  destruct (under hi count); [|done].
  destruct (body cur _); [eauto | done].
Qed.

(** An optional part never makes a match fail: the rest is tried without
    it. *)
Lemma optional_is_Some {R} ic r st (k : mstate -> option R) :
  (forall s, is_Some (k s)) -> is_Some (run ic (Opt r) st k).
Proof.
  intros Hk.
  change (is_Some (repeat_loop (run ic r) 0 (Some 1%nat) k
                     (S (length (rest st))) 0 st)).
  apply repeat_loop_is_Some; [done | lia].
Qed.

Lemma optional_skipped {R} ic r st (k : mstate -> option R) :
  (forall k' : mstate -> option R, run ic r st k' = None) ->
  run ic (Opt r) st k = k st.
Proof. intros Hnone. simpl. by rewrite Hnone. Qed.

(** [\d+] at a digit succeeds when the rest of the pattern cannot fail. *)
Lemma digits_is_Some {R} ic st c tl (k : mstate -> option R) :
  rest st = c :: tl -> is_digit c = true ->
  (forall s, is_Some (k s)) ->
  is_Some (run ic (Plus Digit) st k).
Proof.
  intros Hrest Hd Hk. simpl. rewrite Hrest, Hd. simpl.
  destruct (Nat.ltb_spec (pos st) (S (pos st))) as [_|Hge]; [|lia].
  destruct (repeat_loop_is_Some (run ic Digit) 1 None k
              (length (rest st)) 1 (advance st c tl) Hk (le_n 1))
    as [res Hres].
  rewrite Hrest in Hres. simpl in Hres. rewrite Hres. eauto.
Qed.

End RegexFacts.

(** ** The entity extractor *)

Module ExtractorFacts.
Import Py Regex EntityExtractor RegexFacts.

Lemma digit_is_not_dollar c :
  is_digit c = true -> chr_matches true "$" c = false.
Proof.
  destruct c as [[] [] [] [] [] [] [] []]; try discriminate; reflexivity.
Qed.

(** The amount pattern matches wherever a digit stands. *)
Lemma amount_matches_at_digit st c tl :
  rest st = c :: tl -> is_digit c = true ->
  is_Some (match_at true amount_pattern st).
Proof.
  intros Hrest Hd. unfold match_at, amount_pattern.
  set (st0 := clear_captures st).
  change (is_Some
            (run true (Opt (Chr "$")) st0
               (fun s1 =>
                  run true (Plus Digit) s1
                    (fun s2 =>
                       run true
                         (Opt (Seq (Chr ".") (Repeat Digit 2 (Some 2%nat))))
                         s2 Some)))).
  rewrite optional_skipped.
  - apply digits_is_Some with c tl; [exact Hrest | exact Hd |].
    intros s. apply optional_is_Some. eauto.
  - intros k'. cbn [run]. change (rest st0) with (rest st).
    rewrite Hrest, digit_is_not_dollar; done.
Qed.

Lemma amount_found fuel st :
  (exists c, c ∈ rest st /\ is_digit c = true) ->
  (length (rest st) < fuel)%nat ->
  exists m ms, finditer_from fuel true amount_pattern st = m :: ms.
Proof.
  revert st. induction fuel as [|fuel IH]; intros st Hdigit Hlen; [lia|].
  cbn [finditer_from].
  destruct (match_at true amount_pattern st) as [fin|] eqn:E; [eauto|].
  destruct Hdigit as (d & Hin & Hd).
  destruct (rest st) as [|c tl] eqn:Hrest; [by apply elem_of_nil in Hin|].
  unfold step_over. rewrite Hrest.
  apply IH; simpl; [|simpl in Hlen; lia].
  apply elem_of_cons in Hin as [->|Hin]; [|eauto].
  pose proof (amount_matches_at_digit st c tl Hrest Hd) as [fin Hfin].
  congruence.
Qed.

Lemma collect_Ok {A B} (f : A -> result B) (l : list A) :
  (forall a, a ∈ l -> exists b, f a = Ok b) ->
  forall acc : list B,
  exists bs : list B,
    collect f l acc = Ok (acc ++ bs)
    /\ forall a, a ∈ l -> exists b, b ∈ bs /\ f a = Ok b.
Proof.
  induction l as [|a l IH]; intros Hok acc; simpl.
  - exists []. rewrite app_nil_r. split; [done|].
    intros a Hin. by apply elem_of_nil in Hin.
  - destruct (Hok a) as [b Hb]; [apply elem_of_cons; auto|].
    rewrite Hb. simpl.
    destruct (IH (fun x Hx => Hok x (proj2 (elem_of_cons l x a) (or_intror Hx)))
                (acc ++ [b])) as (bs & Hc & Hall).
    exists (b :: bs). rewrite Hc, <- app_assoc. split; [done|].
    intros x Hx. apply elem_of_cons in Hx as [->|Hx].
    + exists b. split; [apply elem_of_cons; auto | done].
    + destruct (Hall x Hx) as (y & Hy & Hfy).
      exists y. split; [apply elem_of_cons; auto | done].
Qed.

Lemma entity_of_match_type entity_type pattern text m e :
  entity_of_match entity_type pattern text m = Ok e ->
  type e = entity_type /\ source e = "regex" /\ confidence e = 9 # 10.
Proof.
  unfold entity_of_match. destruct (matched_value _ _ _ _); [|done].
  intros [= <-]. done.
Qed.

Lemma entity_of_match_Ok entity_type pattern text m :
  (uses_group entity_type && has_groups pattern = true ->
   is_Some (m_groups m !! 1%nat)) ->
  exists e, entity_of_match entity_type pattern text m = Ok e.
Proof.
  intros Hg. unfold entity_of_match, matched_value, group.
  destruct (uses_group entity_type); [|eauto].
  destruct (has_groups pattern); [|eauto].
  destruct Hg as [[from to] ->]; [done|]. eauto.
Qed.

(** The two patterns whose group 1 is read always close it. *)
Lemma patterns_close_group entity_type pattern :
  (entity_type, pattern) ∈ patterns ->
  uses_group entity_type && has_groups pattern = true ->
  always_closes 1 pattern = true.
Proof.
  unfold patterns. intros Hin.
  repeat (apply elem_of_cons in Hin as [[= -> ->]|Hin];
          [vm_compute; (done || intros [=]) |]).
  by apply elem_of_nil in Hin.
Qed.

Lemma extract_patterns_Ok text (ps : list (string * regex)) :
  (forall entity_type pattern,
      (entity_type, pattern) ∈ ps ->
      uses_group entity_type && has_groups pattern = true ->
      always_closes 1 pattern = true) ->
  forall acc : list Entity,
  exists found : list Entity,
    extract_patterns ps text acc = Ok (acc ++ found)
    /\ forall entity_type pattern m,
         (entity_type, pattern) ∈ ps ->
         m ∈ finditer true pattern text ->
         exists e, e ∈ found
                   /\ entity_of_match entity_type pattern text m = Ok e.
Proof.
  induction ps as [|[ty pat] ps IH]; intros Hsafe acc.
  - exists []. simpl. rewrite app_nil_r. split; [done|].
    intros ty pat m Hin. by apply elem_of_nil in Hin.
  - cbn [extract_patterns].
    destruct (collect_Ok (entity_of_match ty pat text)
                (finditer true pat text)) with (acc := acc)
      as (bs & Hc & Hbs).
    { intros m Hm. apply entity_of_match_Ok. intros Hg.
      eapply finditer_from_groups; [|exact Hm].
      apply (Hsafe ty pat); [apply elem_of_cons; auto | done]. }
    rewrite Hc. cbn [bind].
    destruct (IH (fun t p Hp => Hsafe t p (proj2 (elem_of_cons ps _ _)
                                                 (or_intror Hp)))
                (acc ++ bs)) as (found & Hf & Hall).
    exists (bs ++ found). rewrite Hf, <- app_assoc. split; [done|].
    intros ty' pat' m Hin Hm.
    apply elem_of_cons in Hin as [[= -> ->]|Hin].
    + destruct (Hbs m Hm) as (e & He & Hfe).
      exists e. split; [apply elem_of_app; auto | done].
    + destruct (Hall ty' pat' m Hin Hm) as (e & He & Hfe).
      exists e. split; [apply elem_of_app; auto | done].
Qed.

(** The pattern stage never raises, and every match of every pattern is
    among its entities. *)
Lemma _extract_with_regex_Ok text :
  exists entities,
    _extract_with_regex text = Ok entities
    /\ forall entity_type pattern m,
         (entity_type, pattern) ∈ patterns ->
         m ∈ finditer true pattern (list_ascii_of_string text) ->
         exists e, e ∈ entities
                   /\ entity_of_match entity_type pattern
                        (list_ascii_of_string text) m = Ok e.
Proof.
  unfold _extract_with_regex.
  destruct (extract_patterns_Ok (list_ascii_of_string text) patterns
              patterns_close_group []) as (found & Hf & Hall).
  exists found. split; [exact Hf | exact Hall].
Qed.

(** *** The dict of [_deduplicate_entities] *)

Lemma Qgtb_irrefl a : Qgtb a a = false.
Proof. apply negb_false_iff, Qle_bool_iff, Qle_refl. Qed.

Lemma Qgtb_trans a b c :
  Qgtb a b = true -> Qgtb b c = true -> Qgtb a c = true.
Proof.
  unfold Qgtb. intros Hab Hbc. apply negb_true_iff in Hab, Hbc.
  apply negb_true_iff. destruct (Qle_bool a c) eqn:Hac; [|reflexivity].
  apply Qle_bool_iff in Hac.
  destruct (Qlt_le_dec c b) as [Hlt|Hle].
  - assert (Hba : Qle_bool a b = true); [|congruence].
    apply Qle_bool_iff, Qle_trans with c; [exact Hac|].
    apply Qlt_le_weak, Hlt.
  - apply Qle_bool_iff in Hle. congruence.
Qed.

Lemma string_eqb_false (k k' : string) : k <> k' -> String.eqb k k' = false.
Proof. intros Hne. by apply String.eqb_neq. Qed.

Lemma dict_get_set_eq key e d : dict_get key (dict_set key e d) = Some e.
Proof.
  induction d as [|[k v] d IH]; simpl.
  - by rewrite String.eqb_refl.
  - destruct (String.eqb k key) eqn:E; simpl; rewrite E; [done | exact IH].
Qed.

Lemma dict_get_set_ne key key' e d :
  key <> key' -> dict_get key' (dict_set key e d) = dict_get key' d.
Proof.
  intros Hne. induction d as [|[k v] d IH]; simpl.
  - by rewrite string_eqb_false.
  - destruct (String.eqb k key) eqn:E; simpl.
    + apply String.eqb_eq in E as ->. by rewrite string_eqb_false.
    + by rewrite IH.
Qed.

Lemma dict_get_None key d : dict_get key d = None <-> key ∉ map fst d.
Proof.
  induction d as [|[k v] d IH]; simpl.
  - split; [intros _ Hin; by apply elem_of_nil in Hin | done].
  - rewrite not_elem_of_cons. destruct (String.eqb k key) eqn:E.
    + apply String.eqb_eq in E as ->. split; [done | intros [? _]; done].
    + apply String.eqb_neq in E. rewrite IH. split; [by auto | by intros [_ ?]].
Qed.

Lemma dict_get_elem key v d : dict_get key d = Some v -> (key, v) ∈ d.
Proof.
  induction d as [|[k w] d IH]; simpl; [done|].
  destruct (String.eqb k key) eqn:E.
  - apply String.eqb_eq in E as ->. intros [= ->]. apply list_elem_of_here.
  - intros Hg. apply list_elem_of_further, IH, Hg.
Qed.

Lemma dict_elem_get key v d :
  NoDup (map fst d) -> (key, v) ∈ d -> dict_get key d = Some v.
Proof.
  induction d as [|[k w] d IH]; simpl; intros Hnd Hin.
  - by apply elem_of_nil in Hin.
  - apply NoDup_cons in Hnd as [Hk Hnd].
    apply elem_of_cons in Hin as [[= -> ->]|Hin].
    + by rewrite String.eqb_refl.
    + destruct (String.eqb k key) eqn:E; [|by apply IH].
      apply String.eqb_eq in E as ->. exfalso. apply Hk.
      apply list_elem_of_In, in_map_iff. exists (key, v).
      split; [done | by apply list_elem_of_In].
Qed.

Lemma dict_set_keys key e d :
  map fst (dict_set key e d)
  = match dict_get key d with
    | Some _ => map fst d
    | None => map fst d ++ [key]
    end.
Proof.
  induction d as [|[k v] d IH]; simpl; [done|].
  destruct (String.eqb k key) eqn:E; simpl; [done|].
  rewrite IH. by destruct (dict_get key d).
Qed.

(** What the dict holds after the entities [seen]: under each key the
    entity it was computed from, which is one of [seen] and which no entity
    of [seen] with that key exceeds in confidence. *)
Lemma dedup_step_invariant seen d entity :
  NoDup (map fst d) ->
  (forall key o, dict_get key d = Some o -> dedup_key o = key /\ o ∈ seen) ->
  (forall e, e ∈ seen ->
             exists o, dict_get (dedup_key e) d = Some o
                       /\ Qgtb (confidence e) (confidence o) = false) ->
  let d' := dedup_step d entity in
  NoDup (map fst d')
  /\ (forall key o, dict_get key d' = Some o ->
                    dedup_key o = key /\ o ∈ seen ++ [entity])
  /\ (forall e, e ∈ seen ++ [entity] ->
                exists o, dict_get (dedup_key e) d' = Some o
                          /\ Qgtb (confidence e) (confidence o) = false).
Proof.
  intros Hnd Hown Hbest d'. unfold d', dedup_step.
  destruct (dict_get (dedup_key entity) d) as [kept|] eqn:Hget.
  - destruct (Qgtb (confidence entity) (confidence kept)) eqn:Hgt.
    + split; [by rewrite dict_set_keys, Hget|]. split.
      * intros key o.
        destruct (decide (dedup_key entity = key)) as [<-|Hne].
        -- rewrite dict_get_set_eq. intros [= <-].
           split; [done|]. apply elem_of_app. right. apply list_elem_of_here.
        -- rewrite dict_get_set_ne by done. intros Ho.
           destruct (Hown _ _ Ho). split; [done|]. apply elem_of_app. auto.
      * intros e He.
        destruct (decide (dedup_key entity = dedup_key e)) as [Heq|Hne].
        -- rewrite <- Heq, dict_get_set_eq. exists entity. split; [done|].
           apply elem_of_app in He as [He|He].
           ++ destruct (Hbest e He) as (o & Ho & Hle).
              rewrite <- Heq, Hget in Ho. injection Ho as <-.
              destruct (Qgtb (confidence e) (confidence entity)) eqn:E;
                [|done].
              pose proof (Qgtb_trans _ _ _ E Hgt). congruence.
           ++ apply list_elem_of_singleton in He as ->. apply Qgtb_irrefl.
        -- rewrite dict_get_set_ne by done.
           apply elem_of_app in He as [He|He]; [by apply Hbest|].
           apply list_elem_of_singleton in He as ->. done.
    + split; [done|]. split.
      * intros key o Ho. destruct (Hown _ _ Ho).
        split; [done|]. apply elem_of_app. auto.
      * intros e He. apply elem_of_app in He as [He|He]; [by apply Hbest|].
        apply list_elem_of_singleton in He as ->. eauto.
  - split; [|split].
    + rewrite dict_set_keys, Hget. apply NoDup_app. split; [done|].
      split; [|apply NoDup_singleton].
      intros k Hk Hin. apply list_elem_of_singleton in Hin as ->.
      by apply dict_get_None in Hget.
    + intros key o.
      destruct (decide (dedup_key entity = key)) as [<-|Hne].
      * rewrite dict_get_set_eq. intros [= <-].
        split; [done|]. apply elem_of_app. right. apply list_elem_of_here.
      * rewrite dict_get_set_ne by done. intros Ho.
        destruct (Hown _ _ Ho). split; [done|]. apply elem_of_app. auto.
    + intros e He.
      destruct (decide (dedup_key entity = dedup_key e)) as [Heq|Hne].
      * rewrite <- Heq, dict_get_set_eq. exists entity. split; [done|].
        apply elem_of_app in He as [He|He].
        -- destruct (Hbest e He) as (o & Ho & _). congruence.
        -- apply list_elem_of_singleton in He as ->. apply Qgtb_irrefl.
      * rewrite dict_get_set_ne by done.
        apply elem_of_app in He as [He|He]; [by apply Hbest|].
        apply list_elem_of_singleton in He as ->. done.
Qed.

Lemma dedup_invariant entities :
  let d := foldl dedup_step [] entities in
  NoDup (map fst d)
  /\ (forall key o, dict_get key d = Some o ->
                    dedup_key o = key /\ o ∈ entities)
  /\ (forall e, e ∈ entities ->
                exists o, dict_get (dedup_key e) d = Some o
                          /\ Qgtb (confidence e) (confidence o) = false).
Proof.
  induction entities as [|entity entities IH] using rev_ind.
  - simpl. split; [apply NoDup_nil_2|]. split; [done|].
    intros e He. by apply elem_of_nil in He.
  - rewrite foldl_app. simpl. destruct IH as (Hnd & Hown & Hbest).
    by apply dedup_step_invariant.
Qed.

End ExtractorFacts.

Module ExtractorClaims.
Import Py Regex EntityExtractor RegexFacts ExtractorFacts.

(** C5: a pattern entity of type [product_id] and value [5] and a model
    entity of type [product] and value [id_5] differ in type and in
    lowercased value, yet both get the key [product_id_5]:
    [_deduplicate_entities] keeps the first and drops the second. *)
Theorem deduplicate_merges_distinct_identities :
  let a := {| type := "product_id"; value := "5"; start := Some 8%nat;
              end_ := Some 9%nat; confidence := 9 # 10;
              source := "regex" |} in
  let b := {| type := "product"; value := "id_5"; start := None;
              end_ := None; confidence := 8 # 10; source := "ai" |} in
  String.eqb (type a) (type b) = false
  /\ String.eqb (lower (value a)) (lower (value b)) = false
  /\ dedup_key a = "product_id_5"
  /\ dedup_key b = "product_id_5"
  /\ _deduplicate_entities [a; b] = [a].
Proof. vm_compute. repeat split; reflexivity. Qed.

(** The example of C5: two [order_number] entities whose values are case
    variants of [ABC123], with confidences 0.6 and 0.9, leave the one of
    confidence 0.9; on a tie the earlier one stays. *)
Example deduplicate_case_variants :
  let low := {| type := "order_number"; value := "ABC123"; start := None;
                end_ := None; confidence := 6 # 10; source := "ai" |} in
  let high := {| type := "order_number"; value := "abc123";
                 start := Some 7%nat; end_ := Some 13%nat;
                 confidence := 9 # 10; source := "regex" |} in
  let tie := {| type := "order_number"; value := "Abc123"; start := None;
                end_ := None; confidence := 9 # 10; source := "ai" |} in
  _deduplicate_entities [low; high] = [high]
  /\ _deduplicate_entities [high; low] = [high]
  /\ _deduplicate_entities [high; tie] = [high].
Proof. vm_compute. repeat split; reflexivity. Qed.

(** Behind C5, for every list of entities: the output holds one entity for
    each key string of the input, taken from the input, and no input entity
    with that key has a strictly higher confidence. *)
Lemma deduplicate_keeps_a_best_of_each_key (entities : list Entity) :
  let unique := _deduplicate_entities entities in
  NoDup (map dedup_key unique)
  /\ (forall o, o ∈ unique -> o ∈ entities)
  /\ (forall e, e ∈ entities ->
                exists o, o ∈ unique
                          /\ dedup_key o = dedup_key e
                          /\ Qgtb (confidence e) (confidence o) = false).
Proof.
  intros unique. unfold unique, _deduplicate_entities.
  destruct (dedup_invariant entities) as (Hnd & Hown & Hbest).
  set (d := foldl dedup_step [] entities) in *.
  assert (Hpair : forall k o, (k, o) ∈ d -> dedup_key o = k /\ o ∈ entities).
  { intros k o Hin. apply Hown. by apply dict_elem_get. }
  split; [|split].
  - replace (map dedup_key (map snd d)) with (map fst d); [done|].
    rewrite map_map. apply map_ext_in. intros [k o] Hin. simpl.
    symmetry. apply Hpair. by apply list_elem_of_In.
  - intros o Ho. apply list_elem_of_In, in_map_iff in Ho as ([k o'] & <- & Hin).
    apply (Hpair k o'). by apply list_elem_of_In.
  - intros e He. destruct (Hbest e He) as (o & Ho & Hle).
    exists o. split; [|split; [|done]].
    + apply list_elem_of_In, in_map_iff. exists (dedup_key e, o).
      split; [done|]. by apply list_elem_of_In, dict_get_elem.
    + by apply Hown in Ho as [? _].
Qed.

(** C8: when the model stage raises an error, [extract_entities] returns
    normally, and what it returns is the deduplicated output of the
    pattern stage, which itself never raises. *)
Theorem extract_entities_survives_model_error
    (completion : string -> result (list RawEntity)) (text : string)
    (e : exn) :
  _extract_with_ai completion text = Raise e ->
  is_Exception e = true ->
  exists regex_entities,
    _extract_with_regex text = Ok regex_entities
    /\ extract_entities completion text
       = Ok (_deduplicate_entities regex_entities).
Proof.
  intros Hai He. destruct (_extract_with_regex_Ok text) as (ents & Hr & _).
  exists ents. split; [exact Hr|].
  unfold extract_entities. rewrite Hr. cbn [bind]. by rewrite Hai, He.
Qed.

Lemma extract_entities_survives_model_error_witness :
  let completion :=
    fun _ : string => @Raise (list RawEntity) (OtherException "timed out") in
  _extract_with_ai completion "order #ABC1234" = Raise (OtherException "timed out")
  /\ is_Exception (OtherException "timed out") = true
  /\ extract_entities completion "order #ABC1234"
     = Ok [ {| type := "order_number"; value := "ABC1234";
               start := Some 0%nat; end_ := Some 14%nat;
               confidence := 9 # 10; source := "regex" |};
            {| type := "amount"; value := "1234";
               start := Some 10%nat; end_ := Some 14%nat;
               confidence := 9 # 10; source := "regex" |} ].
Proof.
  intros completion.
  assert (Hai : _extract_with_ai completion "order #ABC1234"
                = Raise (OtherException "timed out")) by reflexivity.
  assert (He : is_Exception (OtherException "timed out") = true)
    by reflexivity.
  split; [exact Hai|]. split; [exact He|].
  destruct (extract_entities_survives_model_error completion
              "order #ABC1234" _ Hai He) as (ents & Hr & Hx).
  rewrite Hx. vm_compute in Hr. injection Hr as <-.
  vm_compute. reflexivity.
Defined.

(** An answer of the model that leaves out a key, or anything else that
    raises an [Exception] on the way, ends the same; an interrupt goes
    through. *)
Example extract_entities_key_error_and_interrupt :
  let broken :=
    fun _ : string =>
      Ok [ {| raw_type := Some "name"; raw_value := None;
              raw_confidence := None |} ] in
  let interrupted :=
    fun _ : string => @Raise (list RawEntity) KeyboardInterrupt in
  _extract_with_ai broken "sku A12" = Raise (KeyError "value")
  /\ extract_entities broken "sku A12"
     = Ok (_deduplicate_entities
             [ {| type := "product_id"; value := "A12";
                  start := Some 0%nat; end_ := Some 7%nat;
                  confidence := 9 # 10; source := "regex" |};
               {| type := "amount"; value := "12";
                  start := Some 5%nat; end_ := Some 7%nat;
                  confidence := 9 # 10; source := "regex" |} ])
  /\ extract_entities interrupted "sku A12" = Raise KeyboardInterrupt.
Proof. vm_compute. repeat split; reflexivity. Qed.

(** C10: for a text with at least one decimal digit, the pattern stage
    returns at least one entity of type [amount]; neither a currency sign
    nor anything else around the digits is asked for. *)
Theorem digits_yield_an_amount (text : string) :
  (exists c, c ∈ list_ascii_of_string text /\ is_digit c = true) ->
  exists entities e,
    _extract_with_regex text = Ok entities
    /\ e ∈ entities
    /\ type e = "amount"
    /\ source e = "regex".
Proof.
  intros Hdigit.
  destruct (_extract_with_regex_Ok text) as (entities & Hr & Hall).
  destruct (amount_found (S (length (list_ascii_of_string text)))
              (start_state (list_ascii_of_string text)) Hdigit)
    as (m & ms & Hm); [simpl; lia|].
  destruct (Hall "amount" amount_pattern m) as (e & He & Hfe).
  - unfold patterns. do 4 apply list_elem_of_further.
    apply list_elem_of_here.
  - unfold finditer. rewrite Hm. apply list_elem_of_here.
  - apply entity_of_match_type in Hfe as (Ht & Hs & _).
    exists entities, e. done.
Qed.

Lemma digits_yield_an_amount_witness :
  (exists c, c ∈ list_ascii_of_string "call 555-123-4567"
             /\ is_digit c = true)
  /\ exists entities e,
       _extract_with_regex "call 555-123-4567" = Ok entities
       /\ e ∈ entities /\ type e = "amount" /\ source e = "regex".
Proof.
  assert (Hd : exists c, c ∈ list_ascii_of_string "call 555-123-4567"
                         /\ is_digit c = true).
  { exists "5"%char. split; [|reflexivity].
    simpl. do 5 apply list_elem_of_further. apply list_elem_of_here. }
  split; [exact Hd|]. exact (digits_yield_an_amount _ Hd).
Defined.

(** A phone number, a date and an order number each yield amounts. *)
Example digits_of_other_entities_are_amounts :
  match _extract_with_regex "order #ABC1234, 12/05/2024, 555-123-4567" with
  | Ok entities =>
      map value (List.filter (fun e => String.eqb (type e) "amount")
                             entities)
  | Raise _ => []
  end = ["1234"; "12"; "05"; "2024"; "555"; "123"; "4567"].
Proof. vm_compute. reflexivity. Qed.

End ExtractorClaims.

(** ** The FAQ matcher *)

Module FAQFacts.
Import Py FAQHandler.

Section Selection.
Context `{FloatOps}.

Lemma at_threshold_is_positive s :
  geb s f0_6 = true -> gtb s (of_int 0) = true.
Proof.
  rewrite geb_gtb. intros Hge. apply negb_true_iff in Hge.
  destruct (gtb_cotrans _ s _ f0_6_positive) as [Hc|Hc]; congruence.
Qed.

Lemma below_threshold_is_lower s t :
  geb s f0_6 = false -> geb t f0_6 = true ->
  gtb t s = true /\ gtb s t = false.
Proof.
  rewrite !geb_gtb. intros Hs Ht.
  apply negb_false_iff in Hs. apply negb_true_iff in Ht.
  destruct (gtb_cotrans _ t _ Hs) as [Hc|Hc]; [congruence|].
  split; [done|]. destruct (gtb s t) eqn:E; [|done].
  pose proof (gtb_trans _ _ _ Hs E). congruence.
Qed.

Lemma keep_best_selected l best entry score :
  selected l best ->
  selected (l ++ [(entry, score)]) (keep_best best entry score).
Proof.
  unfold selected, keep_best, similarity_threshold.
  destruct best as [[kept|] b]; simpl.
  - intros (i & Hi & Hge & Hmax & Hfirst).
    assert (Hlt : (i < length l)%nat) by (by eapply lookup_lt_Some).
    destruct (gtb score b) eqn:Hgt; simpl;
      [destruct (geb score f0_6) eqn:Hs; simpl|].
    + exists (length l). split; [|split; [done|split]].
      * rewrite lookup_app_r, Nat.sub_diag by lia. done.
      * intros j e s Hj. destruct (decide (j < length l)%nat) as [Hjl|Hjl].
        -- rewrite lookup_app_l in Hj by done.
           destruct (gtb s score) eqn:E; [|done].
           pose proof (gtb_trans _ _ _ E Hgt) as Hc.
           rewrite (Hmax _ _ _ Hj) in Hc. done.
        -- rewrite lookup_app_r in Hj by lia.
           destruct (j - length l)%nat; simpl in Hj; [|done].
           injection Hj as <- <-. apply gtb_irrefl.
      * intros j e s Hjl Hj. rewrite lookup_app_l in Hj by done.
        destruct (gtb_cotrans _ s _ Hgt) as [Hc|Hc]; [done|].
        rewrite (Hmax _ _ _ Hj) in Hc. done.
    + exists i. split; [by rewrite lookup_app_l|]. split; [done|]. split.
      * intros j e s Hj. destruct (decide (j < length l)%nat) as [Hjl|Hjl].
        -- rewrite lookup_app_l in Hj by done. eauto.
        -- rewrite lookup_app_r in Hj by lia.
           destruct (j - length l)%nat; simpl in Hj; [|done].
           injection Hj as <- <-.
           by destruct (below_threshold_is_lower _ _ Hs Hge).
      * intros j e s Hji Hj. rewrite lookup_app_l in Hj by lia. eauto.
    + exists i. split; [by rewrite lookup_app_l|]. split; [done|]. split.
      * intros j e s Hj. destruct (decide (j < length l)%nat) as [Hjl|Hjl].
        -- rewrite lookup_app_l in Hj by done. eauto.
        -- rewrite lookup_app_r in Hj by lia.
           destruct (j - length l)%nat; simpl in Hj; [|done].
           by injection Hj as <- <-.
      * intros j e s Hji Hj. rewrite lookup_app_l in Hj by lia. eauto.
  - intros (-> & Hall).
    destruct (geb score f0_6) eqn:Hs.
    + rewrite (at_threshold_is_positive _ Hs). simpl.
      exists (length l). split; [|split; [done|split]].
      * rewrite lookup_app_r, Nat.sub_diag by lia. done.
      * intros j e s Hj. destruct (decide (j < length l)%nat) as [Hjl|Hjl].
        -- rewrite lookup_app_l in Hj by done.
           by destruct (below_threshold_is_lower _ _ (Hall _ _ _ Hj) Hs).
        -- rewrite lookup_app_r in Hj by lia.
           destruct (j - length l)%nat; simpl in Hj; [|done].
           injection Hj as <- <-. apply gtb_irrefl.
      * intros j e s Hjl Hj. rewrite lookup_app_l in Hj by done.
        by destruct (below_threshold_is_lower _ _ (Hall _ _ _ Hj) Hs).
    + rewrite andb_false_r. simpl. split; [done|].
      intros j e s Hj. destruct (decide (j < length l)%nat) as [Hjl|Hjl].
      * rewrite lookup_app_l in Hj by done. eauto.
      * rewrite lookup_app_r in Hj by lia.
        destruct (j - length l)%nat; simpl in Hj; [|done].
        by injection Hj as <- <-.
Qed.

Lemma foldl_keep_best_selected l :
  selected l
    (foldl (fun best c => keep_best best (fst c) (snd c))
           (None, of_int 0) l).
Proof.
  induction l as [|[entry score] l IH] using rev_ind.
  - simpl. split; [done|]. intros j e s Hj. done.
  - rewrite foldl_app. simpl. by apply keep_best_selected.
Qed.

Variable ratio : string -> string -> float.

(** The two nested loops are one loop over the candidates. *)
Lemma loops_flatten faqs user_message best :
  foldl
    (fun best item =>
       foldl (consider ratio (lower user_message) (snd item)) best
             (questions (snd item)))
    best faqs
  = foldl (fun best c => keep_best best (fst c) (snd c)) best
          (scored ratio faqs user_message).
Proof.
  revert best. induction faqs as [|[faq_id faq_data] faqs IH];
    intros best; [done|].
  unfold scored. cbn [foldl flat_map]. rewrite foldl_app.
  fold (scored ratio faqs user_message). rewrite <- IH. f_equal.
  simpl. generalize (questions faq_data) best.
  induction l as [|q l IHl]; intros b; [done|]. simpl. apply IHl.
Qed.

End Selection.

End FAQFacts.

(** ** Rounding *)

Module FloatFacts.
Import Float64.

(** The rounding of a rational depends on its value only. *)
Lemma round_Qeq q q' : (q == q')%Q -> round q = round q'.
Proof. intros H. unfold round. by rewrite (Qred_complete _ _ H). Qed.

Lemma nearest_even_le n d K :
  0 < d -> n <= K * d -> nearest_even n d <= K.
Proof.
  intros Hd Hn. unfold nearest_even.
  pose proof (Z.div_mod n d) as Hdm.
  pose proof (Z.mod_pos_bound n d Hd) as Hr.
  assert (Hm : n / d <= K) by nia.
  destruct (Z.compare_spec (2 * (n mod d)) d) as [He|Hl|Hg]; [|done|nia].
  destruct (Z.even (n / d)); [done | nia].
Qed.

Lemma nearest_even_ge n d K :
  0 < d -> K * d <= n -> K <= nearest_even n d.
Proof.
  intros Hd Hn. unfold nearest_even.
  pose proof (Z.div_mod n d) as Hdm.
  pose proof (Z.mod_pos_bound n d Hd) as Hr.
  assert (Hm : K <= n / d) by nia.
  destruct (Z.compare_spec (2 * (n mod d)) d) as [He|Hl|Hg]; [|done|lia].
  destruct (Z.even (n / d)); lia.
Qed.

Lemma exponent_le_0 n d : 0 < n -> n <= d -> exponent n d <= 0.
Proof.
  intros Hn Hd. unfold exponent.
  assert (Z.log2 n <= Z.log2 d) by (by apply Z.log2_le_mono).
  destruct (if 0 <=? _ then _ else _); lia.
Qed.

Lemma exponent_lt_0 n d : 0 < n -> n < d -> exponent n d <= -1.
Proof.
  intros Hn Hd. unfold exponent.
  assert (Hlog : Z.log2 n <= Z.log2 d) by (apply Z.log2_le_mono; lia).
  destruct (Z.leb_spec 0 (Z.log2 n - Z.log2 d)) as [H0|H0].
  - replace (Z.log2 n - Z.log2 d) with 0 by lia.
    destruct (Z.leb_spec (d * 2 ^ 0) n) as [Hle|_]; [|lia].
    rewrite Z.pow_0_r in Hle. lia.
  - destruct (_ <=? _); lia.
Qed.

(** What [nearest_double] returns up to 1: a number of units of
    [2^-k]. *)
Lemma nearest_double_small n d :
  0 < n -> n <= d ->
  exists k,
    0 < k
    /\ (exponent n d <= -1 -> 53 <= k)
    /\ (nearest_double n d
        == inject_Z (nearest_even (n * 2 ^ k) d) / inject_Z (2 ^ k))%Q.
Proof.
  intros Hn Hd. unfold nearest_double.
  pose proof (exponent_le_0 n d Hn Hd) as He.
  set (unit := Z.max (exponent n d - 52) (-1074)).
  assert (Hu : unit < 0) by lia.
  destruct (Z.leb_spec 0 unit) as [|_]; [lia|].
  exists (- unit). split; [lia|]. split; [lia|].
  rewrite Qred_correct. rewrite Qmake_Qdiv.
  rewrite Z2Pos.id by (apply Z.pow_pos_nonneg; lia). reflexivity.
Qed.

Lemma Qdiv_le_1 a b : 0 < b -> a <= b -> (inject_Z a / inject_Z b <= 1)%Q.
Proof.
  intros Hb Hab. apply Qle_shift_div_r.
  - rewrite <- (Zlt_Qlt 0). done.
  - rewrite Qmult_1_l, <- Zle_Qle. done.
Qed.

Lemma Qdiv_lt_1 a b : 0 < b -> a < b -> (inject_Z a / inject_Z b < 1)%Q.
Proof.
  intros Hb Hab. apply Qlt_shift_div_r.
  - rewrite <- (Zlt_Qlt 0). done.
  - rewrite Qmult_1_l, <- Zlt_Qlt. done.
Qed.

Lemma Qdiv_ge_0 a b : 0 < b -> 0 <= a -> (0 <= inject_Z a / inject_Z b)%Q.
Proof.
  intros Hb Ha. apply Qle_shift_div_l.
  - rewrite <- (Zlt_Qlt 0). done.
  - rewrite Qmult_0_l, <- (Zle_Qle 0). done.
Qed.

(** The reduced form of a fraction between 0 and 1. *)
Lemma Qred_fraction (n m : Z) :
  0 < n <= m ->
  exists a b : positive,
    Qred (inject_Z n / inject_Z m) = Qmake (Z.pos a) b
    /\ Z.pos a * m = n * Z.pos b
    /\ Z.pos b <= m.
Proof.
  intros Hn.
  assert (Heq : (inject_Z n / inject_Z m == Qmake n (Z.to_pos m))%Q).
  { rewrite Qmake_Qdiv, Z2Pos.id by lia. reflexivity. }
  rewrite (Qred_complete _ _ Heq).
  pose proof (Qred_correct (Qmake n (Z.to_pos m))) as Hred.
  pose proof (gcd_Qred (Qmake n (Z.to_pos m))) as Hgcd.
  destruct (Qred (n # Z.to_pos m)) as [a b].
  unfold Qeq in Hred. simpl in Hred, Hgcd.
  rewrite Z2Pos.id in Hred by lia.
  destruct a as [|a|a]; [nia| |nia].
  exists a, b. split; [done|]. split; [done|].
  apply Z.divide_pos_le; [lia|].
  apply Z.gauss with (Z.pos a).
  - exists n. lia.
  - by rewrite Z.gcd_comm.
Qed.

(** The quotient of two counts, rounded: between 0 and 1 when the first
    is at most the second, 1 when they are equal, and below 1 when they
    are not, as long as they are not beyond [2^53]. *)
Lemma round_fraction (n m : Z) :
  0 <= n <= m -> 0 < m ->
  (0 <= round (inject_Z n / inject_Z m) <= 1)%Q
  /\ (n = m -> round (inject_Z n / inject_Z m) = 1%Q)
  /\ (n < m -> m <= 2 ^ 53 -> (round (inject_Z n / inject_Z m) < 1)%Q).
Proof.
  intros Hn Hm.
  assert (Hone : n = m -> round (inject_Z n / inject_Z m) = 1%Q).
  { intros ->. rewrite (round_Qeq _ 1); [by vm_compute|].
    unfold Qdiv. apply Qmult_inv_r. unfold Qeq. simpl. lia. }
  destruct (decide (n = 0)) as [->|Hn0].
  { rewrite (round_Qeq _ 0) by (unfold Qdiv; by rewrite Qmult_0_l).
    split; [done|]. split; [lia | done]. }
  destruct (Qred_fraction n m) as (a & b & Hred & Hab & Hbm); [lia|].
  split; [|split; [done|]]; unfold round; rewrite Hred; cbn [Qnum Qden].
  all: assert (Hle : Z.pos a <= Z.pos b) by nia.
  all: destruct (nearest_double_small (Z.pos a) (Z.pos b))
         as (k & Hk & Hk53 & Hval); [done | done|].
  all: assert (Hpow : 0 < 2 ^ k) by (apply Z.pow_pos_nonneg; lia).
  - rewrite Hval. split.
    + apply Qdiv_ge_0; [done|]. apply nearest_even_ge; [done | nia].
    + apply Qdiv_le_1; [done|]. apply nearest_even_le; [done | nia].
  - intros Hlt Hbig. rewrite Hval.
    assert (Hablt : Z.pos a < Z.pos b) by nia.
    specialize (Hk53 (exponent_lt_0 _ _ (Pos2Z.is_pos a) Hablt)).
    apply Qdiv_lt_1; [done|].
    assert (Hb : Z.pos b <= 2 ^ 53) by lia.
    assert (H53 : 2 ^ 53 <= 2 ^ k) by (apply Z.pow_le_mono_r; lia).
    assert (nearest_even (Z.pos a * 2 ^ k) (Z.pos b) <= 2 ^ k - 1); [|lia].
    apply nearest_even_le; [done|]. nia.
Qed.

End FloatFacts.

(** ** The words of a string *)

Module WordFacts.
Import Py FAQHandler.

Lemma last_snoc_space (pre : list ascii) c rest :
  is_space c = true ->
  (forall x, last rest = Some x -> is_space x = true) ->
  forall x, last (pre ++ c :: rest) = Some x -> is_space x = true.
Proof.
  intros Hc Hrest x. destruct rest as [|r rest] using rev_ind.
  - rewrite last_snoc. by intros [= <-].
  - clear IHrest. rewrite app_comm_cons, app_assoc, last_snoc.
    intros [= <-]. apply Hrest. by rewrite last_snoc.
Qed.

Lemma no_space_nil : no_space [].
Proof. constructor. Qed.

(** A run without a space that is followed by a space or the end, at the
    start of a list, is determined by the list. *)
Lemma first_run_unique (a b x y : list ascii) :
  a ++ x = b ++ y ->
  no_space a -> no_space b ->
  (forall c, head x = Some c -> is_space c = true) ->
  (forall c, head y = Some c -> is_space c = true) ->
  a = b.
Proof.
  revert b. induction a as [|c a IH]; intros b Heq Ha Hb Hx Hy.
  - destruct b as [|d b]; [done|]. simpl in Heq. subst x.
    apply Forall_cons in Hb as [Hd _]. rewrite (Hx d) in Hd; done.
  - destruct b as [|d b].
    + simpl in Heq. subst y. apply Forall_cons in Ha as [Hc _].
      rewrite (Hy c) in Hc; done.
    + simpl in Heq. injection Heq as -> Heq.
      apply Forall_cons in Ha as [_ Ha]. apply Forall_cons in Hb as [_ Hb].
      f_equal. by apply IH.
Qed.

(** A word that stands in [run ++ rest], where [run] has no space and
    [rest] starts with one, is [run] or stands in [rest]. *)
Lemma stands_in_after_run (w run rest : list ascii) c :
  no_space run -> is_space c = true ->
  stands_in w (run ++ c :: rest) <->
  (run <> [] /\ w = run) \/ stands_in w rest.
Proof.
  intros Hrun Hc. split.
  - intros (pre & post & Heq & Hne & Hw & Hpre & Hpost).
    destruct pre as [|p pre] using rev_ind.
    + left. simpl in Heq.
      assert (w = run) as ->.
      { symmetry in Heq.
        eapply first_run_unique; [exact Heq|done|done|done|].
        intros x [= <-]. done. }
      done.
    + clear IHpre. right.
      assert (Hp : is_space p = true) by (apply Hpre; by rewrite last_snoc).
      (* the first space of the list is [c], so [pre ++ [p]] goes beyond
         [run] *)
      assert (exists pre', pre ++ [p] = run ++ c :: pre') as [pre' Hpre'].
      { rewrite <- app_assoc in Heq. simpl in Heq.
        clear Hpre Hpost Hw Hne. revert pre Heq.
        induction run as [|r run IH]; intros pre Heq.
        - simpl in *. destruct pre as [|q pre]; simpl in *.
          + injection Heq as -> _. by exists [].
          + injection Heq as -> Heq. by exists (pre ++ [p]).
        - apply Forall_cons in Hrun as [Hr Hrun].
          destruct pre as [|q pre]; simpl in *.
          + injection Heq as -> _. congruence.
          + injection Heq as -> Heq.
            destruct (IH Hrun pre Heq) as [pre' ->]. by exists pre'. }
      rewrite Hpre' in Heq. rewrite <- app_assoc in Heq.
      apply app_inv_head in Heq. simpl in Heq. injection Heq as Heq.
      exists pre', post. split; [done|]. split; [done|]. split; [done|].
      split; [|done]. intros x Hx. apply Hpre. rewrite Hpre'.
      destruct pre' as [|q pre'] using rev_ind; [done|].
      rewrite last_snoc in Hx. injection Hx as <-.
      by rewrite app_comm_cons, app_assoc, last_snoc.
  - intros [[Hne ->]|(pre & post & -> & Hne & Hw & Hpre & Hpost)].
    + exists [], (c :: rest). split; [done|]. split; [done|].
      split; [done|]. split; [done|]. by intros x [= <-].
    + exists (run ++ c :: pre), post. split; [by rewrite <- app_assoc|].
      split; [done|]. split; [done|]. split; [|done].
      by apply last_snoc_space.
Qed.

Lemma stands_in_run (w run : list ascii) :
  no_space run -> stands_in w run <-> run <> [] /\ w = run.
Proof.
  intros Hrun. split.
  - intros (pre & post & -> & Hne & Hw & Hpre & Hpost).
    apply Forall_app in Hrun as [Hp Hrun].
    apply Forall_app in Hrun as [_ Hq].
    assert (pre = []) as ->.
    { destruct pre as [|p pre] using rev_ind; [done|].
      apply Forall_app in Hp as [_ Hp]. apply Forall_cons in Hp as [Hp _].
      rewrite (Hpre p) in Hp; [done|]. by rewrite last_snoc. }
    assert (post = []) as ->.
    { destruct post as [|q post]; [done|].
      apply Forall_cons in Hq as [Hq _]. rewrite (Hpost q) in Hq; done. }
    rewrite app_nil_r. simpl. done.
  - intros [Hne ->]. exists [], []. rewrite app_nil_r.
    split; [done|]. split; [done|]. split; [done|]. done.
Qed.

Lemma split_aux_spec (s cur : list ascii) (w : string) :
  no_space cur ->
  w ∈ split_aux s cur <-> stands_in (list_ascii_of_string w) (rev cur ++ s).
Proof.
  revert cur. induction s as [|c s IH]; intros cur Hcur.
  - rewrite app_nil_r. rewrite stands_in_run by (by apply Forall_rev).
    simpl. destruct cur as [|d cur].
    + split; [by intros ?%elem_of_nil | by intros [? _]].
    + rewrite list_elem_of_singleton. split.
      * intros ->. rewrite list_ascii_of_string_of_list_ascii.
        split; [|done]. simpl. by destruct (rev cur).
      * intros [_ Hw]. rewrite <- Hw.
        by rewrite string_of_list_ascii_of_string.
  - simpl. destruct (is_space c) eqn:Hc.
    + rewrite stands_in_after_run by (by try apply Forall_rev).
      destruct cur as [|d cur].
      * rewrite (IH [] Hcur). simpl. split; [by right|].
        by intros [[? _]|?].
      * rewrite elem_of_cons, (IH [] no_space_nil). simpl.
        split; (intros [Hw|Hw]; [left|by right]).
        -- subst w. rewrite list_ascii_of_string_of_list_ascii.
           split; [|done]. by destruct (rev cur).
        -- destruct Hw as [_ Hw]. rewrite <- Hw.
           by rewrite string_of_list_ascii_of_string.
    + rewrite (IH (c :: cur)) by (by apply Forall_cons).
      simpl. by rewrite <- app_assoc.
Qed.

(** The words [s.split()] returns. *)
Lemma split_spec (s w : string) : w ∈ split s <-> word_of w s.
Proof. unfold split. by rewrite split_aux_spec by apply no_space_nil. Qed.

Lemma keywords_spec (s w : string) :
  w ∈ keywords s <-> word_of w s /\ w ∉ stop_words.
Proof.
  unfold keywords. rewrite elem_of_difference, elem_of_list_to_set.
  by rewrite split_spec.
Qed.

End WordFacts.

Module FAQClaims.
Import Py FAQHandler Float64 PythonFloats FAQSample FAQFacts FloatFacts
  WordFacts.

(** C6, amended: the scores are doubles, each product, sum and quotient
    rounded to the nearest double.  The combined score of a message and a
    paraphrase is the similarity ratio of the two lowercased strings times
    the double 0.7, plus the keyword score times the double 0.3; the
    keyword score is 0 when the paraphrase has no keyword, and else the
    number of keywords the two share over the number of keywords of the
    paraphrase, a keyword being a word between spaces that is no stop word.
    [get_faq_response] returns the answer of the first candidate, in the
    order of the catalog and of the paraphrases, whose score no other
    exceeds, when that score is at least the double 0.6; it returns [None]
    when every score is below the double 0.6. *)
Theorem get_faq_response_returns_first_highest
    (ratio : string -> string -> Q) (faqs : list (string * FAQEntry))
    (user_message : string) :
  let message := lower user_message in
  let keyword_score (question : string) : Q :=
    if decide (keywords question = ∅) then 0%Q
    else round (inject_Z (Z.of_nat (size (keywords message ∩ keywords question)))
                / inject_Z (Z.of_nat (size (keywords question)))) in
  let score (question : string) : Q :=
    round (round (ratio message (lower question) * round (7 # 10))
           + round (keyword_score (lower question) * round (3 # 10))) in
  let candidates : list (FAQEntry * Q) :=
    flat_map
      (fun item => map (fun question => (snd item, score question))
                       (questions (snd item)))
      faqs in
  (round (7 # 10) = 3152519739159347 # 4503599627370496
   /\ round (3 # 10) = 5404319552844595 # 18014398509481984
   /\ round (6 # 10) = 5404319552844595 # 9007199254740992)
  /\ (String.length message = String.length user_message
      /\ forall (i : nat) (c : ascii),
           String.get i user_message = Some c ->
           String.get i message
           = Some (if ((65 <=? nat_of_ascii c) && (nat_of_ascii c <=? 90))%nat
                   then ascii_of_nat (nat_of_ascii c + 32) else c))
  /\ (forall s w : string, w ∈ keywords s <-> word_of w s /\ w ∉ stop_words)
  /\ match get_faq_response (H := doubles) ratio faqs user_message with
     | Some reply =>
         exists (i : nat) (entry : FAQEntry) (best : Q),
           candidates !! i = Some (entry, best)
           /\ reply = answer entry
           /\ (round (6 # 10) <= best)%Q
           /\ (forall j e s, candidates !! j = Some (e, s) -> (s <= best)%Q)
           /\ (forall j e s,
                 (j < i)%nat -> candidates !! j = Some (e, s) ->
                 (s < best)%Q)
     | None =>
         forall j e s,
           candidates !! j = Some (e, s) -> (s < round (6 # 10))%Q
     end.
Proof.
  intros message keyword_score score candidates.
  split; [by vm_compute|]. split; [|split; [apply keywords_spec|]].
  - subst message. clear. induction user_message as [|d s [IHl IHg]].
    + split; [done|]. intros i c. by destruct i.
    + split; [simpl; by rewrite IHl|]. intros [|i] c; simpl.
      * intros [= ->]. done.
      * apply IHg.
  - assert (Hscored : scored (H := doubles) ratio faqs user_message
                      = candidates).
    { unfold scored, candidates. apply flat_map_ext. intros item.
      apply map_ext. intros question. reflexivity. }
    unfold get_faq_response. rewrite loops_flatten, Hscored.
    pose proof (foldl_keep_best_selected (H := doubles) candidates) as Hsel.
    destruct (foldl _ _ candidates) as [[entry|] best];
      unfold selected in Hsel; simpl in Hsel |- *.
    + destruct Hsel as (i & Hi & Hge & Hmax & Hfirst).
      exists i, entry, best. split; [done|]. split; [done|].
      split; [by apply Qle_bool_iff|]. split.
      * intros j e s Hj. apply Qle_bool_iff.
        by apply negb_false_iff, (Hmax j e).
      * intros j e s Hji Hj. apply Qnot_le_lt. intros Hle.
        apply Qle_bool_iff in Hle.
        specialize (Hfirst j e s Hji Hj). by rewrite Hle in Hfirst.
    + destruct Hsel as (_ & Hall). intros j e s Hj.
      apply Qnot_le_lt. intros Hle. apply Qle_bool_iff in Hle.
      by rewrite (Hall j e s Hj) in Hle.
Qed.

(** C6, the message that the claim read on exact numbers gets wrong: the
    similarity ratio of ["reset pass mail"] and the paraphrase is 3/4, one of
    the four keywords of the paraphrase is in the message, and 0.7 * 3/4 +
    0.3 * 1/4 is 0.6; the score [get_faq_response] computes is
    0.5999999999999999, below the double 0.6, and it returns [None]. *)
Lemma exact_threshold_is_missed :
  let message := lower "Reset pass mail" in
  let question := "reset password email link" in
  message = "reset pass mail"
  /\ sample_ratio message (lower question) = (3 # 4)%Q
  /\ keywords message ∩ keywords question = {["reset"]}
  /\ size (keywords question) = 4%nat
  /\ ((7 # 10) * (3 # 4) + (3 # 10) * (1 # 4) == 6 # 10)%Q
  /\ map snd (scored (H := doubles) sample_ratio reset_faqs "Reset pass mail")
     = [2702159776422297 # 4503599627370496]
  /\ (2702159776422297 # 4503599627370496 < round (6 # 10))%Q
  /\ get_faq_response (H := doubles) sample_ratio reset_faqs
       "Reset pass mail" = None.
Proof. vm_compute. repeat split; reflexivity. Qed.

(** The two messages of the sample: the first is answered from the
    business-hours entry, whose third paraphrase scores 0.9124999999999999;
    the highest score of the second is below 0.6. *)
Example get_faq_response_on_sample :
  get_faq_response (H := doubles) sample_ratio sample_faqs
    "What time do you OPEN today"
  = Some "Our customer support is available Monday through Friday from 9:00 AM to 6:00 PM EST, and Saturday from 10:00 AM to 4:00 PM EST. We're closed on Sundays and major holidays. For urgent issues outside these hours, please email support@company.com."
  /\ nth_error
       (map snd (scored (H := doubles) sample_ratio sample_faqs
                   "What time do you OPEN today")) 2
     = Some (4109534659975577 # 4503599627370496)%Q
  /\ get_faq_response (H := doubles) sample_ratio sample_faqs "phone" = None.
Proof. vm_compute. repeat split; reflexivity. Qed.

End FAQClaims.
(** ** The shape of a manager *)

Module ShapeFacts.
Import Py Datetime ConversationManager Session StoreFacts StoreShape.

Lemma isoformat_messages_allocated refs :
  forall h r,
    is_Some (snd (isoformat_messages h refs) !! r) <-> is_Some (h !! r).
Proof.
  induction refs as [|x refs IH]; intros h r; simpl; [done|].
  destruct (h !! x) as [m|] eqn:Ex; [|apply IH].
  destruct (timestamp m); [|done].
  rewrite IH. destruct (decide (x = r)) as [->|Hne].
  - rewrite lookup_insert_eq, Ex. split; eauto.
  - by rewrite lookup_insert_ne.
Qed.

(** Writing fields other than the messages keeps the shape. *)
Lemma well_formed_rewrite st cid conv conv' :
  well_formed st ->
  conversations st !! cid = Some conv ->
  conversation_id conv' = conversation_id conv ->
  messages conv' = messages conv ->
  well_formed (with_conversations st (<[cid := conv']> (conversations st))).
Proof.
  intros [Hown Hdisj] Hc Hid Hm. split.
  - intros k c. simpl. destruct (decide (k = cid)) as [->|Hne].
    + rewrite lookup_insert_eq. intros [= <-]. rewrite Hid, Hm.
      exact (Hown _ _ Hc).
    + rewrite lookup_insert_ne by congruence. apply Hown.
  - intros k1 k2 c1 c2 r. simpl.
    destruct (decide (k1 = cid)) as [->|Hne1];
      destruct (decide (k2 = cid)) as [->|Hne2]; [done| | |].
    + rewrite lookup_insert_eq, lookup_insert_ne by congruence.
      intros [= <-] H2. rewrite Hm. by apply Hdisj.
    + rewrite lookup_insert_eq, lookup_insert_ne by congruence.
      intros H1 [= <-]. rewrite Hm. by apply Hdisj.
    + rewrite !lookup_insert_ne by congruence. apply Hdisj.
Qed.

Lemma well_formed_add_message st cid role content metadata new_id t1 t2 :
  well_formed st ->
  well_formed (snd (add_message st cid role content metadata new_id t1 t2)).
Proof.
  intros [Hown Hdisj]. unfold add_message.
  destruct (conversations st !! cid) as [conv|] eqn:Hc; [|by split].
  simpl. destruct (Hown _ _ Hc) as (Hid & Hnd & Halloc).
  assert (Hfresh : forall k c, conversations st !! k = Some c ->
                               next_object st ∉ messages c).
  { intros k c Hk Hin. destruct (Hown _ _ Hk) as (_ & _ & Ha).
    destruct (Ha _ Hin). lia. }
  split.
  - intros k c. simpl. destruct (decide (k = cid)) as [->|Hne].
    + rewrite lookup_insert_eq. intros [= <-]. simpl.
      split; [done|]. split.
      * apply NoDup_app. split; [done|]. split; [|apply NoDup_singleton].
        intros r Hr Hin. apply list_elem_of_singleton in Hin as ->.
        by apply (Hfresh _ _ Hc).
      * intros r Hr. apply elem_of_app in Hr as [Hr|Hr].
        -- destruct (Halloc _ Hr) as [Hlt Hs]. split; [lia|].
           rewrite lookup_insert_ne by lia. done.
        -- apply list_elem_of_singleton in Hr as ->.
           split; [lia|]. rewrite lookup_insert_eq. eauto.
    + rewrite lookup_insert_ne by congruence. intros Hk.
      destruct (Hown _ _ Hk) as (Hid' & Hnd' & Ha). split; [done|].
      split; [done|]. intros r Hr. destruct (Ha _ Hr) as [Hlt Hs].
      split; [lia|]. rewrite lookup_insert_ne by lia. done.
  - intros k1 k2 c1 c2 r. simpl.
    destruct (decide (k1 = cid)) as [->|Hne1];
      destruct (decide (k2 = cid)) as [->|Hne2]; [done| | |].
    + rewrite lookup_insert_eq, lookup_insert_ne by congruence.
      intros [= <-] H2. simpl. intros Hr Hr2.
      apply elem_of_app in Hr as [Hr|Hr]; [by eapply Hdisj|].
      apply list_elem_of_singleton in Hr as ->.
      by destruct (Hfresh _ _ H2).
    + rewrite lookup_insert_eq, lookup_insert_ne by congruence.
      intros H1 [= <-]. simpl. intros Hr1 Hr.
      apply elem_of_app in Hr as [Hr|Hr]; [by eapply Hdisj|].
      apply list_elem_of_singleton in Hr as ->.
      by destruct (Hfresh _ _ H1).
    + rewrite !lookup_insert_ne by congruence. apply Hdisj.
Qed.

Lemma well_formed_perform st c : well_formed st -> well_formed (perform st c).
Proof.
  intros Hwf. destruct c; cbn [perform].
  - destruct Hwf as [Hown Hdisj]. unfold create_conversation. simpl. split.
    + intros k c. simpl. destruct (decide (k = new_id)) as [->|Hne].
      * rewrite lookup_insert_eq. intros [= <-]. simpl.
        split; [done|]. split; [apply NoDup_nil_2|].
        intros r Hr. by apply elem_of_nil in Hr.
      * rewrite lookup_insert_ne by congruence. apply Hown.
    + intros k1 k2 c1 c2 r. simpl.
      destruct (decide (k1 = new_id)) as [->|Hne1].
      { rewrite lookup_insert_eq. intros [= <-] _ Hr.
        by apply elem_of_nil in Hr. }
      destruct (decide (k2 = new_id)) as [->|Hne2].
      { rewrite lookup_insert_eq. intros _ [= <-] _ Hr.
        by apply elem_of_nil in Hr. }
      rewrite !lookup_insert_ne by congruence. apply Hdisj.
  - by apply well_formed_add_message.
  - unfold update_context.
    destruct (conversations st !! cid) as [conv|] eqn:Hc; [|done].
    by eapply well_formed_rewrite.
  - unfold set_user_info.
    destruct (conversations st !! cid) as [conv|] eqn:Hc; [|done].
    by eapply well_formed_rewrite.
  - unfold escalate_conversation.
    destruct (conversations st !! cid) as [conv|] eqn:Hc; [|done].
    match goal with
    | |- context [add_message ?s ?a ?b ?c ?d ?e ?f ?g] =>
        pose proof (well_formed_add_message s a b c d e f g) as Hadd;
        destruct (add_message s a b c d e f g) as [ok st2]
    end.
    simpl in *. apply Hadd. by eapply well_formed_rewrite.
  - unfold resolve_conversation.
    destruct (conversations st !! cid) as [conv|] eqn:Hc; [|done].
    by eapply well_formed_rewrite.
  - destruct Hwf as [Hown Hdisj]. split.
    + intros k c. rewrite cleanup_lookup.
      destruct (conversations st !! k) as [c0|] eqn:Hk; [|done].
      destruct (_ >? _); [done|]. intros [= <-]. exact (Hown _ _ Hk).
    + intros k1 k2 c1 c2 r. rewrite !cleanup_lookup.
      destruct (conversations st !! k1) as [d1|] eqn:Hk1; [|done].
      destruct (conversations st !! k2) as [d2|] eqn:Hk2;
        [|by destruct (_ >? _)].
      destruct (_ >? _); [done|]. destruct (_ >? _); [done|].
      intros [= <-] [= <-]. by eapply Hdisj.
  - destruct Hwf as [Hown Hdisj]. unfold export_conversation.
    destruct (conversations st !! cid) as [conv|] eqn:Hc; [|by split].
    pose proof (isoformat_messages_allocated (messages conv) (objects st))
      as Halloc.
    destruct (isoformat_messages (objects st) (messages conv)) as [res h].
    simpl in *. split; [|exact Hdisj].
    intros k c Hk. destruct (Hown _ _ Hk) as (Hid & Hnd & Ha).
    split; [done|]. split; [done|]. intros r Hr.
    destruct (Ha _ Hr). split; [done|]. by apply Halloc.
Qed.

(** Every manager has the shape. *)
Lemma well_formed_run calls : well_formed (run calls).
Proof.
  induction calls as [|c calls IH] using rev_ind.
  - split; intros ?; intros; simpl in *; by rewrite lookup_empty in *.
  - rewrite run_snoc. by apply well_formed_perform.
Qed.

End ShapeFacts.

Module GrowthFacts.
Import Py Datetime ConversationManager Session StoreFacts StoreShape ShapeFacts.

Lemma grown_from_refl conv : grown_from conv conv.
Proof. by repeat split. Qed.

Lemma grown_from_trans a b c :
  grown_from a b -> grown_from b c -> grown_from a c.
Proof.
  intros (Hi1 & Hc1 & Hp1 & He1 & Hr1) (Hi2 & Hc2 & Hp2 & He2 & Hr2).
  repeat split; [congruence | congruence | by etrans | auto | auto].
Qed.

Lemma same_message_refl m : same_message m m.
Proof. by repeat split. Qed.

Lemma same_message_trans a b c :
  same_message a b -> same_message b c -> same_message a c.
Proof.
  intros (? & ? & ? & ?) (? & ? & ? & ?). repeat split; congruence.
Qed.

(** A call that does not create the id leaves its conversation grown. *)
Lemma perform_grows st c cid after :
  conversations (perform st c) !! cid = Some after ->
  cid ∉ created [c] ->
  exists before,
    conversations st !! cid = Some before /\ grown_from before after.
Proof.
  destruct c; cbn [perform]; unfold create_conversation, add_message,
    update_context, set_user_info, escalate_conversation,
    resolve_conversation, export_conversation, add_message; simpl.
  - intros Hl Hn. rewrite lookup_insert_ne in Hl.
    + eauto using grown_from_refl.
    + intros ->. apply Hn, list_elem_of_here.
  - intros Hl _. destruct (conversations st !! cid0) as [conv|] eqn:E;
      simpl in Hl; [|eauto using grown_from_refl].
    destruct (decide (cid0 = cid)) as [->|Hne].
    + rewrite lookup_insert_eq in Hl. injection Hl as <-.
      exists conv. split; [done|]. repeat split; simpl; auto.
      by apply prefix_app_r.
    + rewrite lookup_insert_ne in Hl by done. eauto using grown_from_refl.
  - intros Hl _. destruct (conversations st !! cid0) as [conv|] eqn:E;
      simpl in Hl; [|eauto using grown_from_refl].
    destruct (decide (cid0 = cid)) as [->|Hne].
    + rewrite lookup_insert_eq in Hl. injection Hl as <-.
      exists conv. split; [done|]. by repeat split.
    + rewrite lookup_insert_ne in Hl by done. eauto using grown_from_refl.
  - intros Hl _. destruct (conversations st !! cid0) as [conv|] eqn:E;
      simpl in Hl; [|eauto using grown_from_refl].
    destruct (decide (cid0 = cid)) as [->|Hne].
    + rewrite lookup_insert_eq in Hl. injection Hl as <-.
      exists conv. split; [done|]. by repeat split.
    + rewrite lookup_insert_ne in Hl by done. eauto using grown_from_refl.
  - intros Hl _. destruct (conversations st !! cid0) as [conv|] eqn:E;
      simpl in Hl; [|eauto using grown_from_refl].
    rewrite lookup_insert_eq in Hl. simpl in Hl.
    destruct (decide (cid0 = cid)) as [->|Hne].
    + rewrite lookup_insert_eq in Hl. injection Hl as <-.
      exists conv. split; [done|]. repeat split; simpl; auto.
      by apply prefix_app_r.
    + rewrite !lookup_insert_ne in Hl by done.
      eauto using grown_from_refl.
  - intros Hl _. destruct (conversations st !! cid0) as [conv|] eqn:E;
      simpl in Hl; [|eauto using grown_from_refl].
    destruct (decide (cid0 = cid)) as [->|Hne].
    + rewrite lookup_insert_eq in Hl. injection Hl as <-.
      exists conv. split; [done|]. by repeat split.
    + rewrite lookup_insert_ne in Hl by done. eauto using grown_from_refl.
  - intros Hl _.
    change (conversations
              (snd (cleanup_old_conversations st current_time)) !! cid
            = Some after) in Hl.
    rewrite cleanup_lookup in Hl.
    destruct (conversations st !! cid) as [conv|]; [|done].
    destruct (_ >? _); [done|]. injection Hl as <-.
    eauto using grown_from_refl.
  - intros Hl _. destruct (conversations st !! cid0) as [conv|] eqn:E;
      simpl in Hl; [|eauto using grown_from_refl].
    destruct (isoformat_messages _ _). simpl in Hl.
    eauto using grown_from_refl.
Qed.

Lemma isoformat_messages_same refs :
  forall h r m,
    h !! r = Some m ->
    exists m', snd (isoformat_messages h refs) !! r = Some m'
               /\ same_message m m'.
Proof.
  induction refs as [|x refs IH]; intros h r m Hr; simpl.
  - eauto using same_message_refl.
  - destruct (h !! x) as [mx|] eqn:Ex; [|by apply IH].
    destruct (timestamp mx); [|eauto using same_message_refl].
    destruct (decide (x = r)) as [->|Hne].
    + assert (mx = m) as -> by congruence.
      destruct (IH (<[r:=set_timestamp m (AsStr (isoformat t))]> h) r _
                  (lookup_insert_eq _ _ _)) as (m' & Hm' & Hs).
      exists m'. split; [done|]. eapply same_message_trans; [|exact Hs].
      by repeat split.
    + apply IH. by rewrite lookup_insert_ne.
Qed.

(** A call keeps all but the timestamp of an allocated message object. *)
Lemma perform_same_message st c r m :
  objects st !! r = Some m -> (r < next_object st)%nat ->
  exists m', objects (perform st c) !! r = Some m' /\ same_message m m'.
Proof.
  intros Hr Hlt.
  destruct c; cbn [perform]; unfold create_conversation, add_message,
    update_context, set_user_info, escalate_conversation,
    resolve_conversation, cleanup_old_conversations, export_conversation,
    add_message; simpl; eauto using same_message_refl.
  - destruct (conversations st !! cid); simpl;
      [|eauto using same_message_refl].
    rewrite lookup_insert_ne by lia. eauto using same_message_refl.
  - destruct (conversations st !! cid); simpl;
      eauto using same_message_refl.
  - destruct (conversations st !! cid); simpl;
      eauto using same_message_refl.
  - destruct (conversations st !! cid); simpl;
      [|eauto using same_message_refl].
    rewrite lookup_insert_eq. simpl.
    rewrite lookup_insert_ne by lia. eauto using same_message_refl.
  - destruct (conversations st !! cid); simpl;
      eauto using same_message_refl.
  - destruct (conversations st !! cid) as [conv|]; simpl;
      [|eauto using same_message_refl].
    pose proof (isoformat_messages_same (messages conv) _ _ _ Hr) as Hs.
    destruct (isoformat_messages _ _). exact Hs.
Qed.

End GrowthFacts.

Module GrowthClaims.
Import Py Datetime ConversationManager Session StoreFacts StoreShape
  ShapeFacts GrowthFacts.

(** X1: Whatever is called after a conversation was seen, as long as the
    conversation is still known and its id was not drawn again: its id and
    [created_at] are the same, its earlier messages are a prefix of its
    messages, an [escalated] or [resolved] flag that was set is still set,
    and each earlier message object has the id, role, content and metadata
    it had. *)
Theorem conversation_only_grows
    (calls later : list call) (cid : string) (before after : Conversation) :
  conversations (run calls) !! cid = Some before ->
  conversations (run (calls ++ later)) !! cid = Some after ->
  cid ∉ created later ->
  grown_from before after
  /\ forall r m,
       r ∈ messages before ->
       objects (run calls) !! r = Some m ->
       exists m', objects (run (calls ++ later)) !! r = Some m'
                  /\ same_message m m'.
Proof.
  intros Hb. revert after.
  induction later as [|c later IH] using rev_ind; intros after Ha Hn.
  - rewrite app_nil_r in *. assert (after = before) as -> by congruence.
    split; [apply grown_from_refl|]. eauto using same_message_refl.
  - rewrite app_assoc, run_snoc in *. rewrite created_snoc in Hn.
    apply not_elem_of_app in Hn as [Hn1 Hn2].
    destruct (perform_grows _ _ _ _ Ha Hn2) as (mid & Hmid & Hg).
    destruct (IH mid Hmid Hn1) as (Hg0 & Hobj).
    split; [by eapply grown_from_trans|].
    intros r m Hr Hm. destruct (Hobj r m Hr Hm) as (m1 & Hm1 & Hs1).
    destruct (well_formed_run (calls ++ later)) as [Hown _].
    destruct (Hown _ _ Hmid) as (_ & _ & Halloc).
    destruct Hg0 as (_ & _ & Hpre & _).
    destruct (Halloc r) as [Hlt _]; [by eapply elem_of_prefix|].
    destruct (perform_same_message _ c _ _ Hm1 Hlt) as (m2 & Hm2 & Hs2).
    exists m2. split; [done|]. by eapply same_message_trans.
Qed.

Lemma conversation_only_grows_witness :
  let calls :=
    [CreateConversation "4f1c" 0 0;
     AddMessage "4f1c" "user" "hi" None "9a2e" 5 5;
     ResolveConversation "4f1c" (Some 4) 6] in
  let later :=
    [EscalateConversation "4f1c" None 7 "0c3d" 8 9;
     ExportConversation "4f1c";
     CreateConversation "a07d" 10 10] in
  ("4f1c" ∉ created later)
  /\ (messages <$> conversations (run calls) !! "4f1c") = Some [0%nat]
  /\ (messages <$> conversations (run (calls ++ later)) !! "4f1c")
     = Some [0%nat; 1%nat]
  /\ (resolved <$> conversations (run (calls ++ later)) !! "4f1c")
     = Some true.
Proof.
  intros calls later.
  assert (Hn : "4f1c" ∉ created later).
  { intros Hin. apply list_elem_of_singleton in Hin. discriminate Hin. }
  split; [exact Hn|].
  destruct (conversations (run calls) !! "4f1c") as [before|] eqn:Hb;
    [|vm_compute in Hb; discriminate Hb].
  destruct (conversations (run (calls ++ later)) !! "4f1c") as [after|] eqn:Ha;
    [|vm_compute in Ha; discriminate Ha].
  destruct (conversation_only_grows calls later "4f1c" before after Hb Ha Hn)
    as ((_ & _ & Hpre & _ & Hres) & _).
  vm_compute in Hb. injection Hb as <-.
  vm_compute in Ha. injection Ha as <-.
  repeat split.
Defined.

End GrowthClaims.

Module SummaryFacts.
Import Py Datetime ConversationManager Session StoreFacts StoreShape ShapeFacts.

Lemma datetimes_only_perform st c :
  never_exported [c] = true ->
  datetimes_only st -> datetimes_only (perform st c).
Proof.
  intros Hne Hd.
  destruct c; cbn [perform]; unfold create_conversation, add_message,
    update_context, set_user_info, escalate_conversation,
    resolve_conversation, cleanup_old_conversations, add_message; simpl;
    try exact Hd; try discriminate Hne.
  - destruct (conversations st !! cid); [|exact Hd]. simpl.
    unfold datetimes_only. simpl.
    intros r m. destruct (decide (r = next_object st)) as [->|Hr].
    + rewrite lookup_insert_eq. intros [= <-]. simpl. eauto.
    + rewrite lookup_insert_ne by done. apply Hd.
  - destruct (conversations st !! cid); exact Hd.
  - destruct (conversations st !! cid); exact Hd.
  - destruct (conversations st !! cid); [|exact Hd]. simpl.
    rewrite lookup_insert_eq. simpl.
    unfold datetimes_only. simpl.
    intros r m. destruct (decide (r = next_object st)) as [->|Hr].
    + rewrite lookup_insert_eq. intros [= <-]. simpl. eauto.
    + rewrite lookup_insert_ne by done. apply Hd.
  - destruct (conversations st !! cid); exact Hd.
Qed.

Lemma never_exported_snoc calls c :
  never_exported (calls ++ [c])
  = never_exported calls && never_exported [c].
Proof. unfold never_exported. by rewrite forallb_app. Qed.

(** Without an export every message object holds its [datetime]. *)
Lemma datetimes_only_run calls :
  never_exported calls = true -> datetimes_only (run calls).
Proof.
  induction calls as [|c calls IH] using rev_ind; intros Hne.
  - intros r m Hr. unfold run in Hr. simpl in Hr.
    by rewrite lookup_empty in Hr.
  - rewrite never_exported_snoc in Hne.
    apply andb_true_iff in Hne as [Hne1 Hne2].
    rewrite run_snoc. apply datetimes_only_perform; auto.
Qed.

Lemma fetch_allocated h refs :
  (forall r, r ∈ refs -> is_Some (h !! r)) ->
  length (fetch h refs) = length refs
  /\ forall i r, refs !! i = Some r -> fetch h refs !! i = h !! r.
Proof.
  induction refs as [|x refs IH]; intros Ha; [done|].
  destruct (Ha x) as [m Hm]; [apply list_elem_of_here|].
  destruct IH as [Hlen Hnth].
  { intros r Hr. by apply Ha, list_elem_of_further. }
  assert (Hcons : fetch h (x :: refs) = m :: fetch h refs).
  { unfold fetch. simpl. by rewrite Hm. }
  rewrite Hcons. split; [simpl; by rewrite Hlen|].
  intros [|i] r; simpl; [by intros [= <-] | apply Hnth].
Qed.

Lemma total_empty : total ∅ = 0%nat.
Proof. apply map_fold_empty. Qed.

Lemma total_insert_fresh counts k n :
  counts !! k = None -> total (<[k := n]> counts) = (n + total counts)%nat.
Proof.
  intros Hk. unfold total. rewrite map_fold_insert_L; [done | | done].
  intros. lia.
Qed.

Lemma total_count_role counts m : total (count_role counts m) = S (total counts).
Proof.
  unfold count_role. destruct (counts !! role m) as [n|] eqn:Hk; simpl.
  - rewrite <- (insert_delete_id counts _ _ Hk) at 2.
    rewrite <- insert_delete_eq.
    rewrite !total_insert_fresh by apply lookup_delete_eq. lia.
  - by rewrite total_insert_fresh.
Qed.

Lemma total_foldl_count_role msgs counts :
  total (foldl count_role counts msgs) = (total counts + length msgs)%nat.
Proof.
  revert counts. induction msgs as [|m msgs IH]; intros counts; simpl;
    [lia|].
  rewrite IH, total_count_role. lia.
Qed.

(** The intents collected are truthy and pairwise different. *)
Lemma collect_intent_distinct msgs :
  forall intents,
    (forall v, v ∈ intents -> truthy v = true) ->
    (forall i j v w, intents !! i = Some v -> intents !! j = Some w ->
                     value_eqb v w = true -> i = j) ->
    (forall v, v ∈ foldl collect_intent intents msgs -> truthy v = true)
    /\ (forall i j v w,
          foldl collect_intent intents msgs !! i = Some v ->
          foldl collect_intent intents msgs !! j = Some w ->
          value_eqb v w = true -> i = j).
Proof.
  assert (Hsym : forall v w, value_eqb v w = value_eqb w v).
  { intros [|b|z|s] [|c|y|t]; simpl; try done;
      [by destruct b, c | apply Z.eqb_sym | apply String.eqb_sym]. }
  induction msgs as [|m msgs IH]; intros intents Ht Hd; [done|].
  simpl. apply IH; unfold collect_intent;
    destruct (String.eqb (role m) "assistant"); try done;
    destruct (metadata m !! "intent") as [intent|]; try done;
    destruct (truthy intent) eqn:Hti; simpl; try done;
    destruct (contains intents intent) eqn:Hc; simpl; try done.
  - intros v Hv. apply elem_of_app in Hv as [Hv|Hv]; [by apply Ht|].
    by apply list_elem_of_singleton in Hv as ->.
  - assert (Hnew : forall i v, intents !! i = Some v ->
                               value_eqb intent v = false).
    { intros i v Hi. unfold contains in Hc.
      destruct (value_eqb intent v) eqn:E; [|done].
      assert (existsb (value_eqb intent) intents = true); [|congruence].
      apply existsb_exists. exists v. split; [|done].
      apply list_elem_of_In, list_elem_of_lookup. eauto. }
    intros i j v w Hi Hj He.
    destruct (decide (i < length intents)%nat) as [Hil|Hil];
      destruct (decide (j < length intents)%nat) as [Hjl|Hjl].
    + rewrite lookup_app_l in Hi, Hj by done. by eapply Hd.
    + rewrite lookup_app_l in Hi by done. rewrite lookup_app_r in Hj by lia.
      destruct (j - length intents)%nat; simpl in Hj; [|done].
      injection Hj as <-. rewrite Hsym, (Hnew _ _ Hi) in He. done.
    + rewrite lookup_app_l in Hj by done. rewrite lookup_app_r in Hi by lia.
      destruct (i - length intents)%nat; simpl in Hi; [|done].
      injection Hi as <-. rewrite (Hnew _ _ Hj) in He. done.
    + rewrite lookup_app_r in Hi, Hj by lia.
      destruct (i - length intents)%nat eqn:Ei; simpl in Hi; [|done].
      destruct (j - length intents)%nat eqn:Ej; simpl in Hj; [|done].
      lia.
Qed.

End SummaryFacts.

Module SummaryClaims.
Import Py Datetime ConversationManager Session StoreFacts StoreShape
  ShapeFacts SummaryFacts.

(** X2: On a manager on which [export_conversation] was never called,
    [get_conversation_summary] of a known id returns a summary: it names the
    id, echoes the fields of the conversation, counts every message of the
    conversation, its counts by role add up to that number, the intents it
    lists are truthy and pairwise different, and there is a duration exactly
    when there is a message. *)
Theorem summary_counts_every_message
    (calls : list call) (cid : string) (conv : Conversation) :
  never_exported calls = true ->
  conversations (run calls) !! cid = Some conv ->
  exists s,
    get_conversation_summary (run calls) cid = Ok (Some s)
    /\ s_conversation_id s = cid
    /\ s_created_at s = created_at conv
    /\ s_last_activity s = last_activity conv
    /\ s_escalated s = escalated conv
    /\ s_resolved s = resolved conv
    /\ s_satisfaction_score s = satisfaction_score conv
    /\ s_user_info s = user_info conv
    /\ s_message_count s = length (messages conv)
    /\ total (s_message_counts s) = length (messages conv)
    /\ (forall v, v ∈ s_intents_discussed s -> truthy v = true)
    /\ (forall i j v w,
          s_intents_discussed s !! i = Some v ->
          s_intents_discussed s !! j = Some w ->
          value_eqb v w = true -> i = j)
    /\ (s_duration_seconds s = None <-> messages conv = []).
Proof.
  intros Hne Hc. unfold get_conversation_summary. rewrite Hc.
  pose proof (datetimes_only_run calls Hne) as Hdt.
  destruct (well_formed_run calls) as [Hown _].
  destruct (Hown _ _ Hc) as (_ & _ & Halloc).
  destruct (fetch_allocated (objects (run calls)) (messages conv))
    as [Hlen Hnth].
  { intros r Hr. by apply Halloc. }
  set (msgs := fetch (objects (run calls)) (messages conv)) in *.
  assert (Hts : forall m, m ∈ msgs -> exists t, timestamp m = AsDatetime t).
  { intros m Hm. unfold msgs, fetch in Hm.
    apply list_elem_of_omap in Hm as (r & _ & Hr). by eapply Hdt. }
  destruct (collect_intent_distinct msgs []) as [Htruthy Hdist].
  { intros v Hv. by apply elem_of_nil in Hv. }
  { intros i j v w Hi. done. }
  destruct msgs as [|first rest] eqn:Hmsgs.
  - simpl. eexists. split; [reflexivity|]. simpl.
    do 7 (split; [reflexivity|]).
    split; [exact Hlen|]. split; [rewrite <- Hlen; exact total_empty|].
    split; [exact Htruthy|]. split; [exact Hdist|].
    split; [intros _ | done].
    destruct (messages conv); [done | discriminate Hlen].
  - destruct (Hts first) as [t1 Ht1]; [apply list_elem_of_here|].
    destruct (Hts (List.last (first :: rest) first)) as [t2 Ht2].
    { apply list_elem_of_In.
      destruct (exists_last (l := first :: rest)) as (l' & x & ->);
        [done|].
      rewrite last_last. apply in_or_app. right. by left. }
    cbn [bind]. rewrite Ht1, Ht2. cbn [elapsed bind].
    eexists. split; [reflexivity|]. cbn [s_conversation_id s_created_at
      s_last_activity s_escalated s_resolved s_satisfaction_score
      s_user_info s_message_count s_message_counts s_intents_discussed
      s_duration_seconds].
    do 7 (split; [reflexivity|]).
    split; [exact Hlen|].
    split; [rewrite total_foldl_count_role, total_empty; exact Hlen|].
    split; [exact Htruthy|]. split; [exact Hdist|].
    split; [done|]. intros Hm. rewrite Hm in Hlen. discriminate Hlen.
Qed.

Lemma summary_counts_every_message_witness :
  let calls :=
    [CreateConversation "4f1c" 0 0;
     AddMessage "4f1c" "user" "hi" None "9a2e" 5 5;
     AddMessage "4f1c" "assistant" "hello" None "0c3d" 6 6] in
  never_exported calls = true
  /\ exists conv s,
       conversations (run calls) !! "4f1c" = Some conv
       /\ get_conversation_summary (run calls) "4f1c" = Ok (Some s)
       /\ s_message_count s = 2%nat
       /\ total (s_message_counts s) = 2%nat.
Proof.
  intros calls. split; [reflexivity|].
  destruct (conversations (run calls) !! "4f1c") as [conv|] eqn:Hc;
    [|vm_compute in Hc; discriminate Hc].
  destruct (summary_counts_every_message calls "4f1c" conv eq_refl Hc)
    as (s & Hs & _ & _ & _ & _ & _ & _ & _ & Hn & Ht & _).
  exists conv, s. split; [reflexivity|]. split; [exact Hs|].
  vm_compute in Hc. injection Hc as <-. split; [exact Hn | exact Ht].
Defined.

End SummaryClaims.

Module ExportFacts.
Import Py Datetime ConversationManager Session StoreFacts StoreShape ShapeFacts.

(** The loop of [export_conversation] writes to the objects it is given
    and to no other. *)
Lemma isoformat_messages_frame refs :
  forall h r, r ∉ refs -> snd (isoformat_messages h refs) !! r = h !! r.
Proof.
  induction refs as [|x refs IH]; intros h r Hr; [done|]. simpl.
  apply not_elem_of_cons in Hr as [Hne Hr].
  destruct (h !! x) as [mx|] eqn:Ex; [|by apply IH].
  destruct (timestamp mx); [|done].
  rewrite IH by done. by rewrite lookup_insert_ne.
Qed.

(** On distinct allocated objects that hold a [datetime] the loop ends
    normally and has rewritten each of them. *)
Lemma isoformat_messages_Ok refs :
  forall h,
    NoDup refs ->
    (forall r, r ∈ refs ->
               exists m t, h !! r = Some m /\ timestamp m = AsDatetime t) ->
    fst (isoformat_messages h refs) = Ok tt
    /\ forall r m t,
         r ∈ refs -> h !! r = Some m -> timestamp m = AsDatetime t ->
         snd (isoformat_messages h refs) !! r
         = Some (set_timestamp m (AsStr (isoformat t))).
Proof.
  induction refs as [|x refs IH]; intros h Hnd Hall.
  - split; [done|]. intros r m t Hr. by apply elem_of_nil in Hr.
  - apply NoDup_cons in Hnd as [Hx Hnd]. simpl.
    destruct (Hall x) as (mx & tx & Hmx & Htx); [apply list_elem_of_here|].
    rewrite Hmx, Htx.
    destruct (IH (<[x:=set_timestamp mx (AsStr (isoformat tx))]> h) Hnd)
      as [Hok Hset].
    { intros r Hr. destruct (Hall r) as (m & t & Hm & Ht);
        [by apply list_elem_of_further|].
      exists m, t. rewrite lookup_insert_ne; [done|]. by intros ->. }
    split; [exact Hok|]. intros r m t Hr Hm Ht.
    apply elem_of_cons in Hr as [->|Hr].
    + rewrite isoformat_messages_frame by done.
      rewrite lookup_insert_eq. congruence.
    + apply Hset; [done | | done].
      rewrite lookup_insert_ne; [done|]. by intros ->.
Qed.

End ExportFacts.

Module ExportClaims.
Import Py Datetime ConversationManager Session StoreFacts StoreShape
  ShapeFacts SummaryFacts ExportFacts.

(** X3: After any call of [export_conversation] on a known conversation with
    at least one message, whether that call returned or raised, a further
    [export_conversation] of it raises [AttributeError] and
    [get_conversation_summary] of it raises [TypeError]. *)
Theorem export_conversation_is_not_repeatable
    (calls : list call) (cid : string) (conv : Conversation)
    (r : nat) (rest : list nat) :
  conversations (run calls) !! cid = Some conv ->
  messages conv = r :: rest ->
  let st := snd (export_conversation (run calls) cid) in
  fst (export_conversation st cid)
  = Raise (AttributeError "'str' object has no attribute 'isoformat'")
  /\ exists msg, get_conversation_summary st cid = Raise (TypeError msg).
Proof.
  intros Hc Hm st.
  destruct (well_formed_run calls) as [Hown _].
  destruct (Hown _ _ Hc) as (_ & Hnd & Halloc).
  rewrite Hm in Hnd. apply NoDup_cons in Hnd as [Hr _].
  destruct (Halloc r) as [_ [m Hobj]]; [rewrite Hm; apply list_elem_of_here|].
  assert (Hconv : conversations st = conversations (run calls)).
  { unfold st, export_conversation. rewrite Hc.
    by destruct (isoformat_messages _ _). }
  assert (Hstr : exists m' s, objects st !! r = Some m'
                              /\ timestamp m' = AsStr s).
  { unfold st, export_conversation. rewrite Hc, Hm. simpl. rewrite Hobj.
    destruct (timestamp m) as [t|s] eqn:Ht; [|simpl; eauto].
    pose proof (isoformat_messages_frame rest
                  (<[r:=set_timestamp m (AsStr (isoformat t))]>
                     (objects (run calls))) r Hr) as Hk.
    destruct (isoformat_messages _ rest) as [res h]. simpl in *.
    rewrite Hk, lookup_insert_eq. eauto. }
  destruct Hstr as (m' & s & Hm' & Hts). split.
  - unfold export_conversation. rewrite Hconv, Hc, Hm. simpl.
    by rewrite Hm', Hts.
  - unfold get_conversation_summary. rewrite Hconv, Hc, Hm.
    assert (Hf : exists tl, fetch (objects st) (r :: rest) = m' :: tl).
    { unfold fetch. simpl. rewrite Hm'. simpl. eauto. }
    destruct Hf as [tl ->]. cbn [bind]. rewrite Hts.
    destruct (timestamp (List.last (m' :: tl) m')); simpl; eauto.
Qed.

Lemma export_conversation_is_not_repeatable_witness :
  let calls :=
    [CreateConversation "4f1c" 0 0;
     AddMessage "4f1c" "user" "hi" None "9a2e" 5 5;
     ExportConversation "4f1c";
     AddMessage "4f1c" "assistant" "hello" None "0c3d" 6 6] in
  (exists conv rest,
      conversations (run calls) !! "4f1c" = Some conv
      /\ messages conv = 0%nat :: rest)
  /\ fst (export_conversation
            (snd (export_conversation (run calls) "4f1c")) "4f1c")
     = Raise (AttributeError "'str' object has no attribute 'isoformat'").
Proof.
  intros calls.
  destruct (conversations (run calls) !! "4f1c") as [conv|] eqn:Hc;
    [|vm_compute in Hc; discriminate Hc].
  assert (Hm : messages conv = 0%nat :: [1%nat]).
  { vm_compute in Hc. by injection Hc as <-. }
  split; [by exists conv, [1%nat]|].
  exact (proj1 (export_conversation_is_not_repeatable calls "4f1c" conv
                  0%nat [1%nat] Hc Hm)).
Defined.

(** X4: On a manager on which [export_conversation] was never called, the
    export of a known conversation returns a record with the id, messages,
    context, user information, flags and score of the conversation and the
    ISO renderings of its time fields, and it has rewritten the timestamp of
    every message of the conversation to the ISO rendering of the
    [datetime] it held. *)
Theorem first_export_renders_every_time
    (calls : list call) (cid : string) (conv : Conversation) :
  never_exported calls = true ->
  conversations (run calls) !! cid = Some conv ->
  fst (export_conversation (run calls) cid)
  = Ok (Some
      {| x_conversation_id := cid;
         x_created_at := isoformat (created_at conv);
         x_last_activity := isoformat (last_activity conv);
         x_messages := messages conv;
         x_context := context conv;
         x_user_info := user_info conv;
         x_satisfaction_score := satisfaction_score conv;
         x_escalated := escalated conv;
         x_resolved := resolved conv;
         x_escalation_reason := escalation_reason conv;
         x_escalation_time := isoformat <$> escalation_time conv;
         x_resolved_at := isoformat <$> resolved_at conv |})
  /\ forall r, r ∈ messages conv ->
       exists m t,
         objects (run calls) !! r = Some m
         /\ timestamp m = AsDatetime t
         /\ objects (snd (export_conversation (run calls) cid)) !! r
            = Some (set_timestamp m (AsStr (isoformat t))).
Proof.
  intros Hne Hc.
  destruct (well_formed_run calls) as [Hown _].
  destruct (Hown _ _ Hc) as (Hid & Hnd & Halloc).
  pose proof (datetimes_only_run calls Hne) as Hdt.
  assert (Hall : forall r, r ∈ messages conv ->
                 exists m t, objects (run calls) !! r = Some m
                             /\ timestamp m = AsDatetime t).
  { intros r Hr. destruct (Halloc r Hr) as [_ [m Hm]].
    destruct (Hdt _ _ Hm) as [t Ht]. eauto. }
  destruct (isoformat_messages_Ok (messages conv) (objects (run calls))
              Hnd Hall) as [Hok Hset].
  unfold export_conversation. rewrite Hc.
  destruct (isoformat_messages _ _) as [res h]. simpl in *. subst res.
  split; [by rewrite Hid|].
  intros r Hr. destruct (Hall r Hr) as (m & t & Hm & Ht).
  exists m, t. split; [done|]. split; [done|]. by apply Hset.
Qed.

Lemma first_export_renders_every_time_witness :
  let calls :=
    [CreateConversation "4f1c" 0 0;
     AddMessage "4f1c" "user" "hi" None "9a2e"
       (Datetime.seconds 5) (Datetime.seconds 5)] in
  never_exported calls = true
  /\ (exists conv, conversations (run calls) !! "4f1c" = Some conv)
  /\ timestamp <$>
       objects (snd (export_conversation (run calls) "4f1c")) !! 0%nat
     = Some (AsStr "1970-01-01T00:00:05").
Proof.
  intros calls. split; [reflexivity|].
  destruct (conversations (run calls) !! "4f1c") as [conv|] eqn:Hc;
    [|vm_compute in Hc; discriminate Hc].
  split; [by exists conv|].
  destruct (first_export_renders_every_time calls "4f1c" conv eq_refl Hc)
    as [_ Hset].
  destruct (Hset 0%nat) as (m & t & Hm & Ht & ->).
  { vm_compute in Hc. injection Hc as <-. apply list_elem_of_here. }
  vm_compute in Hm. injection Hm as <-. simpl in Ht. injection Ht as <-.
  reflexivity.
Defined.

(** X5: An export of one conversation, returned or raised, leaves every other
    conversation and each of its message objects as they were. *)
Theorem export_conversation_touches_one_conversation
    (calls : list call) (cid other : string) (conv : Conversation) :
  other <> cid ->
  conversations (run calls) !! other = Some conv ->
  let st := snd (export_conversation (run calls) cid) in
  conversations st !! other = Some conv
  /\ forall r, r ∈ messages conv ->
               objects st !! r = objects (run calls) !! r.
Proof.
  intros Hne Ho st. unfold st, export_conversation.
  destruct (conversations (run calls) !! cid) as [exported|] eqn:Hc;
    [|done].
  pose proof (isoformat_messages_frame (messages exported)
                (objects (run calls))) as Hframe.
  destruct (isoformat_messages _ _) as [res h]. simpl in *.
  split; [done|]. intros r Hr. apply Hframe. intros Hin.
  destruct (well_formed_run calls) as [_ Hdisj].
  apply Hne. by eapply Hdisj.
Qed.

Lemma export_conversation_touches_one_conversation_witness :
  let calls :=
    [CreateConversation "4f1c" 0 0;
     CreateConversation "a07d" 1 1;
     AddMessage "4f1c" "user" "hi" None "9a2e" 5 5;
     AddMessage "a07d" "user" "hey" None "0c3d" 6 6] in
  "a07d" <> "4f1c"
  /\ timestamp <$>
       objects (snd (export_conversation (run calls) "4f1c")) !! 1%nat
     = Some (AsDatetime 6).
Proof.
  intros calls.
  assert (Hne : "a07d" <> "4f1c") by discriminate.
  split; [exact Hne|].
  destruct (conversations (run calls) !! "a07d") as [conv|] eqn:Hc;
    [|vm_compute in Hc; discriminate Hc].
  destruct (export_conversation_touches_one_conversation calls "4f1c"
              "a07d" conv Hne Hc) as [_ Hsame].
  rewrite Hsame; [reflexivity|].
  vm_compute in Hc. injection Hc as <-. apply list_elem_of_here.
Defined.

End ExportClaims.

Module CleanupClaims.
Import Py Datetime ConversationManager Session StoreFacts.

Lemma filter_none {A} (f : A -> bool) (l : list A) :
  (forall x, x ∈ l -> f x = false) -> List.filter f l = [].
Proof.
  induction l as [|a l IH]; intros Hall; [done|]. simpl.
  rewrite (Hall a) by apply list_elem_of_here.
  apply IH. intros x Hx. by apply Hall, list_elem_of_further.
Qed.

(** X6: After a sweep, a sweep at the same or an earlier time removes nothing
    and leaves the manager as it is. *)
Theorem cleanup_old_conversations_is_stable
    (st : Store) (current_time earlier : datetime) :
  earlier <= current_time ->
  let swept := snd (cleanup_old_conversations st current_time) in
  cleanup_old_conversations swept earlier = (0%nat, swept).
Proof.
  intros Hle swept.
  assert (Hnone : List.filter
            (fun kv => earlier - last_activity (snd kv)
                       >? max_conversation_age swept)
            (map_to_list (conversations swept)) = []).
  { apply filter_none. intros [k c] Hin.
    apply elem_of_map_to_list in Hin. unfold swept in Hin.
    rewrite cleanup_lookup in Hin.
    destruct (conversations st !! k) as [c0|]; [|done].
    destruct (_ >? _) eqn:Hgt; [done|]. injection Hin as <-.
    simpl. rewrite Z.gtb_ltb in *. apply Z.ltb_ge. apply Z.ltb_ge in Hgt.
    lia. }
  unfold cleanup_old_conversations at 1. rewrite Hnone. reflexivity.
Qed.

Lemma cleanup_old_conversations_is_stable_witness :
  let st := run [CreateConversation "4f1c" 0 0;
                 CreateConversation "a07d" (hours 30) (hours 30)] in
  hours 31 <= hours 31
  /\ fst (cleanup_old_conversations st (hours 31)) = 1%nat
  /\ fst (cleanup_old_conversations
            (snd (cleanup_old_conversations st (hours 31))) (hours 31))
     = 0%nat.
Proof.
  intros st. assert (Hle : hours 31 <= hours 31) by lia.
  split; [exact Hle|]. split; [reflexivity|].
  by rewrite (cleanup_old_conversations_is_stable st _ _ Hle).
Defined.

End CleanupClaims.

Module QueryFacts.
Import Py Datetime ConversationManager EntityExtractor Session StoreShape
  ConversationQueries.
Import StoreFacts ShapeFacts SummaryFacts.

Lemma collect_inv {A B} (f : A -> result B) (l : list A) :
  forall acc out,
    collect f l acc = Ok out ->
    exists bs, out = acc ++ bs /\ Forall2 (fun a b => f a = Ok b) l bs.
Proof.
  induction l as [|a l IH]; intros acc out; simpl.
  - intros [= <-]. exists []. by rewrite app_nil_r.
  - destruct (f a) as [b|e] eqn:Hb; [|done]. simpl. intros Hc.
    apply IH in Hc as (bs & -> & Hall).
    exists (b :: bs). rewrite <- app_assoc. split; [done|].
    by constructor.
Qed.

Lemma starts_with_spec p s :
  starts_with p s = true <-> exists post, s = p ++ post.
Proof.
  revert s. induction p as [|a p IH]; intros s; simpl.
  - split; [eauto | done].
  - destruct s as [|b s]; [split; [done | by intros [? ?]]|].
    rewrite andb_true_iff, IH. split.
    + intros [Hab [post ->]]. apply Ascii.eqb_eq in Hab as ->. eauto.
    + intros [post [= -> ->]]. split; [apply Ascii.eqb_refl | eauto].
Qed.

(** [occurs_in] tells whether the needle is a contiguous part of the
    text. *)
Lemma occurs_in_spec needle hay :
  occurs_in needle hay = true <-> exists pre post, hay = pre ++ needle ++ post.
Proof.
  induction hay as [|c hay IH]; simpl.
  - rewrite orb_false_r, starts_with_spec. split.
    + intros [post ->]. by exists [], post.
    + intros (pre & post & H). symmetry in H.
      apply app_eq_nil in H as [-> H]. apply app_eq_nil in H as [-> ->].
      by exists [].
  - rewrite orb_true_iff, starts_with_spec, IH. split.
    + intros [[post ->]|(pre & post & ->)].
      * by exists [], post.
      * by exists (c :: pre), post.
    + intros ([|x pre] & post & H); simpl in H.
      * left. eauto.
      * injection H as -> ->. right. eauto.
Qed.

(** *** The order of the dict *)

Lemma manager_after_snoc calls c :
  manager_after (calls ++ [c]) = step (manager_after calls) c.
Proof. unfold manager_after. by rewrite foldl_app. Qed.

Lemma store_manager_after calls : store (manager_after calls) = run calls.
Proof.
  induction calls as [|c calls IH] using rev_ind; [done|].
  rewrite manager_after_snoc, run_snoc. simpl. by rewrite IH.
Qed.

Lemma existsb_eqb_elem (k : string) keys :
  existsb (String.eqb k) keys = true <-> k ∈ keys.
Proof.
  rewrite existsb_exists, list_elem_of_In. split.
  - intros (x & Hx & He). by apply String.eqb_eq in He as ->.
  - intros Hk. exists k. split; [done | apply String.eqb_refl].
Qed.

Lemma NoDup_list_filter {A} (f : A -> bool) (l : list A) :
  NoDup l -> NoDup (List.filter f l).
Proof. rewrite !NoDup_ListNoDup. apply List.NoDup_filter. Qed.

(** The keys of the dict after a call. *)
Lemma perform_domain st c k :
  is_Some (conversations (perform st c) !! k) <->
  match c with
  | CreateConversation new_id _ _ =>
      k = new_id \/ is_Some (conversations st !! k)
  | CleanupOldConversations current_time =>
      is_Some (conversations
                 (snd (cleanup_old_conversations st current_time)) !! k)
  | _ => is_Some (conversations st !! k)
  end.
Proof.
  destruct c; cbn [perform]; [| | | | | |done|].
  - unfold create_conversation. simpl.
    destruct (decide (k = new_id)) as [->|Hne].
    + rewrite lookup_insert_eq. split; [by left | by eauto].
    + rewrite lookup_insert_ne by done. split; [by right|].
      by intros [?|?].
  - unfold add_message. destruct (conversations st !! cid) eqn:E; [|done].
    simpl. destruct (decide (k = cid)) as [->|Hne].
    + rewrite lookup_insert_eq, E. split; eauto.
    + by rewrite lookup_insert_ne.
  - unfold update_context.
    destruct (conversations st !! cid) eqn:E; [|done].
    simpl. destruct (decide (k = cid)) as [->|Hne].
    + rewrite lookup_insert_eq, E. split; eauto.
    + by rewrite lookup_insert_ne.
  - unfold set_user_info.
    destruct (conversations st !! cid) eqn:E; [|done].
    simpl. destruct (decide (k = cid)) as [->|Hne].
    + rewrite lookup_insert_eq, E. split; eauto.
    + by rewrite lookup_insert_ne.
  - unfold escalate_conversation, add_message.
    destruct (conversations st !! cid) eqn:E; [|done].
    simpl. rewrite lookup_insert_eq. simpl.
    destruct (decide (k = cid)) as [->|Hne].
    + rewrite lookup_insert_eq, E. split; eauto.
    + by rewrite !lookup_insert_ne.
  - unfold resolve_conversation.
    destruct (conversations st !! cid) eqn:E; [|done].
    simpl. destruct (decide (k = cid)) as [->|Hne].
    + rewrite lookup_insert_eq, E. split; eauto.
    + by rewrite lookup_insert_ne.
  - unfold export_conversation.
    destruct (conversations st !! cid) eqn:E; [|done].
    by destruct (isoformat_messages _ _).
Qed.

(** The order lists each key of the dict once. *)
Lemma key_order_spec calls :
  NoDup (key_order (manager_after calls))
  /\ forall k, k ∈ key_order (manager_after calls)
               <-> is_Some (conversations (run calls) !! k).
Proof.
  induction calls as [|c calls [IHnd IHin]] using rev_ind.
  - split; [constructor|]. intros k. unfold run. simpl.
    rewrite lookup_empty. split; [by intros ?%elem_of_nil|].
    by intros [? ?].
  - rewrite manager_after_snoc, run_snoc. cbn [step key_order].
    rewrite store_manager_after.
    set (keys := key_order (manager_after calls)) in *.
    assert (Hsame : keys_after (run calls) keys c = keys ->
                    (forall k, is_Some (conversations
                                          (perform (run calls) c) !! k)
                               <-> is_Some (conversations (run calls) !! k))
                    -> NoDup (keys_after (run calls) keys c)
                       /\ forall k, k ∈ keys_after (run calls) keys c
                                    <-> is_Some (conversations
                                                   (perform (run calls) c)
                                                   !! k)).
    { intros -> Hdom. split; [done|]. intros k. by rewrite Hdom, IHin. }
    destruct c;
      [| apply Hsame; [reflexivity | intros k; exact (perform_domain _ _ k)]..
       | | apply Hsame;
           [reflexivity | intros k; exact (perform_domain _ _ k)]].
    + cbn [keys_after].
      destruct (existsb (String.eqb new_id) keys) eqn:Hex.
      * apply existsb_eqb_elem in Hex. split; [done|]. intros k.
        rewrite perform_domain, IHin. split; [by right|].
        intros [->|Hk]; [by apply IHin | done].
      * assert (Hnew : new_id ∉ keys).
        { intros Hk. apply existsb_eqb_elem in Hk. congruence. }
        split.
        -- apply NoDup_app. split; [done|]. split.
           ++ intros x Hx Hx'. by apply list_elem_of_singleton in Hx' as ->.
           ++ apply NoDup_singleton.
        -- intros k. rewrite perform_domain, elem_of_app, IHin.
           rewrite list_elem_of_singleton. tauto.
    + cbn [keys_after]. split.
      * by apply NoDup_list_filter.
      * intros k. rewrite perform_domain.
        rewrite list_elem_of_In, filter_In, <- list_elem_of_In, IHin.
        rewrite cleanup_lookup.
        destruct (conversations (run calls) !! k) as [conv|]; simpl.
        -- destruct (_ >? _).
           ++ split; [by intros [_ ?] | by intros [? ?]].
           ++ split; [by eexists|]. intros _. split; [by eexists | done].
        -- split; [by intros [[? ?] _] | by intros [? ?]].
Qed.

(** [values()] lists the conversations of the store. *)
Lemma dict_values_spec calls conv :
  conv ∈ dict_values (manager_after calls)
  <-> exists cid, conversations (run calls) !! cid = Some conv.
Proof.
  unfold dict_values. rewrite list_elem_of_omap, store_manager_after.
  destruct (key_order_spec calls) as [_ Hin]. split.
  - intros (k & _ & Hk). eauto.
  - intros (k & Hk). exists k. split; [|done]. apply Hin. by eexists.
Qed.

(** *** Summaries *)

(** What a summary that was returned tells of the conversation. *)
Lemma summary_shape st cid conv x :
  conversations st !! cid = Some conv ->
  get_conversation_summary st cid = Ok x ->
  exists s,
    x = Some s
    /\ s_conversation_id s = cid
    /\ s_resolved s = resolved conv
    /\ s_last_activity s = last_activity conv
    /\ s_message_count s = length (fetch (objects st) (messages conv)).
Proof.
  intros Hc. unfold get_conversation_summary. rewrite Hc.
  destruct (match fetch (objects st) (messages conv) with
            | [] => _ | _ => _ end) as [d|e]; simpl; [|done].
  intros [= <-]. eexists. split; [reflexivity|]. done.
Qed.

(** Without an export the summary of a known id is returned. *)
Lemma summary_returns calls cid conv :
  never_exported calls = true ->
  conversations (run calls) !! cid = Some conv ->
  exists x, get_conversation_summary (run calls) cid = Ok x.
Proof.
  intros Hne Hc. unfold get_conversation_summary. rewrite Hc.
  pose proof (datetimes_only_run calls Hne) as Hdt.
  set (msgs := fetch (objects (run calls)) (messages conv)).
  assert (Hts : forall m, m ∈ msgs -> exists t, timestamp m = AsDatetime t).
  { intros m Hm. unfold msgs, fetch in Hm.
    apply list_elem_of_omap in Hm as (r & _ & Hr). by eapply Hdt. }
  destruct msgs as [|first rest] eqn:Hmsgs; [by eexists|].
  destruct (Hts first) as [t1 Ht1]; [apply list_elem_of_here|].
  destruct (Hts (List.last (first :: rest) first)) as [t2 Ht2].
  { apply list_elem_of_In.
    destruct (exists_last (l := first :: rest)) as (l' & x & ->); [done|].
    rewrite last_last. apply in_or_app. right. by left. }
  cbn [bind]. rewrite Ht1, Ht2. cbn [elapsed bind]. by eexists.
Qed.

(** *** The two loops *)

Lemma active_loop_spec st current_time values :
  forall active listed,
    active_loop st current_time values active = Ok listed ->
    exists found,
      listed = active ++ found
      /\ Forall2
           (fun conv x =>
              get_conversation_summary st (conversation_id conv) = Ok x)
           (List.filter (is_active st current_time) values) found.
Proof.
  induction values as [|c values IH]; intros active listed; simpl.
  - intros [= <-]. exists []. by rewrite app_nil_r.
  - destruct (is_active st current_time c).
    + destruct (get_conversation_summary st (conversation_id c))
        as [x|e] eqn:Hs; [|done]. cbn [bind]. intros Hrec.
      apply IH in Hrec as (found & -> & Hall).
      exists (x :: found). rewrite <- app_assoc. split; [done|].
      by constructor.
    + apply IH.
Qed.

Lemma active_loop_returns st current_time values :
  (forall conv, conv ∈ values ->
     exists x, get_conversation_summary st (conversation_id conv) = Ok x) ->
  forall active,
    exists listed, active_loop st current_time values active = Ok listed.
Proof.
  induction values as [|c values IH]; intros Hall active; simpl.
  - by eexists.
  - assert (Hrest : forall conv, conv ∈ values ->
              exists x,
                get_conversation_summary st (conversation_id conv) = Ok x).
    { intros conv Hc. by apply Hall, list_elem_of_further. }
    destruct (is_active st current_time c); [|by apply IH].
    destruct (Hall c) as [x ->]; [apply list_elem_of_here|]. cbn [bind].
    by apply IH.
Qed.

(** What the loop of [search_conversations] adds to [results]: the
    summaries of the first conversations with a hit, as many as the limit
    leaves room for, and one at least. *)
Lemma search_loop_spec st query_lower limit values :
  forall results out,
    search_loop st query_lower limit values results = Ok out ->
    exists found,
      out = results ++ found
      /\ Forall2
           (fun conv x =>
              get_conversation_summary st (conversation_id conv) = Ok x)
           (take (Z.to_nat (Z.max (limit - Z.of_nat (length results)) 1))
              (List.filter
                 (fun conv =>
                    existsb (mentions query_lower)
                      (fetch (objects st) (messages conv)))
                 values))
           found.
Proof.
  induction values as [|c values IH]; intros results out; simpl.
  - intros [= <-]. exists []. rewrite app_nil_r. split; [done|].
    rewrite take_nil. constructor.
  - destruct (existsb _ _) eqn:Hm; [|apply IH].
    destruct (get_conversation_summary st (conversation_id c))
      as [x|e] eqn:Hs; [|done]. cbn [bind].
    rewrite length_app. simpl.
    destruct (Z.geb_spec (Z.of_nat (length results + 1)) limit)
      as [Hfull|Hroom].
    + intros [= <-]. exists [x]. split; [done|].
      replace (Z.to_nat (Z.max (limit - Z.of_nat (length results)) 1))
        with 1%nat by lia.
      simpl. rewrite take_0. by repeat constructor.
    + intros Hrec. apply IH in Hrec as (found & -> & Hall).
      exists (x :: found). rewrite <- app_assoc. split; [done|].
      rewrite length_app in Hall. simpl in Hall.
      replace (Z.to_nat (Z.max (limit - Z.of_nat (length results)) 1))
        with (S (Z.to_nat
                   (Z.max (limit - Z.of_nat (length results + 1)) 1)))
        by lia.
      simpl. by constructor.
Qed.

Lemma search_loop_returns st query_lower limit values :
  (forall conv, conv ∈ values ->
     exists x, get_conversation_summary st (conversation_id conv) = Ok x) ->
  forall results,
    exists out, search_loop st query_lower limit values results = Ok out.
Proof.
  induction values as [|c values IH]; intros Hall results; simpl.
  - by eexists.
  - assert (Hrest : forall conv, conv ∈ values ->
              exists x,
                get_conversation_summary st (conversation_id conv) = Ok x).
    { intros conv Hc. by apply Hall, list_elem_of_further. }
    destruct (existsb _ _); [|by apply IH].
    destruct (Hall c) as [x ->]; [apply list_elem_of_here|]. cbn [bind].
    destruct (_ >=? _); [by eexists | by apply IH].
Qed.

(** The conversations [values()] lists are stored under their own id, and
    without an export their summaries are returned. *)
Lemma dict_values_stored calls conv :
  conv ∈ dict_values (manager_after calls) ->
  conversations (run calls) !! conversation_id conv = Some conv.
Proof.
  intros Hc. apply dict_values_spec in Hc as [cid Hc].
  destruct (well_formed_run calls) as [Hown _].
  destruct (Hown _ _ Hc) as (-> & _). done.
Qed.

End QueryFacts.

Module QueryClaims.
Import Py Datetime ConversationManager EntityExtractor Session StoreShape
  ConversationQueries StoreFacts QueryFacts.

(** X7: [search_conversations] goes through the conversations in the order
    of the dict, which lists each conversation of the store once.  When it
    returns, its results are the summaries of the first conversations one of
    whose messages contains the query, letter case aside: as many as the
    limit, and one when the limit is below 1, since the length is tested
    after a summary is appended.  On a manager on which
    [export_conversation] was never called it returns. *)
Theorem search_conversations_finds_mentions
    (calls : list call) (query : string) (limit : option Z) :
  let m := manager_after calls in
  let has_hit (conv : Conversation) :=
    existsb (mentions (lower query))
      (fetch (objects (run calls)) (messages conv)) in
  let hits :=
    take (Z.to_nat (Z.max (default 10 limit) 1))
         (List.filter has_hit (dict_values m)) in
  store m = run calls
  /\ (forall conv,
        conv ∈ dict_values m
        <-> exists cid, conversations (run calls) !! cid = Some conv)
  /\ (forall conv,
        has_hit conv = true
        <-> exists r msg pre post,
              r ∈ messages conv
              /\ objects (run calls) !! r = Some msg
              /\ list_ascii_of_string (lower (content msg))
                 = pre ++ list_ascii_of_string (lower query) ++ post)
  /\ (forall results,
        search_conversations m query limit = Ok results ->
        Forall2
          (fun conv x =>
             get_conversation_summary (run calls) (conversation_id conv)
             = Ok x
             /\ exists s, x = Some s
                          /\ s_conversation_id s = conversation_id conv)
          hits results)
  /\ (never_exported calls = true ->
      exists results, search_conversations m query limit = Ok results).
Proof.
  intros m has_hit hits.
  assert (Hst : store m = run calls) by apply store_manager_after.
  split; [done|]. split; [intros conv; apply dict_values_spec|].
  split; [|split].
  - intros conv. unfold has_hit. rewrite existsb_exists. split.
    + intros (msg & Hmem & Hm). apply list_elem_of_In in Hmem.
      unfold fetch in Hmem.
      apply list_elem_of_omap in Hmem as (r & Hr & Hobj).
      apply occurs_in_spec in Hm as (pre & post & Hm).
      by exists r, msg, pre, post.
    + intros (r & msg & pre & post & Hr & Hobj & Hm). exists msg. split.
      * apply list_elem_of_In. unfold fetch. apply list_elem_of_omap.
        eauto.
      * apply occurs_in_spec. eauto.
  - intros results Hs. unfold search_conversations in Hs.
    rewrite Hst in Hs.
    apply search_loop_spec in Hs as (found & -> & Hall).
    simpl in Hall |- *. rewrite Z.sub_0_r in Hall.
    fold has_hit in Hall. fold hits in Hall.
    assert (Hin : Forall (fun conv => conv ∈ dict_values m) hits).
    { apply Forall_forall. intros conv Hc.
      unfold hits in Hc. apply elem_of_take in Hc as (i & Hc & _).
      apply list_elem_of_lookup_2, list_elem_of_In, filter_In in Hc
        as [Hc _].
      by apply list_elem_of_In. }
    clearbody hits. induction Hall as [|conv x hits found Hx Hall IH];
      [constructor|].
    apply Forall_cons in Hin as [Hconv Hin].
    constructor; [|by apply IH]. split; [done|].
    apply dict_values_stored in Hconv.
    destruct (summary_shape _ _ _ _ Hconv Hx) as (s & -> & Hid & _).
    by exists s.
  - intros Hne. unfold search_conversations. rewrite Hst.
    apply search_loop_returns. intros conv Hc.
    apply dict_values_stored in Hc. by eapply summary_returns.
Qed.

Lemma search_conversations_finds_mentions_witness :
  let calls :=
    [CreateConversation "a07d" 0 0;
     CreateConversation "4f1c" 1 1;
     AddMessage "a07d" "user" "Where is my ORDER?" None "9a2e" 5 5;
     AddMessage "4f1c" "user" "order status please" None "0c3d" 6 6] in
  exists results x,
    search_conversations (manager_after calls) "Order" (Some 0) = Ok results
    /\ results = [x]
    /\ get_conversation_summary (run calls) "a07d" = Ok x.
Proof.
  intros calls.
  destruct (search_conversations_finds_mentions calls "Order" (Some 0))
    as (_ & _ & _ & Hall & Hreturns).
  destruct (Hreturns eq_refl) as [results Hs].
  specialize (Hall results Hs). vm_compute take in Hall.
  apply Forall2_cons_inv_l in Hall as (x & rest & [Hx _] & Hrest & ->).
  apply Forall2_nil_inv_l in Hrest as ->.
  exists [x], x. split; [exact Hs|]. split; [reflexivity | exact Hx].
Defined.

(** Two conversations mention an order; the second one created has the
    smaller id.  A search with the limit 0 returns the summary of the one
    created first. *)
Example search_conversations_follows_creation :
  let calls :=
    [CreateConversation "a07d" 0 0;
     CreateConversation "4f1c" 1 1;
     AddMessage "a07d" "user" "Where is my ORDER?" None "9a2e" 5 5;
     AddMessage "4f1c" "user" "order status please" None "0c3d" 6 6] in
  key_order (manager_after calls) = ["a07d"; "4f1c"]
  /\ bind (search_conversations (manager_after calls) "Order" (Some 0))
          (fun results => Ok (map (option_map s_conversation_id) results))
     = Ok [Some "a07d"]
  /\ bind (search_conversations (manager_after calls) "Order" None)
          (fun results => Ok (map (option_map s_conversation_id) results))
     = Ok [Some "a07d"; Some "4f1c"].
Proof. vm_compute. repeat split; reflexivity. Qed.

(** X8: A conversation that [get_active_conversations] would list at some time
    is kept by a sweep at that time, and one the sweep removes is not
    listed; a conversation idle for exactly [max_conversation_age] is
    neither listed nor removed. *)
Theorem active_conversations_survive_the_sweep
    (st : Store) (cid : string) (conv : Conversation)
    (current_time : datetime) :
  conversations st !! cid = Some conv ->
  let swept := snd (cleanup_old_conversations st current_time) in
  (is_active st current_time conv = true ->
   conversations swept !! cid = Some conv)
  /\ (conversations swept !! cid = None ->
      is_active st current_time conv = false)
  /\ (current_time - last_activity conv = max_conversation_age st ->
      is_active st current_time conv = false
      /\ conversations swept !! cid = Some conv).
Proof.
  intros Hc swept. unfold swept. rewrite cleanup_lookup, Hc.
  unfold is_active. rewrite Z.gtb_ltb.
  destruct (Z.ltb_spec (max_conversation_age st)
              (current_time - last_activity conv)) as [Hgt|Hle];
    destruct (Z.ltb_spec (current_time - last_activity conv)
                (max_conversation_age st)) as [Hlt|Hge];
    rewrite ?andb_false_r; repeat split; try done; try lia.
Qed.

Lemma active_conversations_survive_the_sweep_witness :
  let st := Session.run [Session.CreateConversation "4f1c" 0 0] in
  (exists conv, conversations st !! "4f1c" = Some conv
                /\ is_active st (hours 24) conv = false)
  /\ is_Some (conversations (snd (cleanup_old_conversations st (hours 24)))
                !! "4f1c").
Proof.
  intros st.
  destruct (conversations st !! "4f1c") as [conv|] eqn:Hc;
    [|vm_compute in Hc; discriminate Hc].
  destruct (active_conversations_survive_the_sweep st "4f1c" conv (hours 24)
              Hc) as (_ & _ & Hedge).
  assert (Hidle : hours 24 - last_activity conv = max_conversation_age st).
  { vm_compute in Hc. injection Hc as <-. reflexivity. }
  destruct (Hedge Hidle) as [Hno Hkept].
  split; [exists conv; split; [reflexivity | exact Hno]|].
  rewrite Hkept. exists conv. reflexivity.
Defined.

(** X9: [get_active_conversations] goes through the conversations in the
    order of the dict, which lists each key of the store once, in the order
    of the first [create_conversation] of each.  When it returns, its list
    holds, in that order, the summaries of the conversations that are not
    resolved and whose last activity is less than 24 hours before the
    current time; an escalated conversation counts.  On a manager on which
    [export_conversation] was never called it returns. *)
Theorem get_active_conversations_lists_the_active
    (calls : list call) (current_time : datetime) :
  let m := manager_after calls in
  let active :=
    List.filter
      (fun conv =>
         negb (resolved conv)
         && (current_time - last_activity conv <? hours 24))
      (dict_values m) in
  store m = run calls
  /\ NoDup (key_order m)
  /\ (forall cid,
        cid ∈ key_order m <-> is_Some (conversations (run calls) !! cid))
  /\ (forall new_id t_created t_activity,
        key_order (manager_after
                     (calls ++ [CreateConversation new_id t_created
                                  t_activity]))
        = if decide (new_id ∈ key_order m) then key_order m
          else key_order m ++ [new_id])
  /\ (forall listed,
        get_active_conversations m current_time = Ok listed ->
        Forall2
          (fun conv x =>
             get_conversation_summary (run calls) (conversation_id conv)
             = Ok x
             /\ exists s, x = Some s
                          /\ s_conversation_id s = conversation_id conv
                          /\ s_resolved s = false
                          /\ s_last_activity s = last_activity conv)
          active listed)
  /\ (never_exported calls = true ->
      exists listed, get_active_conversations m current_time = Ok listed).
Proof.
  intros m active.
  assert (Hst : store m = run calls) by apply store_manager_after.
  destruct (key_order_spec calls) as [Hnd Hkeys].
  split; [done|]. split; [done|]. split; [done|]. split; [|split].
  - intros new_id t1 t2. rewrite manager_after_snoc. cbn [step key_order].
    fold m. cbn [keys_after].
    destruct (existsb (String.eqb new_id) (key_order m)) eqn:Hex.
    + apply existsb_eqb_elem in Hex. by rewrite decide_True.
    + rewrite decide_False; [done|]. intros Hk.
      apply existsb_eqb_elem in Hk. congruence.
  - intros listed Hs. unfold get_active_conversations in Hs.
    rewrite Hst in Hs. apply active_loop_spec in Hs as (found & -> & Hall).
    simpl. unfold is_active in Hall. rewrite run_max_age in Hall.
    fold active in Hall.
    assert (Hin : Forall (fun conv => conv ∈ dict_values m
                                      /\ resolved conv = false) active).
    { apply Forall_forall. intros conv Hc.
      apply list_elem_of_In, filter_In in Hc as [Hc Hact].
      apply andb_true_iff in Hact as [Hres _].
      apply negb_true_iff in Hres. split; [by apply list_elem_of_In|done]. }
    clearbody active. induction Hall as [|conv x active found Hx Hall IH];
      [constructor|].
    apply Forall_cons in Hin as [[Hconv Hres] Hin].
    constructor; [|by apply IH]. split; [done|].
    apply dict_values_stored in Hconv.
    destruct (summary_shape _ _ _ _ Hconv Hx)
      as (s & -> & Hid & Hr & Hla & _).
    exists s. rewrite Hr. done.
  - intros Hne. unfold get_active_conversations. rewrite Hst.
    apply active_loop_returns. intros conv Hc.
    apply dict_values_stored in Hc. by eapply summary_returns.
Qed.

Lemma get_active_conversations_lists_the_active_witness :
  let calls :=
    [CreateConversation "c52a" 0 0;
     CreateConversation "b11e" (hours 30) (hours 30);
     CreateConversation "4f1c" (hours 30) (hours 30);
     CreateConversation "a07d" (hours 30) (hours 30);
     ResolveConversation "a07d" None (hours 30)] in
  exists listed x y,
    get_active_conversations (manager_after calls) (hours 31) = Ok listed
    /\ listed = [x; y]
    /\ get_conversation_summary (run calls) "b11e" = Ok x
    /\ get_conversation_summary (run calls) "4f1c" = Ok y.
Proof.
  intros calls.
  destruct (get_active_conversations_lists_the_active calls (hours 31))
    as (_ & _ & _ & _ & Hall & Hreturns).
  destruct (Hreturns eq_refl) as [listed Hs].
  specialize (Hall listed Hs). vm_compute List.filter in Hall.
  apply Forall2_cons_inv_l in Hall as (x & rest & [Hx _] & Hrest & ->).
  apply Forall2_cons_inv_l in Hrest as (y & rest' & [Hy _] & Hrest & ->).
  apply Forall2_nil_inv_l in Hrest as ->.
  exists [x; y], x, y. split; [exact Hs|]. split; [reflexivity|].
  split; [exact Hx | exact Hy].
Defined.

(** Four conversations, created in an order that is not that of their
    ids: the first is idle for more than a day at hour 31, the last is
    resolved, and the other two are listed in the order of their
    creation. *)
Example get_active_conversations_follows_creation :
  let calls :=
    [CreateConversation "c52a" 0 0;
     CreateConversation "b11e" (hours 30) (hours 30);
     CreateConversation "4f1c" (hours 30) (hours 30);
     CreateConversation "a07d" (hours 30) (hours 30);
     ResolveConversation "a07d" None (hours 30)] in
  key_order (manager_after calls) = ["c52a"; "b11e"; "4f1c"; "a07d"]
  /\ bind (get_active_conversations (manager_after calls) (hours 31))
          (fun listed => Ok (map (option_map s_conversation_id) listed))
     = Ok [Some "b11e"; Some "4f1c"]
  /\ key_order
       (manager_after (calls ++ [CleanupOldConversations (hours 31);
                                 CreateConversation "0e9b" (hours 31)
                                   (hours 31)]))
     = ["b11e"; "4f1c"; "a07d"; "0e9b"].
Proof. vm_compute. repeat split; reflexivity. Qed.

End QueryClaims.
(** ** The matcher against the language of a pattern *)

Module LanguageFacts.
Import Py Regex RegexLanguage.

Lemma within_under hi count :
  under hi count = true -> within hi (S count).
Proof.
  destruct hi as [h|]; simpl; [|done].
  intros H. apply Nat.ltb_lt in H. lia.
Qed.

Section Sound.
Context {R : Type} (ic : bool).

(** A loop that succeeds has read some pieces of its body, within the
    bounds, and handed the position after them to the rest of the
    pattern. *)
Lemma repeat_loop_sound body_re lo hi (k : mstate -> option R) :
  (forall st (k' : mstate -> option R) res,
      run ic body_re st k' = Some res ->
      exists s st', rest st = s ++ rest st'
                    /\ pos st' = (pos st + length s)%nat
                    /\ lang ic body_re s /\ k' st' = Some res) ->
  forall fuel count cur res,
    within hi count ->
    repeat_loop (run ic body_re) lo hi k fuel count cur = Some res ->
    exists pieces st',
      rest cur = concat pieces ++ rest st'
      /\ pos st' = (pos cur + length (concat pieces))%nat
      /\ Forall (fun p => p <> [] /\ lang ic body_re p) pieces
      /\ (lo <= count + length pieces)%nat
      /\ within hi (count + length pieces)
      /\ k st' = Some res.
Proof.
  intros Hbody. induction fuel as [|fuel IH]; intros count cur res Hin.
  - simpl. destruct (Nat.leb_spec lo count) as [Hlo|]; [|done].
    intros Hk. exists [], cur. simpl. rewrite !Nat.add_0_r.
    repeat split; [constructor | lia | exact Hin | exact Hk].
  - assert (Hstop : (if (lo <=? count)%nat then k cur else None)
                    = Some res ->
            exists pieces st',
              rest cur = concat pieces ++ rest st'
              /\ pos st' = (pos cur + length (concat pieces))%nat
              /\ Forall (fun p => p <> [] /\ lang ic body_re p) pieces
              /\ (lo <= count + length pieces)%nat
              /\ within hi (count + length pieces)
              /\ k st' = Some res).
    { destruct (Nat.leb_spec lo count) as [Hlo|]; [|done].
      intros Hk. exists [], cur. simpl. rewrite !Nat.add_0_r.
      repeat split; [constructor | lia | exact Hin | exact Hk]. }
    cbn [repeat_loop].
    destruct (under hi count) eqn:Hu; [|exact Hstop].
    destruct (run ic body_re cur _) as [res0|] eqn:E; [|exact Hstop].
    intros [= ->].
    apply Hbody in E as (s & st1 & Hrest & Hpos & Hs & E).
    destruct (Nat.ltb_spec (pos cur) (pos st1)) as [Hlt|]; [|done].
    apply IH in E as (pieces & st2 & Hrest2 & Hpos2 & Hall & Hlo & Hhi & E);
      [|by apply within_under].
    exists (s :: pieces), st2. simpl.
    rewrite length_app, <- app_assoc, <- Hrest2.
    repeat split.
    + exact Hrest.
    + lia.
    + constructor; [|exact Hall]. split; [|exact Hs].
      intros ->. simpl in Hpos. lia.
    + lia.
    + by rewrite <- Nat.add_succ_comm.
    + exact E.
Qed.

(** A match of [r] has read a string of its language. *)
Lemma run_sound r :
  forall st (k : mstate -> option R) res,
    run ic r st k = Some res ->
    exists s st', rest st = s ++ rest st'
                  /\ pos st' = (pos st + length s)%nat
                  /\ lang ic r s /\ k st' = Some res.
Proof.
  induction r as [|x|items| | |r1 IH1 r2 IH2|r1 IH1 r2 IH2
                  |body IH lo hi|i body IH]; intros st k res.
  - simpl. intros Hk. exists [], st. by rewrite Nat.add_0_r.
  - simpl. destruct (rest st) as [|c tl]; [done|].
    destruct (chr_matches ic x c) eqn:Hc; [|done].
    intros Hk. exists [c], (advance st c tl). simpl.
    repeat split; [lia | by exists c | exact Hk].
  - simpl. destruct (rest st) as [|c tl]; [done|].
    destruct (class_matches ic items c) eqn:Hc; [|done].
    intros Hk. exists [c], (advance st c tl). simpl.
    repeat split; [lia | by exists c | exact Hk].
  - simpl. destruct (rest st) as [|c tl]; [done|].
    destruct (is_digit c) eqn:Hc; [|done].
    intros Hk. exists [c], (advance st c tl). simpl.
    repeat split; [lia | by exists c | exact Hk].
  - simpl. destruct (at_boundary st); [|done].
    intros Hk. exists [], st. by rewrite Nat.add_0_r.
  - cbn [run]. intros Hr.
    apply IH1 in Hr as (s1 & st1 & Hrest1 & Hpos1 & Hs1 & Hr).
    apply IH2 in Hr as (s2 & st2 & Hrest2 & Hpos2 & Hs2 & Hr).
    exists (s1 ++ s2), st2. rewrite length_app, <- app_assoc, <- Hrest2.
    repeat split; [exact Hrest1 | lia | | exact Hr].
    cbn [lang]. by exists s1, s2.
  - cbn [run]. destruct (run ic r1 st k) as [res1|] eqn:E.
    + intros [= ->].
      apply IH1 in E as (s & st1 & Hrest & Hpos & Hs & E).
      exists s, st1. repeat split; [done | done | by left | done].
    + intros Hr.
      apply IH2 in Hr as (s & st1 & Hrest & Hpos & Hs & Hr).
      exists s, st1. repeat split; [done | done | by right | done].
  - cbn [run]. intros Hr.
    apply (repeat_loop_sound body lo hi k IH) in Hr
      as (pieces & st1 & Hrest & Hpos & Hall & Hlo & Hhi & Hr).
    + exists (concat pieces), st1.
      repeat split; [done | done | | done].
      cbn [lang]. exists pieces. by repeat split.
    + destruct hi; simpl; [lia | done].
  - cbn [run]. intros Hr.
    apply IH in Hr as (s & st1 & Hrest & Hpos & Hs & Hr).
    exists s, (close_group i (pos st) st1). by repeat split.
Qed.

End Sound.

(** *** Reading characters *)

Lemma read_nil st : read 0 st = st.
Proof. done. Qed.

Lemma read_S n st : read (S n) st = read n (step st).
Proof. unfold read. by rewrite Nat.iter_succ_r. Qed.

Lemma step_cons st c tl : rest st = c :: tl -> step st = advance st c tl.
Proof. unfold step. by intros ->. Qed.

Lemma read_app s : forall st tl,
  rest st = s ++ tl ->
  rest (read (length s) st) = tl
  /\ pos (read (length s) st) = (pos st + length s)%nat.
Proof.
  induction s as [|c s IH]; intros st tl Hrest.
  - simpl. rewrite Nat.add_0_r. done.
  - cbn [length]. rewrite read_S, (step_cons st c (s ++ tl)) by done.
    destruct (IH (advance st c (s ++ tl)) tl) as [Hr Hp]; [done|].
    split; [exact Hr|]. rewrite Hp. simpl. lia.
Qed.

Lemma read_add a b st : read (a + b) st = read b (read a st).
Proof.
  revert st. induction a as [|a IH]; intros st; [done|].
  by rewrite Nat.add_succ_l, !read_S, IH.
Qed.

Section Complete.
Context {R : Type} (ic : bool).

Lemma repeat_loop_complete body_re lo hi (k : mstate -> option R) :
  (forall s st tl (k' : mstate -> option R),
      lang ic body_re s -> rest st = s ++ tl ->
      is_Some (k' (read (length s) st)) ->
      is_Some (run ic body_re st k')) ->
  forall pieces fuel count cur tl,
    Forall (fun p => p <> [] /\ lang ic body_re p) pieces ->
    rest cur = concat pieces ++ tl ->
    (length (concat pieces) < fuel)%nat ->
    (lo <= count + length pieces)%nat ->
    within hi (count + length pieces) ->
    is_Some (k (read (length (concat pieces)) cur)) ->
    is_Some (repeat_loop (run ic body_re) lo hi k fuel count cur).
Proof.
  intros Hbody.
  induction pieces as [|p pieces IH];
    intros fuel count cur tl Hall Hrest Hfuel Hlo Hhi Hk.
  - simpl in *. rewrite Nat.add_0_r in Hlo.
    assert (Hstop : is_Some (if (lo <=? count)%nat then k cur else None)).
    { destruct (Nat.leb_spec lo count); [done | lia]. }
    destruct fuel as [|fuel]; [lia|]. cbn [repeat_loop].
    destruct (under hi count); [|exact Hstop].
    destruct (run ic body_re cur _); [eauto | exact Hstop].
  - apply Forall_cons in Hall as [[Hne Hp] Hall].
    simpl in Hrest, Hfuel, Hk, Hlo, Hhi.
    rewrite length_app in Hfuel, Hk. rewrite <- app_assoc in Hrest.
    destruct fuel as [|fuel]; [lia|]. cbn [repeat_loop].
    assert (Hu : under hi count = true).
    { destruct hi as [h|]; simpl in *; [|done]. apply Nat.ltb_lt. lia. }
    rewrite Hu.
    destruct (read_app p cur _ Hrest) as [Hr1 Hp1].
    assert (Hlen : (0 < length p)%nat).
    { destruct p; [done | simpl; lia]. }
    destruct (Hbody p cur (concat pieces ++ tl)
                (fun nxt => if (pos cur <? pos nxt)%nat
                            then repeat_loop (run ic body_re) lo hi k fuel
                                   (S count) nxt
                            else None) Hp Hrest) as [res Hres].
    + destruct (Nat.ltb_spec (pos cur) (pos (read (length p) cur)));
        [|lia].
      apply (IH fuel (S count) _ tl Hall Hr1); [lia | lia | |].
      * by rewrite Nat.add_succ_comm.
      * by rewrite <- read_add.
    + rewrite Hres. eauto.
Qed.

(** Without word boundary, the matcher finds a match whenever some
    prefix of the text is in the language of the pattern and the rest of
    the pattern accepts the position after it. *)
Lemma run_complete r :
  plain r = true ->
  forall s st tl (k : mstate -> option R),
    lang ic r s -> rest st = s ++ tl ->
    is_Some (k (read (length s) st)) ->
    is_Some (run ic r st k).
Proof.
  induction r as [|x|items| | |r1 IH1 r2 IH2|r1 IH1 r2 IH2
                  |body IH lo hi|i body IH]; intros Hplain s st tl k.
  - simpl. by intros ->.
  - intros (c & -> & Hc) Hrest. simpl in Hrest. simpl.
    rewrite Hrest, Hc. by rewrite (step_cons _ _ _ Hrest).
  - intros (c & -> & Hc) Hrest. simpl in Hrest. simpl.
    rewrite Hrest, Hc. by rewrite (step_cons _ _ _ Hrest).
  - intros (c & -> & Hc) Hrest. simpl in Hrest. simpl.
    rewrite Hrest, Hc. by rewrite (step_cons _ _ _ Hrest).
  - done.
  - cbn [plain] in Hplain. apply andb_true_iff in Hplain as [Hp1 Hp2].
    cbn [lang run]. intros (s1 & s2 & -> & Hs1 & Hs2) Hrest Hk.
    rewrite <- app_assoc in Hrest.
    apply (IH1 Hp1 s1 st (s2 ++ tl)); [done | done|].
    destruct (read_app s1 st _ Hrest) as [Hr1 _].
    apply (IH2 Hp2 s2 _ tl); [done | done|].
    by rewrite <- read_add, <- length_app.
  - cbn [plain] in Hplain. apply andb_true_iff in Hplain as [Hp1 Hp2].
    cbn [lang run]. intros [Hs|Hs] Hrest Hk.
    + destruct (IH1 Hp1 s st tl k Hs Hrest Hk) as [res ->]. eauto.
    + destruct (run ic r1 st k); [eauto|]. by apply (IH2 Hp2 s st tl).
  - cbn [plain] in Hplain. cbn [lang run].
    intros (pieces & -> & Hall & Hlo & Hhi) Hrest Hk.
    apply (repeat_loop_complete body lo hi k (IH Hplain) pieces _ _ _ tl);
      [done | done | | done | done | done].
    rewrite Hrest, length_app. lia.
  - done.
Qed.

End Complete.

(** *** Repetitions of one character *)

Lemma concat_singletons (s : list ascii) :
  concat (map (fun c => [c]) s) = s.
Proof. induction s as [|c s IH]; simpl; by rewrite ?IH. Qed.

Lemma lang_repeat_chars ic body (test : ascii -> bool) lo hi s :
  (forall p, lang ic body p <-> exists c, p = [c] /\ test c = true) ->
  lang ic (Repeat body lo hi) s
  <-> Forall (fun c => test c = true) s
      /\ (lo <= length s)%nat /\ within hi (length s).
Proof.
  intros Hbody. cbn [lang]. split.
  - intros (pieces & -> & Hall & Hlo & Hhi).
    assert (Hs : Forall (fun c => test c = true) (concat pieces)
                 /\ length (concat pieces) = length pieces).
    { clear Hlo Hhi. induction Hall as [|p pieces [_ Hp] _ [IH1 IH2]];
        [by split; [constructor|]|].
      apply Hbody in Hp as (c & -> & Hc). simpl. split; [|by rewrite IH2].
      by constructor. }
    destruct Hs as [Hs Hlen]. rewrite Hlen. done.
  - intros (Hall & Hlo & Hhi). exists (map (fun c => [c]) s).
    rewrite concat_singletons, length_map. repeat split; [|done|done].
    clear Hlo Hhi. induction Hall as [|c s Hc _ IH]; [constructor|].
    simpl. constructor; [|exact IH].
    split; [done|]. apply Hbody. by exists c.
Qed.

Lemma lang_Class ic items p :
  lang ic (Class items) p
  <-> exists c, p = [c] /\ class_matches ic items c = true.
Proof. done. Qed.

Lemma lang_Chr ic x p :
  lang ic (Chr x) p <-> exists c, p = [c] /\ chr_matches ic x c = true.
Proof. done. Qed.

Lemma lang_Digit ic p :
  lang ic Digit p <-> exists c, p = [c] /\ is_digit c = true.
Proof. done. Qed.

(** An optional part is there once or not at all. *)
Lemma lang_Opt ic r s :
  lang ic (Opt r) s <-> s = [] \/ (s <> [] /\ lang ic r s).
Proof.
  unfold Opt. cbn [lang]. split.
  - intros (pieces & -> & Hall & _ & Hhi). simpl in Hhi.
    destruct pieces as [|p [|q pieces]]; [by left | | simpl in Hhi; lia].
    right. simpl. rewrite app_nil_r.
    by apply Forall_cons in Hall as [? _].
  - intros [->|[Hne Hs]].
    + exists []. simpl. repeat split; [constructor | lia | lia].
    + exists [s]. simpl. rewrite app_nil_r.
      repeat split; [|lia|lia]. by repeat constructor.
Qed.

(** *** Positions of the subject *)

Lemma positioned_start text : positioned text (start_state text).
Proof. by exists []. Qed.

Lemma positioned_later text st s st' :
  positioned text st ->
  rest st = s ++ rest st' -> pos st' = (pos st + length s)%nat ->
  positioned text st'.
Proof.
  intros (taken & -> & Hpos) Hrest Hpos'.
  exists (taken ++ s). rewrite Hrest, length_app, <- app_assoc.
  split; [done | lia].
Qed.

Lemma positioned_span text st s tl :
  positioned text st -> rest st = s ++ tl ->
  span text (pos st) (pos st + length s) = s.
Proof.
  intros (taken & -> & Hpos) Hrest. unfold span.
  rewrite Hrest, Hpos, drop_app_length.
  replace (length taken + length s - length taken)%nat with (length s)
    by lia.
  by rewrite take_app_length.
Qed.

(** Every match found by [finditer] is a match of the pattern at a
    position of the text. *)
Lemma finditer_from_inv ic r text :
  forall fuel st m,
    positioned text st ->
    m ∈ finditer_from fuel ic r st ->
    exists st0 fin,
      positioned text st0
      /\ match_at ic r st0 = Some fin
      /\ m = {| m_start := pos st0; m_end := pos fin;
                m_groups := captures fin |}.
Proof.
  induction fuel as [|fuel IH]; intros st m Hst; cbn [finditer_from].
  - intros Hin. by apply elem_of_nil in Hin.
  - assert (Hstep : forall nxt, step_over st = Some nxt ->
                                positioned text nxt).
    { unfold step_over. intros nxt.
      destruct (rest st) as [|c tl] eqn:Hrest; [done|]. intros [= <-].
      apply (positioned_later text st [c]); [done | done | simpl; lia]. }
    destruct (match_at ic r st) as [fin|] eqn:E.
    + intros Hin. apply elem_of_cons in Hin as [->|Hin]; [by eauto|].
      destruct (pos st <? pos fin)%nat.
      * apply (IH fin); [|done].
        unfold match_at in E.
        apply run_sound in E as (s & st' & Hrest & Hpos & _ & [= ->]).
        by apply (positioned_later text st s).
      * destruct (step_over st) as [nxt|] eqn:En;
          [|by apply elem_of_nil in Hin].
        apply (IH nxt); [by apply Hstep | done].
    + destruct (step_over st) as [nxt|] eqn:En.
      * intros Hin. apply (IH nxt); [by apply Hstep | done].
      * intros Hin. by apply elem_of_nil in Hin.
Qed.

(** The text of a match is in the language of the pattern. *)
Lemma finditer_lang ic r text m :
  m ∈ finditer ic r text -> lang ic r (group0 text m).
Proof.
  intros Hin. apply (finditer_from_inv ic r text) in Hin
    as (st0 & fin & Hst0 & Hm & ->); [|apply positioned_start].
  unfold match_at in Hm.
  apply run_sound in Hm as (s & st' & Hrest & Hpos & Hs & [= ->]).
  unfold group0. cbn [m_start m_end]. rewrite Hpos.
  simpl in Hrest. simpl.
  by rewrite (positioned_span text st0 s _ Hst0 Hrest).
Qed.

(** *** Checks over the 256 characters *)

Lemma every_char_spec test c : every_char test = true -> test c = true.
Proof.
  unfold every_char. rewrite forallb_forall. intros H.
  rewrite <- (ascii_nat_embedding c). apply H.
  apply in_seq. pose proof (nat_ascii_bounded c). lia.
Qed.

End LanguageFacts.

(** ** The validators on what the patterns extract *)

Module ValidationFacts.
Import Py Regex RegexLanguage EntityExtractor EntityValidation.
Import LanguageFacts.

Lemma lang_Seq ic a b s :
  lang ic (Seq a b) s
  <-> exists s1 s2, s = s1 ++ s2 /\ lang ic a s1 /\ lang ic b s2.
Proof. done. Qed.

Lemma run_Seq_inv {R} ic a b st (k : mstate -> option R) res :
  run ic (Seq a b) st k = Some res ->
  exists s st1, rest st = s ++ rest st1
                /\ pos st1 = (pos st + length s)%nat
                /\ lang ic a s /\ run ic b st1 k = Some res.
Proof. exact (run_sound ic a st (fun st1 => run ic b st1 k) res). Qed.

Lemma run_Group_inv {R} ic n body st (k : mstate -> option R) res :
  run ic (Group n body) st k = Some res ->
  exists s st1, rest st = s ++ rest st1
                /\ pos st1 = (pos st + length s)%nat
                /\ lang ic body s
                /\ k (close_group n (pos st) st1) = Some res.
Proof.
  exact (run_sound ic body st
           (fun st1 => k (close_group n (pos st) st1)) res).
Qed.

(** *** Characters *)

Lemma chr_exact ic x c :
  every_char (fun c => implb (chr_matches ic x c) (Ascii.eqb c x)) = true ->
  chr_matches ic x c = true -> c = x.
Proof.
  intros Hall Hc. apply (every_char_spec _ c) in Hall. cbv beta in Hall.
  rewrite Hc in Hall. by apply Ascii.eqb_eq.
Qed.

Lemma class_implies ic items (test : ascii -> bool) c :
  every_char (fun c => implb (class_matches ic items c) (test c)) = true ->
  class_matches ic items c = true -> test c = true.
Proof.
  intros Hall Hc. apply (every_char_spec _ c) in Hall. cbv beta in Hall.
  by rewrite Hc in Hall.
Qed.

Lemma test_implies (p q : ascii -> bool) c :
  every_char (fun c => implb (p c) (q c)) = true ->
  p c = true -> q c = true.
Proof.
  intros Hall Hc. apply (every_char_spec _ c) in Hall. cbv beta in Hall.
  by rewrite Hc in Hall.
Qed.

Lemma Forall_test_implies (p q : ascii -> bool) s :
  every_char (fun c => implb (p c) (q c)) = true ->
  Forall (fun c => p c = true) s -> Forall (fun c => q c = true) s.
Proof.
  intros Hall Hs. eapply Forall_impl; [exact Hs|].
  intros c. by apply test_implies.
Qed.

(** *** Stripping *)

Lemma lstrip_unspaced s :
  Forall (fun c => is_space c = false) s -> lstrip s = s.
Proof. intros [|c s' Hc _]; simpl; [done | by rewrite Hc]. Qed.

Lemma strip_unspaced s :
  Forall (fun c => is_space c = false) s -> strip s = s.
Proof.
  intros Hs. unfold strip. rewrite (lstrip_unspaced s Hs).
  rewrite lstrip_unspaced; [apply rev_involutive|].
  apply Forall_forall. intros c Hc. rewrite Forall_forall in Hs.
  apply Hs. by apply list_elem_of_In, in_rev, list_elem_of_In.
Qed.

Lemma skip_blanks_none s :
  Forall (fun c => is_blank c = false) s -> skip_blanks s = s.
Proof. intros [|c s' Hc _]; simpl; [done | by rewrite Hc]. Qed.

Lemma trimmed_none s :
  Forall (fun c => is_blank c = false) s -> trimmed s = s.
Proof.
  intros Hs. unfold trimmed. rewrite (skip_blanks_none s Hs).
  rewrite skip_blanks_none; [apply rev_involutive|].
  apply Forall_forall. intros c Hc. rewrite Forall_forall in Hs.
  apply Hs. by apply list_elem_of_In, in_rev, list_elem_of_In.
Qed.

Lemma filter_keeps_all {A} (p : A -> bool) s :
  Forall (fun c => p c = true) s -> List.filter p s = s.
Proof.
  induction 1 as [|c s Hc _ IH]; simpl; [done|]. by rewrite Hc, IH.
Qed.

Lemma filter_drops_all {A} (p : A -> bool) s :
  Forall (fun c => p c = false) s -> List.filter p s = [].
Proof.
  induction 1 as [|c s Hc _ IH]; simpl; [done|]. by rewrite Hc, IH.
Qed.

(** Stripping removes no digit. *)
Lemma digits_of_lstrip s : digits_of (lstrip s) = digits_of s.
Proof.
  induction s as [|c s IH]; simpl; [done|].
  destruct (is_space c) eqn:Hsp; [|done].
  rewrite IH. unfold digits_of at 2. simpl.
  assert (Hd : is_digit c = false).
  { destruct (is_digit c) eqn:Hd; [|done].
    assert (H : every_char (fun c => implb (is_space c) (negb (is_digit c)))
                = true) by (vm_compute; reflexivity).
    apply (every_char_spec _ c) in H. cbv beta in H.
    by rewrite Hsp, Hd in H. }
  by rewrite Hd.
Qed.

Lemma digits_of_rev s : digits_of (rev s) = rev (digits_of s).
Proof.
  unfold digits_of. induction s as [|c s IH]; simpl; [done|].
  rewrite List.filter_app, IH. simpl.
  destruct (is_digit c); simpl; [done | by rewrite app_nil_r].
Qed.

Lemma digits_of_strip s : length (digits_of (strip s)) = length (digits_of s).
Proof.
  unfold strip.
  by rewrite digits_of_rev, length_rev, digits_of_lstrip, digits_of_rev,
       length_rev, digits_of_lstrip.
Qed.

(** *** What [float] reads *)

Lemma digitpart_lang ic ds :
  ds <> [] -> Forall (fun c => is_digit c = true) ds ->
  lang ic digitpart ds.
Proof.
  intros Hne Hds. destruct Hds as [|d ds Hd Hds]; [done|].
  unfold digitpart. apply lang_Seq. exists [d], ds.
  split; [done|]. split; [by exists d|].
  unfold Star. cbn [lang]. exists (map (fun c => [c]) ds).
  rewrite concat_singletons. repeat split; [|lia].
  clear Hne. apply Forall_forall. intros p Hp.
  apply list_elem_of_fmap in Hp as (c & -> & Hc).
  rewrite Forall_forall in Hds. split; [done|].
  exists [], [c]. split; [done|].
  split; [apply lang_Opt; by left | exists c; auto].
Qed.

(** A run of digits, then maybe a point and more digits, is a number for
    [float]. *)
Lemma float_parses_decimal ds fr :
  ds <> [] -> Forall (fun c => is_digit c = true) ds ->
  (fr = [] \/ exists ds', fr = "."%char :: ds' /\ ds' <> []
                          /\ Forall (fun c => is_digit c = true) ds') ->
  float_parses (ds ++ fr) = true.
Proof.
  intros Hne Hds Hfr.
  assert (Hnb : every_char (fun c => implb (is_digit c) (negb (is_blank c)))
                = true) by (vm_compute; reflexivity).
  assert (Hblank : forall l, Forall (fun c => is_digit c = true) l ->
                             Forall (fun c => is_blank c = false) l).
  { intros l Hl. eapply Forall_impl; [exact Hl|]. intros c Hc.
    apply (test_implies _ _ c Hnb) in Hc. by apply negb_true_iff. }
  unfold float_parses. rewrite trimmed_none.
  2:{ apply Forall_app. split; [by apply Hblank|].
      destruct Hfr as [->|(ds' & -> & _ & Hds')]; [constructor|].
      constructor; [done | by apply Hblank]. }
  assert (Hrun : is_Some (run true float_pattern
                            (start_state (ds ++ fr)) at_end));
    [|by destruct Hrun as [res ->]].
  apply (run_complete true float_pattern eq_refl (ds ++ fr) _ []).
  - unfold float_pattern. apply lang_Seq. exists [], (ds ++ fr).
    split; [done|]. split; [apply lang_Opt; by left|].
    right. right. right. apply lang_Seq. exists (ds ++ fr), [].
    split; [by rewrite app_nil_r|]. split; [|apply lang_Opt; by left].
    destruct Hfr as [->|(ds' & -> & Hne' & Hds')].
    + right. apply lang_Seq. exists ds, [].
      split; [done|]. split; [by apply digitpart_lang|].
      apply lang_Opt. by left.
    + left. apply lang_Seq. exists ds, ("."%char :: ds').
      split; [done|]. split.
      * apply lang_Opt. right. split; [done | by apply digitpart_lang].
      * apply lang_Seq. exists ["."%char], ds'.
        split; [done|]. split; [by exists "."%char|].
        by apply digitpart_lang.
  - simpl. by rewrite app_nil_r.
  - destruct (read_app (ds ++ fr) (start_state (ds ++ fr)) [])
      as [Hrest _]; [simpl; by rewrite app_nil_r|].
    unfold at_end. rewrite Hrest. eauto.
Qed.

End ValidationFacts.

Module PatternFacts.
Import Py Regex RegexLanguage EntityExtractor EntityValidation.
Import ExtractorFacts LanguageFacts ValidationFacts.

Ltac by_table := vm_compute; reflexivity.

Lemma Forall_test_excludes (p q : ascii -> bool) s :
  every_char (fun c => implb (p c) (negb (q c))) = true ->
  Forall (fun c => p c = true) s -> Forall (fun c => q c = false) s.
Proof.
  intros Hall Hs. eapply Forall_impl; [exact Hs|]. intros c Hc.
  apply (test_implies _ _ c Hall) in Hc. by apply negb_true_iff.
Qed.

(** *** Amounts *)

Lemma amount_shape s :
  lang true amount_pattern s ->
  exists d ds fr,
    s = d ++ ds ++ fr
    /\ (d = [] \/ d = ["$"%char])
    /\ ds <> [] /\ Forall (fun c => is_digit c = true) ds
    /\ (fr = [] \/ exists ds', fr = "."%char :: ds' /\ ds' <> []
                              /\ Forall (fun c => is_digit c = true) ds').
Proof.
  unfold amount_pattern. intros H.
  apply lang_Seq in H as (d & s23 & -> & Hd & H).
  apply lang_Seq in H as (ds & fr & -> & Hds & Hfr).
  exists d, ds, fr. split; [done|].
  apply lang_Opt in Hd.
  apply (lang_repeat_chars true Digit is_digit 1 None ds (lang_Digit true))
    in Hds as (Hds & Hlen & _).
  apply lang_Opt in Hfr.
  split.
  { destruct Hd as [->|[_ (c & -> & Hc)]]; [by left | right].
    apply chr_exact in Hc as ->; [done | by_table]. }
  split; [intros ->; simpl in Hlen; lia|].
  split; [done|].
  destruct Hfr as [->|[_ Hfr]]; [by left | right].
  apply lang_Seq in Hfr as (p & ds' & -> & (c & -> & Hc) & Hds').
  apply (lang_repeat_chars true Digit is_digit 2 (Some 2%nat) ds'
           (lang_Digit true)) in Hds' as (Hds' & Hlen' & _).
  apply chr_exact in Hc as ->; [|by_table].
  exists ds'. split; [done|]. split; [|done].
  intros ->. simpl in Hlen'. lia.
Qed.

Lemma amount_value_valid s :
  lang true amount_pattern s ->
  _validate_amount (string_of_list_ascii (strip s)) = true.
Proof.
  intros H. apply amount_shape in H as (d & ds & fr & -> & Hd & Hne & Hds & Hfr).
  assert (Hdsp : Forall (fun c => is_space c = false) d).
  { destruct Hd as [->| ->]; by repeat constructor. }
  assert (Hfsp : Forall (fun c => is_space c = false) fr).
  { destruct Hfr as [->|(ds' & -> & _ & Hds')]; [constructor|].
    constructor; [done|].
    apply (Forall_test_excludes is_digit); [by_table | done]. }
  unfold _validate_amount. rewrite list_ascii_of_string_of_list_ascii.
  rewrite strip_unspaced.
  2:{ apply Forall_app. split; [done|]. apply Forall_app. split; [|done].
      apply (Forall_test_excludes is_digit); [by_table | done]. }
  replace (without_dollar (d ++ ds ++ fr)) with (ds ++ fr);
    [by apply float_parses_decimal|].
  unfold without_dollar. rewrite !List.filter_app.
  assert (Hkeep : forall l, Forall (fun c => is_digit c = true) l ->
            List.filter (fun c => negb (Ascii.eqb c "$")) l = l).
  { intros l Hl. apply filter_keeps_all.
    apply (Forall_test_implies is_digit); [by_table | done]. }
  rewrite (Hkeep ds Hds).
  replace (List.filter (fun c => negb (Ascii.eqb c "$")) d) with (@nil ascii)
    by (by destruct Hd as [->| ->]).
  destruct Hfr as [->|(ds' & -> & _ & Hds')]; [done|].
  simpl. by rewrite (Hkeep ds' Hds').
Qed.

(** *** Addresses *)

(** With or without [re.IGNORECASE], the strings of the pattern are the
    addresses. *)
Lemma email_body_address ic s : lang ic email_body s <-> address s.
Proof.
  unfold email_body, address. split.
  - intros H.
    apply lang_Seq in H as (l & s1 & -> & Hl & H).
    apply lang_Seq in H as (a & s2 & -> & (c & -> & Ha) & H).
    apply lang_Seq in H as (d & s3 & -> & Hd & H).
    apply lang_Seq in H as (o & t & -> & (c' & -> & Ho) & Ht).
    apply (lang_repeat_chars ic _ _ 1 None l (lang_Class ic local_items))
      in Hl as (Hl & Hll & _).
    apply (lang_repeat_chars ic _ _ 1 None d (lang_Class ic domain_items))
      in Hd as (Hd & Hdl & _).
    apply (lang_repeat_chars ic _ _ 2 None t (lang_Class ic label_items))
      in Ht as (Ht & Htl & _).
    apply chr_exact in Ha as ->; [|destruct ic; by_table].
    apply chr_exact in Ho as ->; [|destruct ic; by_table].
    exists l, d, t. split; [done|].
    split; [intros ->; simpl in Hll; lia|].
    split; [eapply Forall_test_implies; [|exact Hl]; destruct ic; by_table|].
    split; [intros ->; simpl in Hdl; lia|].
    split; [eapply Forall_test_implies; [|exact Hd]; destruct ic; by_table|].
    split; [done|].
    eapply Forall_test_implies; [|exact Ht]. destruct ic; by_table.
  - intros (l & d & t & -> & Hl & Hlc & Hd & Hdc & Ht & Htc).
    apply lang_Seq. exists l, ("@"%char :: d ++ "."%char :: t).
    split; [done|]. split.
    { apply (lang_repeat_chars ic _ _ 1 None l (lang_Class ic local_items)).
      split; [|split; [destruct l; [done | simpl; lia] | done]].
      eapply Forall_test_implies; [|exact Hlc]. destruct ic; by_table. }
    apply lang_Seq. exists ["@"%char], (d ++ "."%char :: t).
    split; [done|]. split; [exists "@"%char; by destruct ic|].
    apply lang_Seq. exists d, ("."%char :: t).
    split; [done|]. split.
    { apply (lang_repeat_chars ic _ _ 1 None d (lang_Class ic domain_items)).
      split; [|split; [destruct d; [done | simpl; lia] | done]].
      eapply Forall_test_implies; [|exact Hdc]. destruct ic; by_table. }
    apply lang_Seq. exists ["."%char], t.
    split; [done|]. split; [exists "."%char; by destruct ic|].
    apply (lang_repeat_chars ic _ _ 2 None t (lang_Class ic label_items)).
    split; [|by split].
    eapply Forall_test_implies; [|exact Htc]. destruct ic; by_table.
Qed.

Lemma email_pattern_address s : lang true email_pattern s -> address s.
Proof.
  unfold email_pattern. intros H.
  apply lang_Seq in H as (b & s0 & -> & -> & H).
  apply lang_Seq in H as (l & s1 & -> & Hl & H).
  apply lang_Seq in H as (a & s2 & -> & Ha & H).
  apply lang_Seq in H as (d & s3 & -> & Hd & H).
  apply lang_Seq in H as (o & s4 & -> & Ho & H).
  apply lang_Seq in H as (t & e & -> & Ht & ->).
  apply (email_body_address true). unfold email_body.
  rewrite app_nil_l, app_nil_r.
  apply lang_Seq. exists l, (a ++ d ++ o ++ t). split; [done|].
  split; [done|].
  apply lang_Seq. exists a, (d ++ o ++ t). split; [done|].
  split; [done|].
  apply lang_Seq. exists d, (o ++ t). split; [done|].
  split; [done|].
  apply lang_Seq. by exists o, t.
Qed.

Lemma address_unspaced s :
  address s -> Forall (fun c => is_space c = false) s.
Proof.
  intros (l & d & t & -> & _ & Hl & _ & Hd & _ & Ht).
  apply Forall_app. split.
  { apply (Forall_test_excludes local_char); [by_table | done]. }
  constructor; [done|]. apply Forall_app. split.
  { apply (Forall_test_excludes domain_char); [by_table | done]. }
  constructor; [done|].
  apply (Forall_test_excludes label_char); [by_table | done].
Qed.

(** What [_validate_email] accepts: an address, or an address and a line
    feed. *)
Lemma _validate_email_spec email :
  _validate_email email = true
  <-> exists v, address v
                /\ (list_ascii_of_string email = v
                    \/ list_ascii_of_string email = v ++ ["010"%char]).
Proof.
  unfold _validate_email. split.
  - destruct (run false email_body _ at_dollar) as [res|] eqn:E; [|done].
    intros _. apply run_sound in E as (v & st' & Hrest & _ & Hv & Hend).
    simpl in Hrest. exists v. split; [by apply (email_body_address false)|].
    rewrite Hrest. unfold at_dollar in Hend.
    destruct (rest st') as [|c [|c' tl]]; [left; by rewrite app_nil_r| |done].
    destruct (Ascii.eqb_spec c "010"%char) as [->|]; [by right | done].
  - intros (v & Hv & Hemail).
    assert (Hrun : is_Some (run false email_body
                     (start_state (list_ascii_of_string email)) at_dollar));
      [|by destruct Hrun as [res ->]].
    apply (email_body_address false) in Hv.
    destruct Hemail as [He|He]; rewrite He.
    + apply (run_complete false email_body eq_refl v _ []);
        [done | simpl; by rewrite app_nil_r|].
      destruct (read_app v (start_state v) [])
        as [Hrest _]; [simpl; by rewrite app_nil_r|].
      unfold at_dollar. rewrite Hrest. eauto.
    + apply (run_complete false email_body eq_refl v _ ["010"%char]);
        [done | done|].
      destruct (read_app v (start_state (v ++ ["010"%char])) ["010"%char])
        as [Hrest _]; [done|].
      unfold at_dollar. rewrite Hrest. simpl. eauto.
Qed.

Lemma email_value_valid s :
  lang true email_pattern s ->
  _validate_email (string_of_list_ascii (strip s)) = true.
Proof.
  intros H. apply email_pattern_address in H.
  apply _validate_email_spec. exists s. split; [done|]. left.
  rewrite list_ascii_of_string_of_list_ascii.
  by apply strip_unspaced, address_unspaced.
Qed.

(** *** Telephone numbers *)

Lemma digits_of_app a b : digits_of (a ++ b) = digits_of a ++ digits_of b.
Proof. apply List.filter_app. Qed.

Lemma optional_chr_no_digit x s :
  every_char (fun c => implb (chr_matches true x c) (negb (is_digit c)))
  = true ->
  lang true (Opt (Chr x)) s -> digits_of s = [].
Proof.
  intros Hx H. apply lang_Opt in H as [->|[_ (c & -> & Hc)]]; [done|].
  apply (test_implies _ _ c Hx) in Hc. apply negb_true_iff in Hc.
  unfold digits_of. simpl. by rewrite Hc.
Qed.

Lemma optional_separator_no_digit s :
  lang true (Opt separator) s -> digits_of s = [].
Proof.
  intros H. apply lang_Opt in H as [->|[_ (c & -> & Hc)]]; [done|].
  apply (class_implies true _ (fun c => negb (is_digit c)) c) in Hc;
    [|by_table].
  apply negb_true_iff in Hc. rename Hc into Hd. unfold digits_of. simpl. by rewrite Hd.
Qed.

Lemma digits_counted n s :
  lang true (Repeat digit09 n (Some n)) s -> length (digits_of s) = n.
Proof.
  intros H.
  apply (lang_repeat_chars true _ _ n (Some n) s
           (lang_Class true [Range "0" "9"])) in H as (Hs & Hlo & Hhi).
  simpl in Hhi. unfold digits_of. rewrite filter_keeps_all; [lia|].
  eapply Forall_test_implies; [|exact Hs]. by_table.
Qed.

Lemma phone_has_ten_or_eleven_digits s :
  lang true phone_pattern s ->
  length (digits_of s) = 10%nat \/ length (digits_of s) = 11%nat.
Proof.
  unfold phone_pattern. intros H.
  apply lang_Seq in H as (b & s0 & -> & -> & H).
  apply lang_Seq in H as (p & s1 & -> & Hp & H).
  apply lang_Seq in H as (o & s2 & -> & Ho & H).
  apply lang_Seq in H as (d1 & s3 & -> & Hd1 & H).
  apply lang_Seq in H as (c & s4 & -> & Hc & H).
  apply lang_Seq in H as (e1 & s5 & -> & He1 & H).
  apply lang_Seq in H as (d2 & s6 & -> & Hd2 & H).
  apply lang_Seq in H as (e2 & s7 & -> & He2 & H).
  apply lang_Seq in H as (d3 & e & -> & Hd3 & ->).
  apply optional_chr_no_digit in Ho; [|by_table].
  apply optional_chr_no_digit in Hc; [|by_table].
  apply optional_separator_no_digit in He1, He2.
  apply digits_counted in Hd1, Hd2, Hd3.
  rewrite !digits_of_app, Ho, Hc, He1, He2, !length_app, Hd1, Hd2, Hd3.
  simpl.
  assert (Hpre : length (digits_of p) = 0%nat
                 \/ length (digits_of p) = 1%nat); [|lia].
  apply lang_Opt in Hp as [->|[_ Hp]]; [by left | right].
  apply lang_Seq in Hp as (plus & s8 & -> & Hplus & Hp).
  apply lang_Seq in Hp as (one & sep & -> & (x & -> & Hone) & Hsep).
  apply optional_chr_no_digit in Hplus; [|by_table].
  apply optional_separator_no_digit in Hsep.
  apply chr_exact in Hone as ->; [|by_table].
  by rewrite !digits_of_app, Hplus, Hsep.
Qed.

Lemma phone_value_valid s :
  lang true phone_pattern s ->
  _validate_phone (string_of_list_ascii (strip s)) = true.
Proof.
  intros H. apply phone_has_ten_or_eleven_digits in H.
  unfold _validate_phone. rewrite list_ascii_of_string_of_list_ascii.
  cbv zeta. rewrite digits_of_strip.
  destruct H as [-> | ->]; done.
Qed.

(** *** Order numbers *)

Lemma string_length_of_list (s : list ascii) :
  String.length (string_of_list_ascii s) = length s.
Proof. induction s as [|c s IH]; simpl; by rewrite ?IH. Qed.

(** Group 1 of a match of the order number pattern is six or more
    letters and digits. *)
Lemma order_number_group text st0 fin :
  positioned text st0 ->
  match_at true order_number_pattern st0 = Some fin ->
  exists v,
    group text {| m_start := pos st0; m_end := pos fin;
                  m_groups := captures fin |} 1 = Some v
    /\ (6 <= length v)%nat
    /\ Forall (fun c => alnum c = true) v.
Proof.
  intros Hst0 Hm. unfold match_at, order_number_pattern in Hm.
  assert (Hc0 : positioned text (clear_captures st0)) by exact Hst0.
  apply run_Seq_inv in Hm as (b & st1 & Hr1 & Hp1 & _ & Hm).
  pose proof (positioned_later _ _ _ _ Hc0 Hr1 Hp1) as Hst1.
  apply run_Seq_inv in Hm as (w & st2 & Hr2 & Hp2 & _ & Hm).
  pose proof (positioned_later _ _ _ _ Hst1 Hr2 Hp2) as Hst2.
  apply run_Seq_inv in Hm as (sp & st3 & Hr3 & Hp3 & _ & Hm).
  pose proof (positioned_later _ _ _ _ Hst2 Hr3 Hp3) as Hst3.
  change (run true (Group 1 (Repeat upper_or_digit 6 None)) st3
            (fun st => run true WordBoundary st Some) = Some fin) in Hm.
  apply run_Group_inv in Hm as (v & st5 & Hr5 & Hp5 & Hv & Hm).
  simpl in Hm.
  destruct (at_boundary _) in Hm; [|done]. injection Hm as <-.
  exists v. unfold group. cbn [m_groups captures close_group].
  rewrite lookup_insert_eq. rewrite Hp5.
  rewrite (positioned_span text st3 v _ Hst3 Hr5).
  split; [done|].
  apply (lang_repeat_chars true _ _ 6 None v
           (lang_Class true [Range "A" "Z"; Range "0" "9"]))
    in Hv as (Hv & Hlen & _).
  split; [done|].
  eapply Forall_test_implies; [|exact Hv]. by_table.
Qed.

Lemma order_number_value_valid v :
  (6 <= length v)%nat -> Forall (fun c => alnum c = true) v ->
  _validate_order_number (string_of_list_ascii (strip v)) = true.
Proof.
  intros Hlen Hv. rewrite strip_unspaced.
  2:{ apply (Forall_test_excludes alnum); [by_table | done]. }
  unfold _validate_order_number.
  rewrite string_length_of_list, list_ascii_of_string_of_list_ascii.
  apply andb_true_iff. split; [apply Nat.leb_le; lia|].
  unfold isalnum. destruct v as [|c v]; [simpl in Hlen; lia|].
  apply forallb_forall. intros x Hx. rewrite Forall_forall in Hv.
  apply (Hv x). by apply list_elem_of_In.
Qed.

(** *** The entities of the pattern stage *)

Lemma extract_patterns_inv text (ps : list (string * regex)) :
  forall acc out,
    extract_patterns ps text acc = Ok out ->
    forall e, e ∈ out ->
      e ∈ acc
      \/ exists entity_type pattern m,
           (entity_type, pattern) ∈ ps
           /\ m ∈ finditer true pattern text
           /\ entity_of_match entity_type pattern text m = Ok e.
Proof.
  induction ps as [|[ty pat] ps IH]; intros acc out.
  - simpl. intros [= <-] e He. by left.
  - cbn [extract_patterns].
    destruct (collect _ _ acc) as [found|err] eqn:Hc; [|done].
    cbn [bind]. intros Hout e He.
    apply QueryFacts.collect_inv in Hc as (bs & -> & Hall).
    destruct (IH _ _ Hout e He) as [Hacc|(ty' & pat' & m & Hin & Hm & Hf)].
    + apply elem_of_app in Hacc as [Hacc|Hbs]; [by left | right].
      exists ty, pat.
      assert (Hfind : exists m, m ∈ finditer true pat text
                /\ entity_of_match ty pat text m = Ok e).
      { clear -Hall Hbs. induction Hall as [|m b ms bs Hmb _ IHall].
        - by apply elem_of_nil in Hbs.
        - apply elem_of_cons in Hbs as [->|Hbs].
          + exists m. split; [apply elem_of_cons; auto | done].
          + destruct (IHall Hbs) as (m' & Hm' & Hf').
            exists m'. split; [apply elem_of_cons; auto | done]. }
      destruct Hfind as (m & Hm & Hf). exists m.
      split; [apply elem_of_cons; auto | done].
    + right. exists ty', pat', m.
      split; [apply elem_of_cons; auto | done].
Qed.

Lemma entity_of_match_valid text entity_type pattern m e :
  (entity_type, pattern) ∈ patterns ->
  m ∈ finditer true pattern text ->
  entity_of_match entity_type pattern text m = Ok e ->
  validate_entity (type e) (value e) = true.
Proof.
  unfold patterns. intros Hin Hm He.
  apply elem_of_cons in Hin as [[= -> ->]|Hin].
  { apply (finditer_from_inv true _ text) in Hm
      as (st0 & fin & Hst0 & Hmatch & ->); [|apply positioned_start].
    destruct (order_number_group text st0 fin Hst0 Hmatch)
      as (v & Hv & Hlen & Hall).
    unfold entity_of_match, matched_value in He.
    change (uses_group "order_number") with true in He.
    change (has_groups order_number_pattern) with true in He.
    cbv iota in He. rewrite Hv in He. injection He as <-.
    by apply order_number_value_valid. }
  apply elem_of_cons in Hin as [[= -> ->]|Hin].
  { apply finditer_lang in Hm. injection He as <-.
    by apply email_value_valid. }
  apply elem_of_cons in Hin as [[= -> ->]|Hin].
  { apply finditer_lang in Hm. injection He as <-.
    by apply phone_value_valid. }
  apply elem_of_cons in Hin as [[= -> ->]|Hin].
  { apply entity_of_match_type in He as (-> & _). done. }
  apply elem_of_cons in Hin as [[= -> ->]|Hin].
  { apply finditer_lang in Hm. injection He as <-.
    by apply amount_value_valid. }
  apply elem_of_cons in Hin as [[= -> ->]|Hin].
  { apply entity_of_match_type in He as (-> & _). done. }
  by apply elem_of_nil in Hin.
Qed.

End PatternFacts.

Module SpanFacts.
Import Py Regex RegexLanguage EntityExtractor EntityValidation.
Import ExtractorFacts LanguageFacts ValidationFacts PatternFacts.

Lemma lang_min_length ic r :
  forall s, lang ic r s -> (min_length r <= length s)%nat.
Proof.
  induction r as [|x|items| | |r1 IH1 r2 IH2|r1 IH1 r2 IH2
                  |body IH lo hi|i body IH]; intros s; cbn [lang min_length].
  - intros ->. done.
  - intros (c & -> & _). done.
  - intros (c & -> & _). done.
  - intros (c & -> & _). done.
  - intros ->. done.
  - intros (s1 & s2 & -> & H1 & H2). rewrite length_app.
    apply IH1 in H1. apply IH2 in H2. lia.
  - intros [H|H]; [apply IH1 in H | apply IH2 in H]; lia.
  - intros (pieces & -> & Hall & Hlo & _).
    assert (Hlen : (length pieces * min_length body
                    <= length (concat pieces))%nat).
    { clear Hlo. induction Hall as [|p pieces [_ Hp] _ IHall]; [done|].
      simpl. rewrite length_app. apply IH in Hp. lia. }
    nia.
  - apply IH.
Qed.

Section Captures.
Context {R : Type} (ic : bool).

Lemma fresh_within_refl st : fresh_within st st.
Proof. split; [done | auto]. Qed.

Lemma fresh_within_trans a b c :
  fresh_within a b -> fresh_within b c -> fresh_within a c.
Proof.
  intros [Hab Hcab] [Hbc Hcbc]. split; [lia|].
  intros n x y Hc. destruct (Hcbc n x y Hc) as [Hb|Hb]; [|right; lia].
  destruct (Hcab n x y Hb) as [Ha|Ha]; [by left | right; lia].
Qed.

Lemma repeat_loop_captures body_re lo hi (k : mstate -> option R) :
  (forall st (k' : mstate -> option R) res,
      run ic body_re st k' = Some res ->
      exists st', fresh_within st st' /\ k' st' = Some res) ->
  forall fuel count cur res,
    repeat_loop (run ic body_re) lo hi k fuel count cur = Some res ->
    exists st', fresh_within cur st' /\ k st' = Some res.
Proof.
  intros Hbody. induction fuel as [|fuel IH]; intros count cur res.
  - simpl. destruct (lo <=? count)%nat; [|done].
    intros Hk. exists cur. split; [apply fresh_within_refl | done].
  - assert (Hstop : (if (lo <=? count)%nat then k cur else None)
                    = Some res ->
                    exists st', fresh_within cur st' /\ k st' = Some res).
    { destruct (lo <=? count)%nat; [|done].
      intros Hk. exists cur. split; [apply fresh_within_refl | done]. }
    cbn [repeat_loop].
    destruct (under hi count); [|exact Hstop].
    destruct (run ic body_re cur _) as [res0|] eqn:E; [|exact Hstop].
    intros [= ->]. apply Hbody in E as (st1 & H1 & E).
    destruct (pos cur <? pos st1)%nat; [|done].
    apply IH in E as (st2 & H2 & E).
    exists st2. split; [by eapply fresh_within_trans | done].
Qed.

(** The groups closed during a match lie within what the match read. *)
Lemma run_captures r :
  forall st (k : mstate -> option R) res,
    run ic r st k = Some res ->
    exists st', fresh_within st st' /\ k st' = Some res.
Proof.
  induction r as [|x|items| | |r1 IH1 r2 IH2|r1 IH1 r2 IH2
                  |body IH lo hi|i body IH]; intros st k res.
  - simpl. intros Hk. exists st. split; [apply fresh_within_refl | done].
  - simpl. destruct (rest st) as [|c tl]; [done|].
    destruct (chr_matches ic x c); [|done]. intros Hk.
    exists (advance st c tl). split; [|done].
    split; [simpl; lia | auto].
  - simpl. destruct (rest st) as [|c tl]; [done|].
    destruct (class_matches ic items c); [|done]. intros Hk.
    exists (advance st c tl). split; [|done].
    split; [simpl; lia | auto].
  - simpl. destruct (rest st) as [|c tl]; [done|].
    destruct (is_digit c); [|done]. intros Hk.
    exists (advance st c tl). split; [|done].
    split; [simpl; lia | auto].
  - simpl. destruct (at_boundary st); [|done].
    intros Hk. exists st. split; [apply fresh_within_refl | done].
  - cbn [run]. intros Hr. apply IH1 in Hr as (st1 & H1 & Hr).
    apply IH2 in Hr as (st2 & H2 & Hr).
    exists st2. split; [by eapply fresh_within_trans | done].
  - cbn [run]. destruct (run ic r1 st k) as [res1|] eqn:E.
    + intros [= ->]. by apply IH1 in E.
    + intros Hr. by apply IH2 in Hr.
  - cbn [run]. intros Hr.
    by apply (repeat_loop_captures body lo hi k IH) in Hr.
  - cbn [run]. intros Hr. apply IH in Hr as (st1 & [Hp Hc] & Hr).
    exists (close_group i (pos st) st1). split; [|done].
    split; [done|]. intros n a b. simpl.
    destruct (decide (i = n)) as [->|Hne].
    + rewrite lookup_insert_eq. intros [= <- <-]. right. lia.
    + rewrite lookup_insert_ne by done. apply Hc.
Qed.

End Captures.

(** A match found by [finditer] lies in the text, its text is in the
    language of the pattern, and its groups lie within it. *)
Lemma finditer_span ic r text m :
  m ∈ finditer ic r text ->
  (m_start m <= m_end m <= length text)%nat
  /\ lang ic r (group0 text m)
  /\ length (group0 text m) = (m_end m - m_start m)%nat
  /\ forall n a b, m_groups m !! n = Some (a, b) ->
                   (m_start m <= a /\ a <= b /\ b <= m_end m)%nat.
Proof.
  intros Hin. pose proof (finditer_lang ic r text m Hin) as Hlang.
  apply (finditer_from_inv ic r text) in Hin
    as (st0 & fin & Hst0 & Hm & ->); [|apply positioned_start].
  unfold match_at in Hm. pose proof Hm as Hm'.
  apply run_sound in Hm as (s & st' & Hrest & Hpos & _ & [= ->]).
  apply run_captures in Hm' as (st' & [Hle Hc] & [= ->]).
  simpl in Hrest, Hpos, Hle, Hc. cbn [m_start m_end m_groups].
  destruct Hst0 as (taken & -> & Hp).
  split; [|split; [done|split]].
  - rewrite Hrest, !length_app. lia.
  - unfold group0, span. cbn [m_start m_end].
    rewrite Hp, drop_app_length, Hrest, Hpos, Hp.
    replace (length taken + length s - length taken)%nat with (length s)
      by lia.
    by rewrite take_app_length.
  - intros n a b Hn. destruct (Hc n a b Hn) as [He|He]; [|done].
    by rewrite lookup_empty in He.
Qed.

End SpanFacts.

Module ValidationClaims.
Import Py Regex RegexLanguage EntityExtractor EntityValidation.
Import ExtractorFacts LanguageFacts ValidationFacts PatternFacts SpanFacts.

(** X10: The pattern stage and the validators agree: on every text, each
    entity [_extract_with_regex] returns is accepted by [validate_entity]
    under its own type. *)
Theorem pattern_entities_pass_validation (text : string) :
  exists entities,
    _extract_with_regex text = Ok entities
    /\ Forall (fun e => validate_entity (type e) (value e) = true) entities.
Proof.
  destruct (_extract_with_regex_Ok text) as (entities & Hok & _).
  exists entities. split; [done|].
  apply Forall_forall. intros e He. unfold _extract_with_regex in Hok.
  destruct (extract_patterns_inv _ _ _ _ Hok e He)
    as [Hnil|(ty & pat & m & Hin & Hm & Hf)];
    [by apply elem_of_nil in Hnil|].
  by eapply entity_of_match_valid.
Qed.

Example pattern_entities_pass_validation_sample :
  let text := "Order #AB12345 for $19.99, write to jo@ex.io or 555-123-4567" in
  exists entities,
    _extract_with_regex text = Ok entities
    /\ map (fun e => (type e, value e)) entities
       = [("order_number", "AB12345"); ("email", "jo@ex.io");
          ("phone", "555-123-4567"); ("amount", "12345");
          ("amount", "$19.99"); ("amount", "555"); ("amount", "123");
          ("amount", "4567")]
    /\ forallb (fun e => validate_entity (type e) (value e)) entities = true.
Proof. eexists. split; [vm_compute; reflexivity|]. split; reflexivity. Qed.

(** X11: What [_validate_email] accepts, exactly: a local part of letters,
    digits and [._%+-], an [@], a domain of letters, digits, points and
    hyphens, a point, and a last label of two or more letters or bars;
    then nothing, or one line feed. *)
Theorem validate_email_accepts_the_addresses (email : string) :
  _validate_email email = true
  <-> exists local domain label : list ascii,
        (list_ascii_of_string email
           = local ++ "@"%char :: domain ++ "."%char :: label
         \/ list_ascii_of_string email
           = local ++ "@"%char :: domain ++ "."%char :: label
                   ++ ["010"%char])
        /\ local <> [] /\ Forall (fun c => local_char c = true) local
        /\ domain <> [] /\ Forall (fun c => domain_char c = true) domain
        /\ (2 <= length label)%nat
        /\ Forall (fun c => label_char c = true) label.
Proof.
  rewrite _validate_email_spec. split.
  - intros (v & (l & d & t & -> & H) & Hv). exists l, d, t.
    split; [|exact H].
    destruct Hv as [->| ->]; [by left | right].
    by rewrite <- !app_assoc, <- !app_comm_cons, <- !app_assoc.
  - intros (l & d & t & Hv & H).
    exists (l ++ "@"%char :: d ++ "."%char :: t).
    split; [by exists l, d, t|].
    destruct Hv as [->| ->]; [by left | right].
    by rewrite <- !app_assoc, <- !app_comm_cons, <- !app_assoc.
Qed.

Example validate_email_samples :
  _validate_email "ann@example.com" = true
  /\ _validate_email "ann@example.c|" = true
  /\ _validate_email (String "a" (String "@" (String "b" (String "."
       (String "c" (String "d" (String "010" EmptyString))))))) = true
  /\ _validate_email "ann@example.c" = false
  /\ _validate_email "ann@example.com " = false
  /\ _validate_email "ann@@example.com" = false.
Proof. vm_compute. repeat split; reflexivity. Qed.

(** X12: Every entity of the pattern stage carries the span of its match: a
    non-empty range of the text; its value is that range stripped, or, for
    an order number or a product id, a range inside it stripped. *)
Theorem pattern_entities_carry_their_span (text : string) :
  exists entities,
    _extract_with_regex text = Ok entities
    /\ Forall
         (fun e =>
            exists from to a b,
              start e = Some from /\ end_ e = Some to
              /\ (from < to <= String.length text)%nat
              /\ (from <= a /\ a <= b /\ b <= to)%nat
              /\ (uses_group (type e) = false -> a = from /\ b = to)
              /\ value e
                 = string_of_list_ascii
                     (strip (span (list_ascii_of_string text) a b)))
         entities.
Proof.
  destruct (_extract_with_regex_Ok text) as (entities & Hok & _).
  exists entities. split; [done|].
  apply Forall_forall. intros e He. unfold _extract_with_regex in Hok.
  destruct (extract_patterns_inv _ _ _ _ Hok e He)
    as [Hnil|(ty & pat & m & Hin & Hm & Hf)];
    [by apply elem_of_nil in Hnil|].
  destruct (finditer_span true pat _ m Hm) as (Hb & Hl & Hlen & Hg).
  assert (Hpos : (1 <= min_length pat)%nat).
  { clear -Hin. unfold patterns in Hin.
    repeat (apply elem_of_cons in Hin as [[= -> ->]|Hin];
            [vm_compute; lia|]).
    by apply elem_of_nil in Hin. }
  apply lang_min_length in Hl.
  assert (Hlt : (m_start m < m_end m)%nat) by lia.
  assert (Htext : length (list_ascii_of_string text) = String.length text).
  { clear. induction text as [|c text IH]; simpl; by rewrite ?IH. }
  rewrite Htext in Hb.
  unfold entity_of_match, matched_value in Hf.
  destruct (uses_group ty) eqn:Hu.
  - destruct (has_groups pat) eqn:Hh.
    + unfold group in Hf.
      destruct (m_groups m !! 1%nat) as [[a b]|] eqn:Hc; [|done].
      injection Hf as <-. cbn [type value start end_].
      exists (m_start m), (m_end m), a, b.
      split; [done|]. split; [done|]. split; [lia|].
      split; [by apply (Hg 1%nat)|]. split; [by rewrite Hu | done].
    + injection Hf as <-. cbn [type value start end_].
      exists (m_start m), (m_end m), (m_start m), (m_end m).
      split; [done|]. split; [done|]. split; [lia|].
      split; [lia|]. split; done.
  - injection Hf as <-. cbn [type value start end_].
    exists (m_start m), (m_end m), (m_start m), (m_end m).
    split; [done|]. split; [done|]. split; [lia|].
    split; [lia|]. split; done.
Qed.

End ValidationClaims.

(** ** Deduplication and the two stages together *)

Module DedupFacts.
Import Py Regex EntityExtractor ExtractorShape ExtractorFacts.

Lemma Qgtb_lt a b : Qgtb a b = true <-> (b < a)%Q.
Proof.
  unfold Qgtb. rewrite negb_true_iff. split.
  - intros H. apply Qnot_le_lt. intros Hle.
    apply Qle_bool_iff in Hle. congruence.
  - intros H. destruct (Qle_bool a b) eqn:E; [|done].
    apply Qle_bool_iff in E. exfalso. by apply (Qlt_not_le b a).
Qed.

Lemma Qgtb_le a b : Qgtb a b = false <-> (a <= b)%Q.
Proof.
  unfold Qgtb. rewrite negb_false_iff. apply Qle_bool_iff.
Qed.

Lemma Qgtb_above a b c :
  Qgtb a b = true -> Qgtb c b = false -> Qgtb a c = true.
Proof.
  rewrite !Qgtb_lt, Qgtb_le. intros Hab Hcb.
  by apply Qle_lt_trans with b.
Qed.

Lemma existsb_key k (keys : list string) :
  existsb (String.eqb k) keys = true <-> k ∈ keys.
Proof.
  rewrite existsb_exists. split.
  - intros (x & Hx & E). apply String.eqb_eq in E as ->.
    by apply list_elem_of_In.
  - intros Hk. exists k. split; [by apply list_elem_of_In|].
    apply String.eqb_refl.
Qed.

Lemma first_seen_snoc keys k :
  first_seen (keys ++ [k])
  = if existsb (String.eqb k) (first_seen keys) then first_seen keys
    else first_seen keys ++ [k].
Proof. unfold first_seen. by rewrite foldl_app. Qed.

Lemma first_best_later seen o x :
  first_best seen o ->
  (dedup_key x = dedup_key o ->
   Qgtb (confidence x) (confidence o) = false) ->
  first_best (seen ++ [x]) o.
Proof.
  intros (pre & post & -> & Hpre & Hpost) Hx.
  exists pre, (post ++ [x]). rewrite <- app_assoc. split; [done|].
  split; [done|]. intros e He Hk.
  apply elem_of_app in He as [He|He]; [by apply Hpost|].
  apply list_elem_of_singleton in He as ->. by apply Hx.
Qed.

Lemma filled_step seen d x :
  filled seen d -> filled (seen ++ [x]) (dedup_step d x).
Proof.
  intros (Hkeys & Hnd & Hown & Hall).
  assert (Hin : existsb (String.eqb (dedup_key x))
                  (first_seen (map dedup_key seen))
                = match dict_get (dedup_key x) d with
                  | Some _ => true
                  | None => false
                  end).
  { rewrite <- Hkeys.
    destruct (dict_get (dedup_key x) d) as [o|] eqn:Hget.
    - apply existsb_key. apply dict_get_elem in Hget.
      apply list_elem_of_In, in_map_iff. exists (dedup_key x, o).
      split; [done | by apply list_elem_of_In].
    - apply dict_get_None in Hget.
      destruct (existsb _ _) eqn:E; [|done].
      by apply existsb_key in E. }
  assert (Hkeys' : forall e,
            map fst (dict_set (dedup_key x) e d)
            = first_seen (map dedup_key (seen ++ [x]))).
  { intros e. rewrite map_app. simpl. rewrite first_seen_snoc, Hin.
    rewrite dict_set_keys, Hkeys.
    by destruct (dict_get (dedup_key x) d). }
  assert (Hsame : map fst d = first_seen (map dedup_key (seen ++ [x]))
                  \/ dict_get (dedup_key x) d = None).
  { destruct (dict_get (dedup_key x) d) eqn:Hget; [left | by right].
    rewrite map_app. simpl. by rewrite first_seen_snoc, Hin. }
  assert (Hothers : forall key o,
            dedup_key x <> key -> dict_get key d = Some o ->
            dedup_key o = key /\ first_best (seen ++ [x]) o).
  { intros key o Hne Ho. destruct (Hown key o Ho) as [Hk Hfb].
    split; [done|]. apply first_best_later; [done|]. congruence. }
  assert (Hall' : forall e d',
            (forall key, dedup_key x <> key ->
                         dict_get key d' = dict_get key d) ->
            is_Some (dict_get (dedup_key x) d') ->
            e ∈ seen ++ [x] -> is_Some (dict_get (dedup_key e) d')).
  { intros e d' Hne Hx He.
    destruct (decide (dedup_key x = dedup_key e)) as [Heq|Hk];
      [by rewrite <- Heq|].
    rewrite Hne by done.
    apply elem_of_app in He as [He|He]; [by apply Hall|].
    apply list_elem_of_singleton in He as ->. done. }
  unfold dedup_step.
  destruct (dict_get (dedup_key x) d) as [kept|] eqn:Hget.
  - destruct (Hown _ _ Hget) as [Hkk Hfb].
    destruct (Qgtb (confidence x) (confidence kept)) eqn:Hgt.
    + split; [apply Hkeys'|].
      split; [by rewrite dict_set_keys, Hget|]. split.
      * intros key o.
        destruct (decide (dedup_key x = key)) as [<-|Hne].
        -- rewrite dict_get_set_eq. intros [= <-]. split; [done|].
           exists seen, []. split; [done|]. split.
           ++ intros e He Hk.
              destruct Hfb as (pre & post & -> & Hpre & Hpost).
              apply elem_of_app in He as [He|He].
              ** apply Qgtb_trans with (confidence kept); [done|].
                 apply Hpre; [done | congruence].
              ** apply elem_of_cons in He as [->|He]; [done|].
                 apply Qgtb_above with (confidence kept); [done|].
                 apply Hpost; [done | congruence].
           ++ intros e He. by apply elem_of_nil in He.
        -- rewrite dict_get_set_ne by done. by apply Hothers.
      * intros e. apply Hall'.
        -- intros key Hne. by apply dict_get_set_ne.
        -- rewrite dict_get_set_eq. eauto.
    + split; [by destruct Hsame as [?|?]; [|congruence]|].
      split; [done|]. split.
      * intros key o Ho.
        destruct (decide (dedup_key x = key)) as [<-|Hne];
          [|by apply Hothers].
        rewrite Hget in Ho. injection Ho as <-. split; [done|].
        by apply first_best_later.
      * intros e. apply Hall'; [done | by rewrite Hget; eauto].
  - split; [apply Hkeys'|]. split.
    { rewrite dict_set_keys, Hget. apply NoDup_app. split; [done|].
      split; [|apply NoDup_singleton].
      intros k Hk Hi. apply list_elem_of_singleton in Hi as ->.
      by apply dict_get_None in Hget. }
    split.
    + intros key o.
      destruct (decide (dedup_key x = key)) as [<-|Hne].
      * rewrite dict_get_set_eq. intros [= <-]. split; [done|].
        exists seen, []. split; [done|]. split.
        -- intros e He Hk. destruct (Hall e He) as [o Ho].
           rewrite Hk, Hget in Ho. done.
        -- intros e He. by apply elem_of_nil in He.
      * rewrite dict_get_set_ne by done. by apply Hothers.
    + intros e. apply Hall'.
      * intros key Hne. by apply dict_get_set_ne.
      * rewrite dict_get_set_eq. eauto.
Qed.

Lemma filled_all entities : filled entities (foldl dedup_step [] entities).
Proof.
  induction entities as [|x entities IH] using rev_ind.
  - split; [done|]. split; [apply NoDup_nil_2|]. split; [done|].
    intros e He. by apply elem_of_nil in He.
  - rewrite foldl_app. simpl. by apply filled_step.
Qed.

End DedupFacts.

Module StagesFacts.
Import Py Regex EntityExtractor ExtractorShape ExtractorFacts DedupFacts.

Lemma clamp_bounds c : (0 <= clamp c <= 1)%Q.
Proof.
  unfold clamp. destruct (Qgtb c 0) eqn:H0.
  - apply Qgtb_lt in H0. destruct (Qgtb 1 c) eqn:H1.
    + apply Qgtb_lt in H1. split; by apply Qlt_le_weak.
    + split; done.
  - destruct (Qgtb 1 0) eqn:H1; split; done.
Qed.

Lemma ai_entity_shape raw e :
  ai_entity raw = Ok e ->
  source e = "ai" /\ (0 <= confidence e <= 1)%Q.
Proof.
  unfold ai_entity. destruct (raw_type raw); [|done].
  destruct (raw_value raw); [|done]. intros [= <-].
  split; [done | apply clamp_bounds].
Qed.

Lemma Forall2_right {A B} (P : A -> B -> Prop) (Q : B -> Prop) l bs :
  Forall2 P l bs -> (forall a b, P a b -> Q b) -> Forall Q bs.
Proof.
  intros H HPQ. induction H as [|a b l bs Hab _ IH]; constructor; eauto.
Qed.

(** The entities of the pattern stage: all of source [regex] and of
    confidence 0.9. *)
Lemma pattern_entities_shape text entities :
  _extract_with_regex text = Ok entities ->
  Forall (fun e => source e = "regex" /\ confidence e = 9 # 10) entities.
Proof.
  unfold _extract_with_regex. revert entities.
  assert (H : forall ps acc out,
             Forall (fun e => source e = "regex"
                              /\ confidence e = 9 # 10) acc ->
             extract_patterns ps (list_ascii_of_string text) acc = Ok out ->
             Forall (fun e => source e = "regex"
                              /\ confidence e = 9 # 10) out).
  { induction ps as [|[ty pat] ps IH]; intros acc out Hacc.
    - simpl. by intros [= <-].
    - cbn [extract_patterns].
      destruct (collect _ _ acc) as [found|err] eqn:Hc; [|done].
      cbn [bind]. apply IH.
      apply QueryFacts.collect_inv in Hc as (bs & -> & Hall).
      apply Forall_app. split; [done|].
      apply (Forall2_right _ _ _ _ Hall). intros m e He.
      by apply entity_of_match_type in He as (_ & ? & ?). }
  intros entities. apply H. constructor.
Qed.

Lemma unique_first_best entities :
  NoDup (map dedup_key (_deduplicate_entities entities))
  /\ Forall (first_best entities) (_deduplicate_entities entities)
  /\ forall e, e ∈ entities ->
               exists o, o ∈ _deduplicate_entities entities
                         /\ dedup_key o = dedup_key e.
Proof.
  unfold _deduplicate_entities.
  destruct (filled_all entities) as (_ & Hnd & Hown & Hall).
  set (d := foldl dedup_step [] entities) in *.
  assert (Hpair : forall k o, (k, o) ∈ d ->
                              dedup_key o = k /\ first_best entities o).
  { intros k o Hin. apply Hown. by apply dict_elem_get. }
  assert (Hmap : map dedup_key (map snd d) = map fst d).
  { rewrite map_map. apply map_ext_in. intros [k o] Hin. simpl.
    apply Hpair. by apply list_elem_of_In. }
  rewrite Hmap. split; [done|]. split.
  - apply Forall_forall. intros o Ho.
    apply list_elem_of_In, in_map_iff in Ho as ([k o'] & <- & Hin).
    apply (Hpair k o'). by apply list_elem_of_In.
  - intros e He. destruct (Hall e He) as [o Ho]. exists o. split.
    + apply list_elem_of_In, in_map_iff. exists (dedup_key e, o).
      split; [done|]. by apply list_elem_of_In, dict_get_elem.
    + by apply Hown in Ho as [? _].
Qed.

Lemma dict_set_absent key e d :
  dict_get key d = None -> dict_set key e d = d ++ [(key, e)].
Proof.
  induction d as [|[k v] d IH]; simpl; [done|].
  destruct (String.eqb k key); [done|]. intros H. by rewrite IH.
Qed.

(** A list whose keys differ comes back as it is. *)
Lemma distinct_keys_unchanged entities :
  NoDup (map dedup_key entities) ->
  _deduplicate_entities entities = entities.
Proof.
  intros Hnd. unfold _deduplicate_entities.
  assert (H : forall l pre,
             NoDup (map dedup_key (pre ++ l)) ->
             foldl dedup_step (map (fun e => (dedup_key e, e)) pre) l
             = map (fun e => (dedup_key e, e)) (pre ++ l)).
  { induction l as [|x l IH]; intros pre Hn; simpl.
    - by rewrite app_nil_r.
    - assert (Hx : dict_get (dedup_key x)
                     (map (fun e => (dedup_key e, e)) pre) = None).
      { apply dict_get_None. rewrite map_map. simpl.
        rewrite map_app in Hn. simpl in Hn.
        apply NoDup_app in Hn as (_ & Hn & _).
        intros Hin. apply (Hn _ Hin). apply list_elem_of_here. }
      unfold dedup_step at 2. rewrite Hx, dict_set_absent by done.
      replace (pre ++ x :: l) with ((pre ++ [x]) ++ l) in *
        by (by rewrite <- app_assoc).
      rewrite <- IH by done. by rewrite map_app. }
  specialize (H entities [] Hnd). simpl in H. rewrite H, map_map. simpl.
  apply map_id.
Qed.

Lemma first_best_elem entities o : first_best entities o -> o ∈ entities.
Proof.
  intros (pre & post & -> & _). apply elem_of_app. right.
  apply list_elem_of_here.
Qed.

(** After pattern entities [found] and model entities [more]: what is
    kept has a confidence within [0, 1], and each pattern entity is kept
    under its key, or replaced there by a model entity of higher
    confidence. *)
Lemma merged_shape found more :
  Forall (fun e => source e = "regex" /\ confidence e = 9 # 10) found ->
  Forall (fun e => source e = "ai" /\ (0 <= confidence e <= 1)%Q) more ->
  let entities := _deduplicate_entities (found ++ more) in
  NoDup (map dedup_key entities)
  /\ Forall (fun e => (0 <= confidence e <= 1)%Q
                      /\ (e ∈ found \/ e ∈ more)) entities
  /\ Forall (fun r =>
               exists o, o ∈ entities /\ dedup_key o = dedup_key r
                         /\ (o ∈ found
                             \/ (o ∈ more /\ (9 # 10 < confidence o)%Q)))
            found.
Proof.
  intros Hfound Hmore entities. unfold entities.
  destruct (unique_first_best (found ++ more)) as (Hnd & Hfb & Hall).
  rewrite Forall_forall in Hfound, Hmore, Hfb.
  split; [done|]. split.
  - apply Forall_forall. intros e He.
    apply Hfb, first_best_elem, elem_of_app in He as [He|He].
    + split; [|by left]. destruct (Hfound e He) as [_ ->]. done.
    + split; [|by right]. by destruct (Hmore e He).
  - apply Forall_forall. intros r Hr.
    destruct (Hall r) as (o & Ho & Hk); [apply elem_of_app; auto|].
    exists o. split; [done|]. split; [done|].
    destruct (Hfb o Ho) as (pre & post & Heq & Hpre & _).
    symmetry in Heq.
    apply app_eq_app in Heq as [l [[-> Hmo]|[Hfo Hpost]]].
    + right.
      assert (Hom : o ∈ more).
      { rewrite Hmo. apply elem_of_app. right. apply list_elem_of_here. }
      split; [done|]. apply Qgtb_lt.
      destruct (Hfound r Hr) as [_ <-].
      apply Hpre; [|done]. apply elem_of_app. by left.
    + destruct l as [|x l].
      * simpl in Hpost. right.
        assert (Hom : o ∈ more).
        { rewrite <- Hpost. apply list_elem_of_here. }
        split; [done|]. apply Qgtb_lt.
        destruct (Hfound r Hr) as [_ <-].
        rewrite app_nil_r in Hfo. subst pre. by apply Hpre.
      * injection Hpost as <- _. left. rewrite Hfo.
        apply elem_of_app. right. apply list_elem_of_here.
Qed.

End StagesFacts.

Module StagesClaims.
Import Py Regex EntityExtractor ExtractorShape ExtractorFacts DedupFacts.
Import StagesFacts.

(** X13: [_deduplicate_entities] returns, in the order in which the keys
    first appear, one entity for each key: the first one of that key that
    no other entity of the key exceeds in confidence. *)
Theorem deduplicate_keeps_the_first_best (entities : list Entity) :
  let unique := _deduplicate_entities entities in
  map dedup_key unique = first_seen (map dedup_key entities)
  /\ NoDup (map dedup_key unique)
  /\ Forall (first_best entities) unique
  /\ forall e, e ∈ entities ->
               exists o, o ∈ unique /\ dedup_key o = dedup_key e.
Proof.
  intros unique. unfold unique, _deduplicate_entities.
  destruct (filled_all entities) as (Hkeys & Hnd & Hown & Hall).
  set (d := foldl dedup_step [] entities) in *.
  assert (Hpair : forall k o, (k, o) ∈ d ->
                              dedup_key o = k /\ first_best entities o).
  { intros k o Hin. apply Hown. by apply dict_elem_get. }
  assert (Hmap : map dedup_key (map snd d) = map fst d).
  { rewrite map_map. apply map_ext_in. intros [k o] Hin. simpl.
    apply Hpair. by apply list_elem_of_In. }
  rewrite Hmap. split; [done|]. split; [done|]. split.
  - apply Forall_forall. intros o Ho.
    apply list_elem_of_In, in_map_iff in Ho as ([k o'] & <- & Hin).
    apply (Hpair k o'). by apply list_elem_of_In.
  - intros e He. destruct (Hall e He) as [o Ho]. exists o. split.
    + apply list_elem_of_In, in_map_iff. exists (dedup_key e, o).
      split; [done|]. by apply list_elem_of_In, dict_get_elem.
    + by apply Hown in Ho as [? _].
Qed.

(** X14: Running it again changes nothing. *)
Theorem deduplicate_twice (entities : list Entity) :
  _deduplicate_entities (_deduplicate_entities entities)
  = _deduplicate_entities entities.
Proof.
  apply distinct_keys_unchanged.
  by destruct (unique_first_best entities) as (Hnd & _).
Qed.

(** X15: The two stages together, whatever the model answers.  The pattern
    stage never raises; an [Exception] of the model stage is swallowed,
    anything else it raises goes through.  Of what is returned, the keys
    differ, every confidence lies within [0, 1], and every entity of the
    pattern stage is there under its key, unless a model entity of that
    key and of confidence above 0.9 took its place. *)
Theorem extract_entities_merges_the_stages
    (completion : string -> result (list RawEntity)) (text : string) :
  exists found,
    _extract_with_regex text = Ok found
    /\ match extract_entities completion text with
       | Ok entities =>
           NoDup (map dedup_key entities)
           /\ Forall (fun e => (0 <= confidence e <= 1)%Q
                               /\ (source e = "regex" \/ source e = "ai"))
                     entities
           /\ Forall (fun r =>
                        exists o,
                          o ∈ entities /\ dedup_key o = dedup_key r
                          /\ (o ∈ found
                               \/ (source o = "ai"
                                    /\ (9 # 10 < confidence o)%Q)))
                     found
       | Raise e =>
           is_Exception e = false
           /\ _extract_with_ai completion text = Raise e
       end.
Proof.
  destruct (_extract_with_regex_Ok text) as (found & Hok & _).
  exists found. split; [done|].
  pose proof (pattern_entities_shape text found Hok) as Hfound.
  unfold extract_entities. rewrite Hok. cbn [bind].
  assert (Hmerged : forall more,
            Forall (fun e => source e = "ai"
                             /\ (0 <= confidence e <= 1)%Q) more ->
            let entities := _deduplicate_entities (found ++ more) in
            NoDup (map dedup_key entities)
            /\ Forall (fun e => (0 <= confidence e <= 1)%Q
                                /\ (source e = "regex" \/ source e = "ai"))
                      entities
            /\ Forall (fun r =>
                         exists o,
                           o ∈ entities /\ dedup_key o = dedup_key r
                           /\ (o ∈ found
                                \/ (source o = "ai"
                                     /\ (9 # 10 < confidence o)%Q)))
                      found).
  { intros more Hmore entities.
    destruct (merged_shape found more Hfound Hmore) as (Hnd & Hin & Hkept).
    split; [done|]. rewrite Forall_forall in Hfound, Hmore. split.
    - eapply Forall_impl; [exact Hin|]. intros e [Hc [He|He]].
      + split; [done|]. left. by apply Hfound.
      + split; [done|]. right. by apply Hmore.
    - eapply Forall_impl; [exact Hkept|].
      intros r (o & Ho & Hk & [Hof|[Hom Hgt]]); exists o.
      + split; [done|]. split; [done|]. by left.
      + split; [done|]. split; [done|]. right.
        split; [by apply Hmore | done]. }
  destruct (_extract_with_ai completion text) as [more|err] eqn:Hai.
  - apply Hmerged. unfold _extract_with_ai in Hai.
    destruct (completion text) as [raw|err]; [|done]. cbn [bind] in Hai.
    apply QueryFacts.collect_inv in Hai as (bs & -> & Hall).
    simpl. apply (Forall2_right _ _ _ _ Hall). intros a b.
    apply ai_entity_shape.
  - destruct (is_Exception err) eqn:Hex; [|done].
    pose proof (Hmerged [] (Forall_nil_2 _)) as Hnone.
    by rewrite app_nil_r in Hnone.
Qed.

End StagesClaims.

(** ** The classifier and the chatbot *)

Module ClassifierFacts.
Import Py Json IntentClassifier.

Lemma obj_get_set_eq key v fields :
  obj_get key (obj_set key v fields) = Some v.
Proof.
  induction fields as [|[k w] fields IH]; simpl.
  - by rewrite String.eqb_refl.
  - destruct (String.eqb k key) eqn:E; simpl; rewrite E; [done | exact IH].
Qed.

Lemma obj_get_set_ne key key' v fields :
  key <> key' -> obj_get key' (obj_set key v fields) = obj_get key' fields.
Proof.
  intros Hne. induction fields as [|[k w] fields IH]; simpl.
  - apply String.eqb_neq in Hne. by rewrite Hne.
  - destruct (String.eqb k key) eqn:E; simpl.
    + apply String.eqb_eq in E as ->.
      apply String.eqb_neq in Hne. by rewrite Hne.
    + by rewrite IH.
Qed.

Lemma clamp01_bounds c : (0 <= clamp01 c <= 1)%Q.
Proof.
  unfold clamp01. destruct (Qle_bool 1 c) eqn:H1.
  - simpl. split; done.
  - destruct (Qle_bool c 0) eqn:H0; [split; done|].
    split.
    + apply Qlt_le_weak, Qnot_le_lt. intros Hle.
      apply Qle_bool_iff in Hle. congruence.
    + apply Qlt_le_weak, Qnot_le_lt. intros Hle.
      apply Qle_bool_iff in Hle. congruence.
Qed.

Lemma clamp_value_bounds v w :
  clamp_value v = Ok w -> exists c, w = JNum c /\ (0 <= c <= 1)%Q.
Proof.
  destruct v; simpl; try done; intros [= <-]; eexists;
    (split; [done | apply clamp01_bounds]).
Qed.

Lemma subscript_Ok v key x :
  subscript v key = Ok x ->
  exists fields, v = JObj fields /\ obj_get key fields = Some x.
Proof.
  destruct v; simpl; try done.
  destruct (obj_get key fields) eqn:E; [|done]. intros [= <-]. eauto.
Qed.

Lemma in_keys_true v keys :
  in_keys v keys = Ok true -> exists s, v = JStr s /\ s ∈ keys.
Proof.
  destruct v; simpl; try done. intros [= E]. exists s. split; [done|].
  apply existsb_exists in E as (k & Hk & E).
  apply String.eqb_eq in E as ->. by apply list_elem_of_In.
Qed.

(** What the body of the [try] returns when it returns: the answer of
    the model with its confidence brought within [0, 1], and with
    [general_inquiry] at 0.5 in place of an intent that is not a key of
    [self.intents]. *)
Lemma classify_Ok intents completion user_message result :
  classify intents completion user_message = Ok result ->
  exists descriptions answer fields i c,
    intent_descriptions intents = Ok descriptions
    /\ completion descriptions user_message = Ok (JObj answer)
    /\ result = JObj fields
    /\ obj_get "intent" fields = Some (JStr i)
    /\ obj_get "confidence" fields = Some (JNum c)
    /\ (0 <= c <= 1)%Q
    /\ (i ∈ map fst intents \/ (i = "general_inquiry" /\ c = 1 # 2))
    /\ forall key, key <> "intent" -> key <> "confidence" ->
                   obj_get key fields = obj_get key answer.
Proof.
  unfold classify.
  destruct (intent_descriptions intents) as [descriptions|] eqn:Hd; [|done].
  cbn [bind].
  destruct (completion descriptions user_message) as [answer|] eqn:Hc;
    [|done].
  cbn [bind].
  destruct (subscript answer "intent") as [intent|] eqn:Hi; [|done].
  apply subscript_Ok in Hi as (fields & -> & Hi). cbn [bind].
  destruct (in_keys intent (map fst intents)) as [known|] eqn:Hk; [|done].
  cbn [bind]. destruct known.
  - apply in_keys_true in Hk as (i & -> & Hin). cbn [bind].
    destruct (subscript (JObj fields) "confidence") as [conf|] eqn:Hconf;
      [|done].
    apply subscript_Ok in Hconf as (fields' & [= <-] & Hconf). cbn [bind].
    destruct (clamp_value conf) as [clamped|] eqn:Hcl; [|done].
    apply clamp_value_bounds in Hcl as (c & -> & Hb). cbn [bind set_item].
    intros [= <-].
    exists descriptions, fields, (obj_set "confidence" (JNum c) fields), i, c.
    split; [done|]. split; [done|]. split; [done|].
    split; [by rewrite obj_get_set_ne|].
    split; [by rewrite obj_get_set_eq|].
    split; [done|]. split; [by left|].
    intros key _ Hne. by rewrite obj_get_set_ne.
  - cbn [set_item bind subscript]. rewrite obj_get_set_eq.
    cbn [bind clamp_value set_item]. intros [= <-].
    exists descriptions, fields,
      (obj_set "confidence" (JNum (clamp01 (1 # 2)))
         (obj_set "confidence" (JNum (1 # 2))
            (obj_set "intent" (JStr "general_inquiry") fields))),
      "general_inquiry", (clamp01 (1 # 2)).
    split; [done|]. split; [done|]. split; [done|].
    split.
    { rewrite (obj_get_set_ne "confidence" "intent") by done.
      rewrite (obj_get_set_ne "confidence" "intent") by done.
      by rewrite obj_get_set_eq. }
    split; [by rewrite obj_get_set_eq|].
    split; [apply clamp01_bounds|]. split; [by right|].
    intros key Hi' Hc'. by rewrite !obj_get_set_ne.
Qed.


(** What the chatbot needs of [classify_intent]. *)
Lemma classify_intent_bounds intents completion user_message :
  match classify_intent intents completion user_message with
  | Ok result =>
      exists fields i c,
        result = JObj fields
        /\ obj_get "intent" fields = Some (JStr i)
        /\ obj_get "confidence" fields = Some (JNum c)
        /\ (0 <= c <= 1)%Q
        /\ (i ∈ map fst intents \/ (i = "general_inquiry" /\ c = 1 # 2))
  | Raise e => is_Exception e = false
  end.
Proof.
  unfold classify_intent.
  destruct (classify intents completion user_message) as [result|e] eqn:Hc.
  - apply classify_Ok in Hc
      as (ds & answer & fields & i & c & _ & _ & -> & Hi & Hcf & Hb & Hin
          & _).
    by exists fields, i, c.
  - destruct (is_Exception e) eqn:He; [|done].
    exists [("intent", JStr "general_inquiry");
            ("confidence", JNum (1 # 2));
            ("reasoning", JStr "Fallback due to classification error")],
      "general_inquiry", (1 # 2).
    split; [done|]. split; [done|]. split; [done|]. split; [done|].
    by right.
Qed.

End ClassifierFacts.

Module ClassifierClaims.
Import Py Json IntentClassifier ClassifierFacts.


(** An intent map with an entry that lacks its description makes every
    classification the fallback, and the model is not asked. *)
Example classify_intent_without_description :
  let intents := [("billing", {| description := None; examples := [] |})] in
  forall completion user_message,
    classify_intent intents completion user_message = Ok fallback.
Proof. done. Qed.

End ClassifierClaims.

Module ChatbotFacts.
Import Py Json EntityExtractor FAQHandler IntentClassifier Chatbot.
Import ExtractorFacts ClassifierFacts.

(** On the answers of the model whose types and values are strings, the
    extractor lets only an interrupt of the model stage through. *)
Lemma extract_entities_Raise completion text e :
  extract_entities completion text = Raise e ->
  is_Exception e = false /\ _extract_with_ai completion text = Raise e.
Proof.
  unfold extract_entities.
  destruct (_extract_with_regex_Ok text) as (found & -> & _). cbn [bind].
  destruct (_extract_with_ai completion text) as [more|err]; [done|].
  destruct (is_Exception err) eqn:He; [done|]. by intros [= <-].
Qed.

(** [l[-6:]] of a list that ends with six elements *)
Lemma slice_last_six {A} (older recent : list A) :
  length recent = 6%nat -> slice_from (-6) (older ++ recent) = recent.
Proof.
  intros Hlen. unfold slice_from. rewrite length_app, Hlen. simpl.
  replace (Z.to_nat (Z.max 0 (Z.of_nat (length older + 6) + -6)))
    with (length older) by lia.
  apply drop_app_length.
Qed.

Lemma slice_six {A} (recent : list A) :
  length recent = 6%nat -> slice_from (-6) recent = recent.
Proof. intros Hlen. by apply (slice_last_six [] recent). Qed.

Section Responses.
Context `{FloatOps} {entity : Type}.
Variable system_prompt : string.
Variable enhanced_message : string -> json -> list entity -> string.

Lemma context_messages_window user_message intent entities
    (older recent : list HistoryMessage) :
  length recent = 6%nat ->
  context_messages system_prompt enhanced_message user_message intent
    entities (Some (older ++ recent))
  = context_messages system_prompt enhanced_message user_message intent
      entities (Some recent).
Proof.
  intros Hlen. unfold context_messages.
  rewrite (slice_last_six older recent Hlen), (slice_six recent Hlen).
  destruct recent as [|m recent]; [done|].
  by destruct older.
Qed.

End Responses.

End ChatbotFacts.

Module ChatbotClaims.
Import Py Json FAQHandler Float64 PythonFloats FAQSample IntentClassifier
  Chatbot.
Import ClassifierFacts ChatbotFacts.

Section Responses.
Context `{FloatOps} {entity : Type}.
Variable system_prompt : string.
Variable enhanced_message : string -> json -> list entity -> string.
Variable generate : list ChatMessage -> result string.
Variable extract_entities : string -> result (list entity).
Variable classification : list (string * string) -> string -> result json.
Variable intents : list (string * IntentData).
Variable ratio : string -> string -> float.
Variable faqs : list (string * FAQEntry).

(** X17: whatever the extractor, the classifier's model and the generative
    model do, [get_response] raises nothing but what one of them raised
    that is no [Exception].  When the extractor raises an [Exception], as
    it does on an entity value that is no string, the result is the
    apology, whatever the catalog holds.  The apology is returned in that
    case, or when the catalog gave no non-empty answer and the generative
    request or a message of the history failed.  What is returned
    otherwise holds the entities of the extractor, an intent of
    [self.intents] (or [general_inquiry] at 0.5) with a confidence within
    [0, 1], and either a non-empty catalog answer, marked [FAQ], or, when
    the catalog gave nothing or an empty answer, the answer of the
    generative model, marked [AI]. *)
Theorem get_response_answers_or_apologises
    (user_message conversation_id : string)
    (conversation_history : option (list HistoryMessage)) :
  let faq_response := get_faq_response ratio faqs user_message in
  let result :=
    get_response system_prompt enhanced_message generate extract_entities
      classification intents ratio faqs user_message conversation_id
      conversation_history in
  (forall e,
     extract_entities user_message = Raise e ->
     result = if is_Exception e then Ok error_response else Raise e)
  /\ match result with
     | Ok r =>
         (r = error_response
          /\ ((exists e,
                 extract_entities user_message = Raise e
                 /\ is_Exception e = true)
              \/ ((faq_response = None \/ faq_response = Some "")
                  /\ exists i found e,
                       extract_entities user_message = Ok found
                       /\ _generate_gpt_response system_prompt
                            enhanced_message generate user_message i found
                            conversation_history = Raise e
                       /\ is_Exception e = true)))
         \/ (extract_entities user_message = Ok (entities r)
             /\ (exists i c,
                   intent r = JStr i /\ confidence r = JNum c
                   /\ (0 <= c <= 1)%Q
                   /\ (i ∈ map fst intents
                       \/ (i = "general_inquiry" /\ c = 1 # 2)))
             /\ ((source r = "FAQ" /\ response r <> ""
                  /\ faq_response = Some (response r))
                 \/ (source r = "AI"
                     /\ (faq_response = None \/ faq_response = Some "")
                     /\ _generate_gpt_response system_prompt
                          enhanced_message generate user_message (intent r)
                          (entities r) conversation_history
                        = Ok (response r))))
     | Raise e =>
         is_Exception e = false
         /\ (extract_entities user_message = Raise e
             \/ classify_intent intents classification user_message
                = Raise e
             \/ exists i found,
                  _generate_gpt_response system_prompt enhanced_message
                    generate user_message i found conversation_history
                  = Raise e)
     end.
Proof.
  intros faq_response result. subst result.
  unfold get_response, respond. fold faq_response.
  destruct (extract_entities user_message) as [found|err] eqn:Hex.
  2:{ cbn [bind]. split; [by intros e [= <-]|].
      destruct (is_Exception err) eqn:He.
      - left. split; [done|]. left. by exists err.
      - split; [done|]. by left. }
  split; [done|]. cbn [bind].
  pose proof (classify_intent_bounds intents classification user_message)
    as Hcl.
  destruct (classify_intent intents classification user_message)
    as [intent_result|err] eqn:Hclass.
  2:{ cbn [bind]. rewrite Hcl. split; [done|]. right. by left. }
  destruct Hcl as (fields & i & c & -> & Hi & Hc & Hb & Hin).
  cbn [bind get]. rewrite Hi, Hc. cbn [bind].
  destruct faq_response as [faq_answer|] eqn:Hfaq.
  - destruct (String.eqb_spec faq_answer "") as [->|Hne]; cbn [negb].
    + destruct (_generate_gpt_response system_prompt enhanced_message
                  generate user_message (JStr i) found conversation_history)
        as [answer|err] eqn:Hg; cbn [bind].
      * right. cbn [entities intent confidence source response].
        split; [done|]. split; [by exists i, c|]. right.
        split; [done|]. split; [by right | done].
      * destruct (is_Exception err) eqn:He.
        -- left. split; [done|]. right. split; [by right|].
           by exists (JStr i), found, err.
        -- split; [done|]. right. right. by exists (JStr i), found.
    + right. cbn [entities intent confidence source response].
      split; [done|]. split; [by exists i, c|]. left. done.
  - destruct (_generate_gpt_response system_prompt enhanced_message
                generate user_message (JStr i) found conversation_history)
      as [answer|err] eqn:Hg; cbn [bind].
    + right. cbn [entities intent confidence source response].
      split; [done|]. split; [by exists i, c|]. right.
      split; [done|]. split; [by left | done].
    + destruct (is_Exception err) eqn:He.
      * left. split; [done|]. right. split; [by left|].
        by exists (JStr i), found, err.
      * split; [done|]. right. right. by exists (JStr i), found.
Qed.

(** X18: When the catalog answers, nothing else is consulted: the result is
    the same whatever the generative model, the system prompt, the
    history and the conversation id. *)
Theorem catalog_answer_needs_no_model
    (user_message faq_answer : string)
    (system_prompt' : string)
    (enhanced_message' : string -> json -> list entity -> string)
    (generate' : list ChatMessage -> result string)
    (conversation_id conversation_id' : string)
    (conversation_history conversation_history'
       : option (list HistoryMessage)) :
  get_faq_response ratio faqs user_message = Some faq_answer ->
  faq_answer <> "" ->
  get_response system_prompt enhanced_message generate extract_entities
    classification intents ratio faqs user_message conversation_id
    conversation_history
  = get_response system_prompt' enhanced_message' generate' extract_entities
      classification intents ratio faqs user_message conversation_id'
      conversation_history'.
Proof.
  intros Hfaq Hne. unfold get_response, respond. rewrite Hfaq.
  destruct (String.eqb_spec faq_answer "") as [->|_]; [done|].
  reflexivity.
Qed.

(** X19: Of a history, only the last six messages are read: what came before
    them, well-formed or not, changes nothing. *)
Theorem history_before_the_last_six_is_not_read
    (user_message conversation_id : string)
    (older recent : list HistoryMessage) :
  length recent = 6%nat ->
  get_response system_prompt enhanced_message generate extract_entities
    classification intents ratio faqs user_message conversation_id
    (Some (older ++ recent))
  = get_response system_prompt enhanced_message generate extract_entities
      classification intents ratio faqs user_message conversation_id
      (Some recent).
Proof.
  intros Hlen. unfold get_response, respond, _generate_gpt_response.
  destruct (extract_entities user_message) as [found|e]; [|done].
  cbn [bind].
  destruct (classify_intent intents classification user_message)
    as [intent_result|e]; [|done].
  cbn [bind].
  destruct (get intent_result "intent" _) as [i|e]; [|done]. cbn [bind].
  destruct (get intent_result "confidence" _) as [c|e]; [|done].
  cbn [bind].
  by rewrite (context_messages_window system_prompt enhanced_message
                user_message i found older recent Hlen).
Qed.

End Responses.

Lemma get_response_answers_or_apologises_witness :
  get_response (H := doubles) "Be helpful." ChatSample.sample_enhanced
    ChatSample.echo ChatSample.numeric_value
    ChatSample.sample_classification default_intents sample_ratio
    sample_faqs "What time do you OPEN today" "c1" None
  = Ok error_response.
Proof.
  destruct (get_response_answers_or_apologises (H := doubles)
              "Be helpful." ChatSample.sample_enhanced ChatSample.echo
              ChatSample.numeric_value ChatSample.sample_classification
              default_intents sample_ratio sample_faqs
              "What time do you OPEN today" "c1" None) as [Hraised _].
  exact (Hraised
           (AttributeError "'float' object has no attribute 'lower'")
           eq_refl).
Defined.

Lemma catalog_answer_needs_no_model_witness :
  get_response (H := doubles) "Be helpful." ChatSample.sample_enhanced
    ChatSample.echo ChatSample.pattern_entities
    ChatSample.sample_classification default_intents sample_ratio
    sample_faqs "What time do you OPEN today" "c1" None
  = get_response (H := doubles) "" ChatSample.sample_enhanced
      ChatSample.unreachable ChatSample.pattern_entities
      ChatSample.sample_classification default_intents sample_ratio
      sample_faqs "What time do you OPEN today" "c2"
      (Some [ChatSample.broken_turn]).
Proof.
  apply (catalog_answer_needs_no_model (H := doubles)
           "Be helpful." ChatSample.sample_enhanced ChatSample.echo
           ChatSample.pattern_entities ChatSample.sample_classification
           default_intents sample_ratio sample_faqs
           "What time do you OPEN today"
           "Our customer support is available Monday through Friday from 9:00 AM to 6:00 PM EST, and Saturday from 10:00 AM to 4:00 PM EST. We're closed on Sundays and major holidays. For urgent issues outside these hours, please email support@company.com.").
  - vm_compute. reflexivity.
  - discriminate.
Defined.

Lemma history_before_the_last_six_is_not_read_witness :
  get_response (H := doubles) "Be helpful." ChatSample.sample_enhanced
    ChatSample.echo ChatSample.pattern_entities
    ChatSample.sample_classification default_intents sample_ratio
    sample_faqs "phone" "c1"
    (Some ([ChatSample.broken_turn; ChatSample.turn "user" "first"]
           ++ ChatSample.six_turns))
  = get_response (H := doubles) "Be helpful." ChatSample.sample_enhanced
      ChatSample.echo ChatSample.pattern_entities
      ChatSample.sample_classification default_intents sample_ratio
      sample_faqs "phone" "c1" (Some ChatSample.six_turns).
Proof.
  apply (history_before_the_last_six_is_not_read (H := doubles)
           "Be helpful." ChatSample.sample_enhanced ChatSample.echo
           ChatSample.pattern_entities ChatSample.sample_classification
           default_intents sample_ratio sample_faqs "phone" "c1").
  reflexivity.
Defined.

(** The four ways out on the sample: the catalog answers; the catalog
    has nothing and the model answers; the model is out of reach; and the
    extractor raises on a number where it expects a string, while the
    catalog has the answer. *)
Example get_response_on_sample :
  (exists r,
     get_response (H := doubles) "Be helpful." ChatSample.sample_enhanced
       ChatSample.unreachable ChatSample.pattern_entities
       ChatSample.sample_classification default_intents sample_ratio
       sample_faqs "What time do you OPEN today" "c1" None = Ok r
     /\ source r = "FAQ")
  /\ (exists r,
        get_response (H := doubles) "Be helpful."
          ChatSample.sample_enhanced ChatSample.echo
          ChatSample.pattern_entities ChatSample.sample_classification
          default_intents sample_ratio sample_faqs "phone" "c1"
          (Some ChatSample.six_turns) = Ok r
        /\ source r = "AI" /\ response r = "phone")
  /\ get_response (H := doubles) "Be helpful." ChatSample.sample_enhanced
       ChatSample.unreachable ChatSample.pattern_entities
       ChatSample.sample_classification default_intents sample_ratio
       sample_faqs "phone" "c1" (Some [ChatSample.broken_turn])
     = Ok error_response
  /\ get_faq_response (H := doubles) sample_ratio sample_faqs
       "What time do you OPEN today"
     <> None
  /\ get_response (H := doubles) "Be helpful." ChatSample.sample_enhanced
       ChatSample.echo ChatSample.numeric_value
       ChatSample.sample_classification default_intents sample_ratio
       sample_faqs "What time do you OPEN today" "c1" None
     = Ok error_response.
Proof.
  split; [|split; [|split; [|split]]].
  - eexists. split; [vm_compute; reflexivity | reflexivity].
  - eexists. split; [vm_compute; reflexivity|]. by repeat split.
  - vm_compute. reflexivity.
  - vm_compute. discriminate.
  - vm_compute. reflexivity.
Qed.

End ChatbotClaims.
(** ** The catalog *)

Module CatalogFacts.
Import Py FAQHandler Float64 PythonFloats FAQSample ConversationQueries
  FAQCatalog.
Import FAQFacts FloatFacts WordFacts QueryFacts.

Lemma starts_with_refl s : starts_with s s = true.
Proof.
  induction s as [|c s IH]; simpl; [done|].
  by rewrite Ascii.eqb_refl, IH.
Qed.

Lemma matches_refl question : matches question question = true.
Proof.
  unfold matches.
  destruct (list_ascii_of_string (lower question)) as [|c s] eqn:E; simpl;
    [done|].
  by rewrite Ascii.eqb_refl, starts_with_refl.
Qed.

Lemma first_matching_Some query questions question :
  first_matching query questions = Some question ->
  exists before after,
    questions = before ++ question :: after
    /\ matches query question = true
    /\ Forall (fun q => matches query q = false) before.
Proof.
  induction questions as [|q questions IH]; simpl; [done|].
  destruct (matches query q) eqn:E.
  - intros [= <-]. by exists [], questions.
  - intros Hf. destruct (IH Hf) as (before & after & -> & Hm & Hb).
    exists (q :: before), after. split; [done|]. split; [done|].
    by constructor.
Qed.

Lemma first_matching_None query questions :
  first_matching query questions = None
  <-> existsb (matches query) questions = false.
Proof.
  induction questions as [|q questions IH]; simpl; [done|].
  destruct (matches query q); simpl; [split; done | exact IH].
Qed.

Lemma search_entries_app faqs query category results :
  search_entries faqs query category results
  = results ++ search_entries faqs query category [].
Proof.
  revert results. induction faqs as [|[k e] faqs IH]; intros results; simpl.
  - by rewrite app_nil_r.
  - destruct (skipped category e); [apply IH|].
    destruct (first_matching query (questions e)); [|apply IH].
    rewrite IH, (IH [_]). by rewrite <- app_assoc.
Qed.

(** *** Scores on doubles *)

Lemma size_list_to_set_le (l : list string) :
  (size (list_to_set (C := gset string) l) <= length l)%nat.
Proof.
  induction l as [|x l IH]; [done|].
  cbn [list_to_set length]. rewrite size_union_alt, size_singleton.
  assert (size (list_to_set (C := gset string) l ∖ {[x]})
          <= size (list_to_set (C := gset string) l))%nat; [|lia].
  apply subseteq_size, subseteq_difference_l. done.
Qed.

Lemma split_aux_length (s cur : list ascii) :
  (length (split_aux s cur)
   <= length s + match cur with [] => 0 | _ => 1 end)%nat.
Proof.
  revert cur. induction s as [|c s IH]; intros cur; simpl.
  - destruct cur; simpl; lia.
  - destruct (is_space c).
    + pose proof (IH []) as IH0. destruct cur; simpl in *; lia.
    + pose proof (IH (c :: cur)) as IH1. destruct cur; simpl in *; lia.
Qed.

Lemma list_ascii_of_string_length (s : string) :
  length (list_ascii_of_string s) = String.length s.
Proof. induction s as [|c s IH]; simpl; [done | by rewrite IH]. Qed.

(** A string has no more keywords than characters. *)
Lemma keywords_size s : (size (keywords s) <= String.length s)%nat.
Proof.
  unfold keywords, split.
  set (words := split_aux (list_ascii_of_string s) []).
  assert (size (list_to_set (C := gset string) words ∖ stop_words)
          <= size (list_to_set (C := gset string) words))%nat as H1.
  { apply subseteq_size, subseteq_difference_l. done. }
  pose proof (size_list_to_set_le words) as H2.
  pose proof (split_aux_length (list_ascii_of_string s) []) as H3.
  rewrite list_ascii_of_string_length in H3. fold words in H3.
  simpl in H3. lia.
Qed.

Lemma keywords_nonempty s : keywords s <> ∅ -> (0 < size (keywords s))%nat.
Proof.
  intros Hne. apply Nat.neq_0_lt_0. intros H0. apply Hne.
  by apply leibniz_equiv, size_empty_inv.
Qed.

Lemma keyword_score_bounds user_message faq_question :
  (0 <= _calculate_keyword_score (H := doubles) user_message faq_question
   <= 1)%Q.
Proof.
  unfold _calculate_keyword_score.
  destruct (decide (keywords faq_question = ∅)) as [|Hne]; [done|].
  cbn [int_div doubles]. apply round_fraction.
  - split; [lia|]. apply inj_le, subseteq_size, intersection_subseteq_r.
  - apply keywords_nonempty in Hne. lia.
Qed.

Lemma keyword_score_of_itself question :
  _calculate_keyword_score (H := doubles) question question = 0%Q
  \/ _calculate_keyword_score (H := doubles) question question = 1%Q.
Proof.
  unfold _calculate_keyword_score.
  destruct (decide (keywords question = ∅)) as [|Hne]; [by left|].
  right. cbn [int_div doubles]. rewrite intersection_idemp_L.
  apply round_fraction; [|by apply keywords_nonempty in Hne; lia|done].
  lia.
Qed.

Section Verbatim.
Variable ratio : string -> string -> Q.
Variable faqs : list (string * FAQEntry).

(** A message that is, up to case, a paraphrase of the catalog scores
    the double 0.7, or 1.0, against it. *)
Lemma verbatim_score user_message question :
  lower user_message = lower question ->
  (ratio (lower question) (lower question) == 1)%Q ->
  combined_score (H := doubles) ratio (lower user_message) question
  = round (7 # 10)
  \/ combined_score (H := doubles) ratio (lower user_message) question
     = 1%Q.
Proof.
  intros Hsame Hratio. unfold combined_score. rewrite Hsame.
  cbn [fadd fmul f0_7 f0_3 doubles].
  rewrite (round_Qeq (ratio _ _ * _) (round (7 # 10)))
    by (by rewrite Hratio, Qmult_1_l).
  destruct (keyword_score_of_itself (lower question)) as [-> | ->];
    [left | right]; by vm_compute.
Qed.

Lemma verbatim_score_at_threshold user_message question :
  lower user_message = lower question ->
  (ratio (lower question) (lower question) == 1)%Q ->
  geb (FloatOps := doubles)
      (combined_score (H := doubles) ratio (lower user_message) question)
      f0_6 = true.
Proof.
  intros Hsame Hratio.
  destruct (verbatim_score _ _ Hsame Hratio) as [-> | ->]; by vm_compute.
Qed.

(** The paraphrases of the catalog are among the candidates. *)
Lemma paraphrase_is_scored faq_id entry question user_message :
  (faq_id, entry) ∈ faqs -> question ∈ questions entry ->
  (entry, combined_score (H := doubles) ratio (lower user_message)
            question)
  ∈ scored (H := doubles) ratio faqs user_message.
Proof.
  intros Hin Hq. unfold scored. apply list_elem_of_In, in_flat_map.
  exists (faq_id, entry). split; [by apply list_elem_of_In|].
  apply in_map_iff. exists question. split; [done|].
  by apply list_elem_of_In.
Qed.

(** A candidate at the threshold or above rules [None] out: the reply is
    the answer of an entry of the catalog. *)
Lemma threshold_reached user_message entry score :
  (entry, score) ∈ scored (H := doubles) ratio faqs user_message ->
  geb (FloatOps := doubles) score f0_6 = true ->
  exists faq_id chosen,
    (faq_id, chosen) ∈ faqs
    /\ get_faq_response (H := doubles) ratio faqs user_message
       = Some (answer chosen).
Proof.
  intros Hcand Hscore. unfold get_faq_response.
  rewrite (loops_flatten (H := doubles)).
  pose proof (foldl_keep_best_selected (H := doubles)
                (scored (H := doubles) ratio faqs user_message)) as Hsel.
  destruct (foldl _ _ _) as [[best|] b]; cbn [selected fst snd] in Hsel |- *.
  - destruct Hsel as (i & Hi & _).
    apply list_elem_of_lookup_2, list_elem_of_In in Hi.
    unfold scored in Hi. apply in_flat_map in Hi as ([k e] & Hk & He).
    apply in_map_iff in He as (q & [= <- _] & _).
    exists k, e. split; [by apply list_elem_of_In | done].
  - exfalso. destruct Hsel as [_ Hall].
    apply list_elem_of_lookup_1 in Hcand as [j Hj].
    apply Hall in Hj. congruence.
Qed.

End Verbatim.

Lemma faq_set_elem faq_id entry faqs : (faq_id, entry) ∈ faq_set faq_id entry faqs.
Proof.
  induction faqs as [|[k v] faqs IH]; simpl.
  - apply list_elem_of_here.
  - destruct (String.eqb_spec k faq_id) as [->|Hne].
    + apply list_elem_of_here.
    + by apply list_elem_of_further.
Qed.

Lemma table_get_faq_set_ne faq_id entry faqs k :
  k <> faq_id ->
  table_get k (faq_set faq_id entry faqs) = table_get k faqs.
Proof.
  intros Hne. induction faqs as [|[k' v] faqs IH]; simpl.
  - destruct (String.eqb_spec faq_id k); [congruence | done].
  - destruct (String.eqb_spec k' faq_id) as [->|Hk]; simpl.
    + destruct (String.eqb_spec faq_id k); [congruence | done].
    + by rewrite IH.
Qed.

Lemma table_get_faq_set_eq faq_id entry faqs :
  table_get faq_id (faq_set faq_id entry faqs) = Some entry.
Proof.
  induction faqs as [|[k' v] faqs IH]; simpl.
  - by rewrite String.eqb_refl.
  - destruct (String.eqb k' faq_id) eqn:E; simpl; rewrite E; [done | exact IH].
Qed.

Lemma faq_set_keys faq_id entry faqs :
  map fst (faq_set faq_id entry faqs)
  = match table_get faq_id faqs with
    | Some _ => map fst faqs
    | None => map fst faqs ++ [faq_id]
    end.
Proof.
  induction faqs as [|[k v] faqs IH]; simpl; [done|].
  destruct (String.eqb k faq_id) eqn:E; simpl; [done|].
  rewrite IH. by destruct (table_get faq_id faqs).
Qed.

Lemma search_entries_finds faqs query faq_id entry question :
  (faq_id, entry) ∈ faqs -> question ∈ questions entry ->
  matches query question = true ->
  exists r, r ∈ search_faqs faqs query None
            /\ found_id r = faq_id /\ found_answer r = answer entry.
Proof.
  intros Hin Hq Hm. unfold search_faqs.
  induction faqs as [|[k e] faqs IH]; [by apply elem_of_nil in Hin|].
  simpl. apply elem_of_cons in Hin as [[= <- <-]|Hin].
  - destruct (first_matching query (questions entry)) as [q|] eqn:E.
    + exists {| found_id := faq_id; found_question := q;
                found_answer := answer entry;
                found_category := FAQHandler.category entry |}.
      split; [|done].
      rewrite search_entries_app. apply elem_of_app. left.
      apply list_elem_of_here.
    + apply first_matching_None in E.
      assert (Hex : existsb (matches query) (questions entry) = true);
        [|congruence].
      apply existsb_exists. exists question.
      split; [by apply list_elem_of_In | done].
  - destruct (IH Hin) as (r & Hr & Hid & Ha). exists r.
    split; [|done].
    destruct (first_matching query (questions e)); [|done].
    rewrite search_entries_app. apply elem_of_app. by right.
Qed.

End CatalogFacts.

Module CatalogClaims.
Import Py FAQHandler Float64 PythonFloats FAQSample ConversationQueries
  FAQCatalog.
Import FAQFacts FloatFacts WordFacts QueryFacts CatalogFacts.

(** X20: [search_faqs] returns, in the order of the catalog, one result for
    each entry that passes the category filter and has a paraphrase that
    holds the query as a substring, case aside: the entry's id, answer
    and category, and the first such paraphrase.  An empty category
    filters nothing. *)
Theorem search_faqs_reports_first_paraphrases
    (faqs : list (string * FAQEntry)) (query : string)
    (category : option string) :
  let wanted item :=
    negb (skipped category (snd item))
    && existsb (matches query) (questions (snd item)) in
  Forall2
    (fun item r =>
       found_id r = fst item
       /\ found_answer r = answer (snd item)
       /\ found_category r = FAQHandler.category (snd item)
       /\ exists before after,
            questions (snd item) = before ++ found_question r :: after
            /\ matches query (found_question r) = true
            /\ Forall (fun q => matches query q = false) before)
    (List.filter wanted faqs) (search_faqs faqs query category)
  /\ (forall question,
        matches query question = true
        <-> exists pre post,
              list_ascii_of_string (lower question)
              = pre ++ list_ascii_of_string (lower query) ++ post)
  /\ (forall c r, category = Some c -> c <> "" ->
                  r ∈ search_faqs faqs query category ->
                  found_category r = c)
  /\ search_faqs faqs query (Some "") = search_faqs faqs query None.
Proof.
  intros wanted. split; [|split; [|split]].
  - unfold search_faqs. induction faqs as [|[k e] faqs IH]; simpl.
    + constructor.
    + unfold wanted at 1. cbn [snd].
      destruct (skipped category e); cbn [negb andb]; [exact IH|].
      destruct (first_matching query (questions e)) as [q|] eqn:E.
      * apply first_matching_Some in E as Hq.
        assert (Hex : existsb (matches query) (questions e) = true).
        { destruct (existsb _ _) eqn:Ex; [done|].
          apply first_matching_None in Ex. congruence. }
        rewrite Hex, search_entries_app. simpl.
        constructor; [|exact IH]. done.
      * apply first_matching_None in E. rewrite E. exact IH.
  - intros question. apply occurs_in_spec.
  - intros c r -> Hc. unfold search_faqs.
    assert (Hgen : forall results,
              Forall (fun r => found_category r = c) results ->
              Forall (fun r => found_category r = c)
                     (search_entries faqs query (Some c) results)).
    { induction faqs as [|[k e] faqs IH]; intros results Hres; [done|].
      simpl. apply String.eqb_neq in Hc. rewrite Hc. cbn [negb andb].
      destruct (String.eqb_spec (FAQHandler.category e) c) as [He|He];
        cbn [negb]; [|by apply IH].
      destruct (first_matching query (questions e)); [|by apply IH].
      apply IH. apply Forall_app. split; [done|]. by repeat constructor. }
    intros Hr. specialize (Hgen [] (Forall_nil_2 _)).
    rewrite Forall_forall in Hgen. by apply Hgen.
  - unfold search_faqs. generalize (@nil SearchResult).
    induction faqs as [|[k e] faqs IH]; intros results; [done|].
    simpl. destruct (first_matching query (questions e)); apply IH.
Qed.

(** X21: in doubles, the keyword score lies within [0, 1].  It is 1 when
    the paraphrase has a keyword, a word between spaces that is no stop
    word, and the message holds all its keywords; and for a paraphrase of
    no more than [2^53] characters it is 1 in that case only. *)
Theorem keyword_score_is_a_fraction (user_message faq_question : string) :
  let score :=
    _calculate_keyword_score (H := doubles) user_message faq_question in
  let keyword (w s : string) := word_of w s /\ w ∉ stop_words in
  let covered :=
    (exists w, keyword w faq_question)
    /\ forall w, keyword w faq_question -> keyword w user_message in
  (0 <= score <= 1)%Q
  /\ (covered -> score = 1%Q)
  /\ (Z.of_nat (String.length faq_question) <= 2 ^ 53 ->
      (score == 1)%Q -> covered).
Proof.
  intros score keyword covered.
  split; [apply keyword_score_bounds|].
  assert (Hcov : covered
                 <-> keywords faq_question <> ∅
                     /\ keywords faq_question ⊆ keywords user_message).
  { unfold covered, keyword. split.
    - intros [[w Hw] Hall]. split.
      + intros He. apply keywords_spec in Hw. rewrite He in Hw.
        by apply not_elem_of_empty in Hw.
      + intros x Hx. apply keywords_spec, Hall, keywords_spec, Hx.
    - intros [Hne Hsub]. split.
      + apply set_choose_L in Hne as [w Hw]. exists w.
        by apply keywords_spec.
      + intros w Hw. apply keywords_spec, Hsub, keywords_spec, Hw. }
  rewrite Hcov. unfold score, _calculate_keyword_score.
  destruct (decide (keywords faq_question = ∅)) as [He|Hne].
  { split; [by intros [? _] | done]. }
  cbn [int_div doubles].
  set (n := size (keywords user_message ∩ keywords faq_question)).
  set (m := size (keywords faq_question)).
  assert (Hm : (0 < m)%nat) by (by apply keywords_nonempty).
  assert (Hn : (n <= m)%nat).
  { unfold n, m. apply subseteq_size, intersection_subseteq_r. }
  destruct (round_fraction (Z.of_nat n) (Z.of_nat m))
    as (_ & Hone & Hless); [lia | lia|].
  split.
  - intros [_ Hsub]. apply Hone. f_equal. unfold n, m. f_equal.
    apply leibniz_equiv.
    apply (anti_symm (⊆)); [apply intersection_subseteq_r|].
    by apply intersection_greatest.
  - intros Hlen Hscore. split; [done|].
    assert (Hnm : n = m).
    { destruct (decide (n = m)) as [|Hdiff]; [done|]. exfalso.
      assert (Hlt : (round (inject_Z (Z.of_nat n) / inject_Z (Z.of_nat m))
                     < 1)%Q).
      { apply Hless; [lia|]. pose proof (keywords_size faq_question).
        fold m in H. lia. }
      rewrite Hscore in Hlt. by apply Qlt_irrefl in Hlt. }
    assert (Heq : keywords user_message ∩ keywords faq_question
                  = keywords faq_question).
    { apply set_subseteq_size_eq; [apply intersection_subseteq_r|].
      fold n m. lia. }
    rewrite <- Heq. apply intersection_subseteq_l.
Qed.

Lemma keyword_score_is_a_fraction_witness :
  let keyword (w s : string) := word_of w s /\ w ∉ stop_words in
  (_calculate_keyword_score (H := doubles) "reset my password now"
     "reset password" == 1)%Q
  /\ (exists w, keyword w "reset password")
  /\ forall w, keyword w "reset password" ->
               keyword w "reset my password now".
Proof.
  intros keyword.
  destruct (keyword_score_is_a_fraction "reset my password now"
              "reset password") as (_ & _ & Honly).
  assert (Hone : (_calculate_keyword_score (H := doubles)
                    "reset my password now" "reset password" == 1)%Q)
    by (vm_compute; reflexivity).
  split; [exact Hone|]. apply Honly; [|exact Hone].
  vm_compute. discriminate.
Defined.

(** X22: a paraphrase of the catalog, typed as it is or in another case, is
    always answered from the catalog, in doubles and for a similarity that
    is 1 on identical strings: its score against that paraphrase is the
    double 0.7, or 1.0, and the reply is the answer of an entry of the
    catalog. *)
Theorem catalog_question_is_answered
    (ratio : string -> string -> Q) (faqs : list (string * FAQEntry))
    (faq_id : string) (entry : FAQEntry) (question user_message : string) :
  (faq_id, entry) ∈ faqs -> question ∈ questions entry ->
  lower user_message = lower question ->
  (ratio (lower question) (lower question) == 1)%Q ->
  let score :=
    round (round (ratio (lower user_message) (lower question)
                  * round (7 # 10))
           + round (_calculate_keyword_score (H := doubles)
                      (lower user_message) (lower question)
                    * round (3 # 10))) in
  (score = (3152519739159347 # 4503599627370496)%Q \/ score = 1%Q)
  /\ (round (6 # 10) <= score)%Q
  /\ exists chosen_id chosen,
       (chosen_id, chosen) ∈ faqs
       /\ get_faq_response (H := doubles) ratio faqs user_message
          = Some (answer chosen).
Proof.
  intros Hin Hq Hsame Hratio score.
  pose proof (verbatim_score ratio user_message question Hsame Hratio)
    as Hscore.
  pose proof (verbatim_score_at_threshold ratio user_message question
                Hsame Hratio) as Hge.
  change (combined_score (H := doubles) ratio (lower user_message) question)
    with score in Hscore, Hge.
  split; [|split].
  - destruct Hscore as [-> | ->]; [left | right]; by vm_compute.
  - by apply Qle_bool_iff.
  - apply (threshold_reached ratio faqs user_message entry score); [|done].
    by apply (paraphrase_is_scored ratio faqs faq_id).
Qed.

Lemma catalog_question_is_answered_witness :
  let score :=
    round (round (ChatSample.exact_ratio (lower "WHEN ARE YOU OPEN")
                    (lower "when are you open")
                  * round (7 # 10))
           + round (_calculate_keyword_score (H := doubles)
                      (lower "WHEN ARE YOU OPEN") (lower "when are you open")
                    * round (3 # 10))) in
  (score = (3152519739159347 # 4503599627370496)%Q \/ score = 1%Q)
  /\ (round (6 # 10) <= score)%Q
  /\ exists chosen_id chosen,
       (chosen_id, chosen) ∈ sample_faqs
       /\ get_faq_response (H := doubles) ChatSample.exact_ratio sample_faqs
            "WHEN ARE YOU OPEN"
          = Some (answer chosen).
Proof.
  apply (catalog_question_is_answered ChatSample.exact_ratio sample_faqs
           "business_hours"
           {| questions := ["what are your business hours";
                            "when are you open"; "what time do you open";
                            "what time do you close"; "hours of operation"];
              answer := "Our customer support is available Monday through Friday from 9:00 AM to 6:00 PM EST, and Saturday from 10:00 AM to 4:00 PM EST. We're closed on Sundays and major holidays. For urgent issues outside these hours, please email support@company.com.";
              category := "general" |}
           "when are you open" "WHEN ARE YOU OPEN").
  - apply list_elem_of_here.
  - apply list_elem_of_further, list_elem_of_here.
  - reflexivity.
  - reflexivity.
Defined.

(** X23: after [add_faq], the catalog holds the new entry under its id, in
    the place of an entry of that id or else last, and the other entries
    as before; each of its paraphrases is then answered from the
    catalog, in doubles and for a similarity that is 1 on identical
    strings, and found by [search_faqs] with the new id and answer. *)
Theorem added_faq_is_found
    (ratio : string -> string -> Q) (faqs : list (string * FAQEntry))
    (faq_id : string) (questions : list string) (answer : string)
    (category : option string) (question : string) :
  question ∈ questions ->
  (ratio (lower question) (lower question) == 1)%Q ->
  let faqs' := add_faq faqs faq_id questions answer category in
  table_get faq_id faqs'
  = Some {| FAQHandler.questions := questions;
            FAQHandler.answer := answer;
            FAQHandler.category := default "general" category |}
  /\ (forall k, k <> faq_id -> table_get k faqs' = table_get k faqs)
  /\ map fst faqs'
     = match table_get faq_id faqs with
       | Some _ => map fst faqs
       | None => map fst faqs ++ [faq_id]
       end
  /\ (exists chosen_id chosen,
        (chosen_id, chosen) ∈ faqs'
        /\ get_faq_response (H := doubles) ratio faqs' question
           = Some (FAQHandler.answer chosen))
  /\ exists r, r ∈ search_faqs faqs' question None
               /\ found_id r = faq_id /\ found_answer r = answer.
Proof.
  intros Hq Hratio faqs'. unfold faqs', add_faq.
  split; [apply table_get_faq_set_eq|].
  split; [intros k Hk; by apply table_get_faq_set_ne|].
  split; [apply faq_set_keys|]. split.
  - eapply threshold_reached.
    + eapply (paraphrase_is_scored _ _ faq_id); [apply faq_set_elem|].
      exact Hq.
    + by apply verbatim_score_at_threshold.
  - eapply (search_entries_finds _ question faq_id
              {| FAQHandler.questions := questions;
                 FAQHandler.answer := answer;
                 FAQHandler.category := default "general" category |});
      [apply faq_set_elem | exact Hq | apply matches_refl].
Qed.

Lemma added_faq_is_found_witness :
  let faqs' :=
    add_faq sample_faqs "warranty" ["how long is the warranty"]
      "Two years." None in
  table_get "warranty" faqs'
  = Some {| questions := ["how long is the warranty"];
            answer := "Two years."; category := "general" |}
  /\ (forall k, k <> "warranty" ->
                table_get k faqs' = table_get k sample_faqs)
  /\ map fst faqs'
     = match table_get "warranty" sample_faqs with
       | Some _ => map fst sample_faqs
       | None => map fst sample_faqs ++ ["warranty"]
       end
  /\ (exists chosen_id chosen,
        (chosen_id, chosen) ∈ faqs'
        /\ get_faq_response (H := doubles) ChatSample.exact_ratio faqs'
             "how long is the warranty" = Some (FAQHandler.answer chosen))
  /\ exists r, r ∈ search_faqs faqs' "how long is the warranty" None
               /\ found_id r = "warranty" /\ found_answer r = "Two years.".
Proof.
  apply (added_faq_is_found ChatSample.exact_ratio sample_faqs "warranty"
           ["how long is the warranty"] "Two years." None
           "how long is the warranty").
  - apply list_elem_of_here.
  - reflexivity.
Defined.

End CatalogClaims.
